(** * Torch-Markup: the annotation canvas and the annotation store

    A shallow embedding of the two client-side pieces of the labelling
    front end:

    - [Store]: the Pinia store [useAnnotationStore] (current image, live
      annotation array, undo/redo history, prefetch queue and the stack of
      processed images);
    - [Canvas]: the pointer and wheel handlers of [AnnotationCanvas.vue]
      (drawing, resizing by a handle, zooming at the pointer).

    Conventions of the embedding.
    - JavaScript numbers that are identifiers, indices or counters are [Z];
      coordinates, extents and scales are exact rationals [Q] (the
      idealisation of the doubles of the source: no rounding, no NaN, and
      statements that divide assume a non-zero divisor).
    - An exception is not an [option]: a handler that throws has already
      written part of its effects, so [Throws] carries the state reached.
    - Every network request is an explicit argument (the reply, or a
      function from the request to the reply), so that each handler is a
      function of the state and of what the server answers. *)

From Stdlib Require Import ZArith QArith Qabs Qround Lia Lqa String.
From stdpp Require Import base option list strings gmap.

Set Default Proof Using "Type".

(** ** Results of handlers *)

(** A handler either runs to its end or throws; both leave a state. *)
Inductive Outcome (S : Type) : Type :=
| Returns (s : S)
| Throws (s : S).
Arguments Returns {S} s.
Arguments Throws {S} s.

Definition state_of {S : Type} (o : Outcome S) : S :=
  match o with Returns s => s | Throws s => s end.

Definition throws {S : Type} (o : Outcome S) : bool :=
  match o with Returns _ => false | Throws _ => true end.

(** Sequencing: a throw skips what follows. *)
Definition andThen {S : Type} (o : Outcome S) (k : S -> Outcome S) : Outcome S :=
  match o with Returns s => k s | Throws s => Throws s end.

(** [try { body } finally { cleanup }]: the cleanup runs either way. *)
Definition finally {S : Type} (o : Outcome S) (cleanup : S -> S) : Outcome S :=
  match o with
  | Returns s => Returns (cleanup s)
  | Throws s => Throws (cleanup s)
  end.

(** [iter n f] calls the handler [f] [n] times in a row. *)
Fixpoint iter {S : Type} (n : nat) (f : S -> Outcome S) (s : S) : Outcome S :=
  match n with
  | O => Returns s
  | S n' => andThen (f s) (iter n' f)
  end.

(** The reply to an awaited request: the promise rejects or resolves. *)
Inductive Response (A : Type) : Type :=
| Rejected
| Resolved (data : A).
Arguments Rejected {A}.
Arguments Resolved {A} data.

(** ** JavaScript arrays *)

Definition len {A : Type} (l : list A) : Z := Z.of_nat (length l).

(** [arr[i]]: [undefined] (here [None]) outside [0 .. length-1]. *)
Definition at_index {A : Type} (l : list A) (i : Z) : option A :=
  if (i <? 0)%Z then None else l !! Z.to_nat i.

(** [arr.slice(0, e)]: a negative [e] counts from the end. *)
Definition slice0 {A : Type} (l : list A) (e : Z) : list A :=
  if (e <? 0)%Z then take (Z.to_nat (len l + e)) l else take (Z.to_nat e) l.

(** [arr.findIndex(p)]: the first index satisfying [p], or [-1]. *)
Fixpoint findIndex {A : Type} (p : A -> bool) (l : list A) : Z :=
  match l with
  | [] => (-1)%Z
  | a :: l' =>
      if p a then 0%Z
      else let i := findIndex p l' in
           if (i =? -1)%Z then (-1)%Z else (i + 1)%Z
  end.

(** ** Data *)

(** An annotation in YOLO form. [ann_id] is absent on the payload the canvas
    emits and on the stripped records sent to the server. *)
Record Annotation : Type := mkAnnotation {
  ann_id : option Z;
  category_id : Z;
  x_center : Q;
  y_center : Q;
  width : Q;
  height : Q
}.

Record Category : Type := mkCategory {
  cat_id : Z;
  cat_name : string;
  shortcut_key : string
}.

(** An image record as the server sends it; [img_annotations] may be
    missing ([nextImage.annotations || []]). *)
Record Image : Type := mkImage {
  img_id : Z;
  filename : string;
  img_annotations : option (list Annotation)
}.

(** The second argument of [updateAnnotation]: the keys present override. *)
Record Updates : Type := mkUpdates {
  upd_id : option Z;
  upd_category_id : option Z;
  upd_x_center : option Q;
  upd_y_center : option Q;
  upd_width : option Q;
  upd_height : option Q
}.

(** [JSON.parse(JSON.stringify(v))] on an annotation array: every record is
    rebuilt field by field. *)
Definition JSON_clone_annotation (a : Annotation) : Annotation :=
  {| ann_id := ann_id a;
     category_id := category_id a;
     x_center := x_center a;
     y_center := y_center a;
     width := width a;
     height := height a |}.

Definition JSON_clone (l : list Annotation) : list Annotation :=
  map JSON_clone_annotation l.

(** [a.id === id] on possibly missing identifiers. *)
Definition same_id (i j : option Z) : bool :=
  match i, j with
  | Some x, Some y => (x =? y)%Z
  | None, None => true
  | _, _ => false
  end.

(** [x || []]. *)
Definition or_empty (o : option (list Annotation)) : list Annotation :=
  match o with Some l => l | None => [] end.

(** ** The annotation store ([useAnnotationStore]) *)

Module Store.

Local Open Scope Z_scope.

Definition PREFETCH_SIZE : Z := 20.
Definition PREFETCH_THRESHOLD : Z := 5.

(** The refs of the store. The blob cache [prefetchedImages] is left out: it
    is written by [prefetchImageFile] and read by [getPrefetchedImageUrl]
    only. The live array [annotations] starts as the very array of the
    current image record; nothing below reads that field of [currentImage]
    again (every copy pushed on [processedHistory] overrides it). *)
Record t : Type := mk {
  currentImage : option Image;
  annotations : list Annotation;
  categories : list Category;
  selectedCategory : option Category;
  history : list (list Annotation);
  historyIndex : Z;
  isLoading : bool;
  imageQueue : list Image;
  prefetchProgress : Z;
  isPrefetching : bool;
  isInitialLoad : bool;
  processedHistory : list Image;
  historyPosition : Z;
  isInHistory : bool
}.

(** The store as [defineStore] creates it. *)
Definition initial : t :=
  mk None [] [] None [] (-1) false [] 0 false true [] (-1) false.

(** Assignments to one ref. *)
Definition set_currentImage (v : option Image) (s : t) : t :=
  mk v (annotations s) (categories s) (selectedCategory s) (history s)
     (historyIndex s) (isLoading s) (imageQueue s) (prefetchProgress s)
     (isPrefetching s) (isInitialLoad s) (processedHistory s)
     (historyPosition s) (isInHistory s).
Definition set_annotations (v : list Annotation) (s : t) : t :=
  mk (currentImage s) v (categories s) (selectedCategory s) (history s)
     (historyIndex s) (isLoading s) (imageQueue s) (prefetchProgress s)
     (isPrefetching s) (isInitialLoad s) (processedHistory s)
     (historyPosition s) (isInHistory s).
Definition set_history (v : list (list Annotation)) (s : t) : t :=
  mk (currentImage s) (annotations s) (categories s) (selectedCategory s) v
     (historyIndex s) (isLoading s) (imageQueue s) (prefetchProgress s)
     (isPrefetching s) (isInitialLoad s) (processedHistory s)
     (historyPosition s) (isInHistory s).
Definition set_historyIndex (v : Z) (s : t) : t :=
  mk (currentImage s) (annotations s) (categories s) (selectedCategory s)
     (history s) v (isLoading s) (imageQueue s) (prefetchProgress s)
     (isPrefetching s) (isInitialLoad s) (processedHistory s)
     (historyPosition s) (isInHistory s).
Definition set_isLoading (v : bool) (s : t) : t :=
  mk (currentImage s) (annotations s) (categories s) (selectedCategory s)
     (history s) (historyIndex s) v (imageQueue s) (prefetchProgress s)
     (isPrefetching s) (isInitialLoad s) (processedHistory s)
     (historyPosition s) (isInHistory s).
Definition set_imageQueue (v : list Image) (s : t) : t :=
  mk (currentImage s) (annotations s) (categories s) (selectedCategory s)
     (history s) (historyIndex s) (isLoading s) v (prefetchProgress s)
     (isPrefetching s) (isInitialLoad s) (processedHistory s)
     (historyPosition s) (isInHistory s).
Definition set_prefetchProgress (v : Z) (s : t) : t :=
  mk (currentImage s) (annotations s) (categories s) (selectedCategory s)
     (history s) (historyIndex s) (isLoading s) (imageQueue s) v
     (isPrefetching s) (isInitialLoad s) (processedHistory s)
     (historyPosition s) (isInHistory s).
Definition set_isPrefetching (v : bool) (s : t) : t :=
  mk (currentImage s) (annotations s) (categories s) (selectedCategory s)
     (history s) (historyIndex s) (isLoading s) (imageQueue s)
     (prefetchProgress s) v (isInitialLoad s) (processedHistory s)
     (historyPosition s) (isInHistory s).
Definition set_isInitialLoad (v : bool) (s : t) : t :=
  mk (currentImage s) (annotations s) (categories s) (selectedCategory s)
     (history s) (historyIndex s) (isLoading s) (imageQueue s)
     (prefetchProgress s) (isPrefetching s) v (processedHistory s)
     (historyPosition s) (isInHistory s).
Definition set_processedHistory (v : list Image) (s : t) : t :=
  mk (currentImage s) (annotations s) (categories s) (selectedCategory s)
     (history s) (historyIndex s) (isLoading s) (imageQueue s)
     (prefetchProgress s) (isPrefetching s) (isInitialLoad s) v
     (historyPosition s) (isInHistory s).
Definition set_historyPosition (v : Z) (s : t) : t :=
  mk (currentImage s) (annotations s) (categories s) (selectedCategory s)
     (history s) (historyIndex s) (isLoading s) (imageQueue s)
     (prefetchProgress s) (isPrefetching s) (isInitialLoad s)
     (processedHistory s) v (isInHistory s).
Definition set_isInHistory (v : bool) (s : t) : t :=
  mk (currentImage s) (annotations s) (categories s) (selectedCategory s)
     (history s) (historyIndex s) (isLoading s) (imageQueue s)
     (prefetchProgress s) (isPrefetching s) (isInitialLoad s)
     (processedHistory s) (historyPosition s) v.

(** *** Computed properties *)

Definition canUndo (s : t) : bool := 0 <? historyIndex s.
Definition canRedo (s : t) : bool := historyIndex s <? len (history s) - 1.
Definition queueLength (s : t) : Z := len (imageQueue s).
Definition canGoPrevious (s : t) : bool := 0 <? len (processedHistory s).
Definition canGoNext (s : t) : bool :=
  isInHistory s && (historyPosition s <? len (processedHistory s) - 1).

(** *** Undo history *)

(** [saveHistory]: cut the redo tail, push a deep copy of the live array,
    point the index at it, and evict the oldest entry beyond 50. *)
Definition saveHistory (s : t) : t :=
  let s1 :=
    if historyIndex s <? len (history s) - 1
    then set_history (slice0 (history s) (historyIndex s + 1)) s
    else s in
  let s2 := set_history (history s1 ++ [JSON_clone (annotations s1)]) s1 in
  let s3 := set_historyIndex (len (history s2) - 1) s2 in
  if 50 <? len (history s3)
  then set_historyIndex (historyIndex s3 - 1) (set_history (drop 1 (history s3)) s3)
  else s3.

(** [annotations.value = JSON.parse(JSON.stringify(history.value[i]))]:
    [JSON.stringify(undefined)] is [undefined], which [JSON.parse] rejects
    with a SyntaxError. *)
Definition restore_snapshot (s : t) : Outcome t :=
  match at_index (history s) (historyIndex s) with
  | Some snap => Returns (set_annotations (JSON_clone snap) s)
  | None => Throws s
  end.

Definition undo (s : t) : Outcome t :=
  if canUndo s
  then restore_snapshot (set_historyIndex (historyIndex s - 1) s)
  else Returns s.

Definition redo (s : t) : Outcome t :=
  if canRedo s
  then restore_snapshot (set_historyIndex (historyIndex s + 1) s)
  else Returns s.

(** *** Mutations *)

(** [selectedCategory.value?.id || annotation.category_id]: the identifier
    of the selected category unless it is missing or falsy (zero). *)
Definition pick_category (sel : option Category) (fallback : Z) : Z :=
  match sel with
  | Some c => if cat_id c =? 0 then fallback else cat_id c
  | None => fallback
  end.

(** [addAnnotation]; [now] is the value of [Date.now()], the temporary id. *)
Definition addAnnotation (now : Z) (annotation : Annotation) (s : t)
  : Annotation * t :=
  let newAnnotation :=
    {| ann_id := Some now;
       category_id := pick_category (selectedCategory s) (category_id annotation);
       x_center := x_center annotation;
       y_center := y_center annotation;
       width := width annotation;
       height := height annotation |} in
  (newAnnotation, saveHistory (set_annotations (annotations s ++ [newAnnotation]) s)).

(** [{ ...a, ...updates }]. *)
Definition spread (a : Annotation) (u : Updates) : Annotation :=
  {| ann_id := match upd_id u with Some i => Some i | None => ann_id a end;
     category_id := default (category_id a) (upd_category_id u);
     x_center := default (x_center a) (upd_x_center u);
     y_center := default (y_center a) (upd_y_center u);
     width := default (width a) (upd_width u);
     height := default (height a) (upd_height u) |}.

Definition updateAnnotation (i : option Z) (updates : Updates) (s : t) : t :=
  let index := findIndex (fun a => same_id (ann_id a) i) (annotations s) in
  if index =? -1 then s
  else
    match at_index (annotations s) index with
    | Some a =>
        saveHistory
          (set_annotations (<[Z.to_nat index := spread a updates]> (annotations s)) s)
    | None => s
    end.

Definition removeAnnotation (i : option Z) (s : t) : t :=
  let index := findIndex (fun a => same_id (ann_id a) i) (annotations s) in
  if index =? -1 then s
  else saveHistory (set_annotations (delete (Z.to_nat index) (annotations s)) s).

(** The three mutating operations as one type of commands. *)
Inductive Mutation : Type :=
| Add (now : Z) (annotation : Annotation)
| Update (i : option Z) (updates : Updates)
| Remove (i : option Z).

Definition mutate (m : Mutation) (s : t) : t :=
  match m with
  | Add now a => snd (addAnnotation now a s)
  | Update i u => updateAnnotation i u s
  | Remove i => removeAnnotation i s
  end.

Definition mutate_all (ms : list Mutation) (s : t) : t :=
  foldl (fun acc m => mutate m acc) s ms.

(** *** Prefetch queue *)

(** [fetchImageBatch] catches a failed request and answers [[]]. *)
Definition fetchImageBatch (batch : Response (list Image)) : list Image :=
  match batch with Resolved images => images | Rejected => [] end.

(** [getNextFromQueue]: shift the queue into [currentImage], make the image's
    annotations the live array and snapshot them. The history is not
    cleared here. *)
Definition getNextFromQueue (s : t) : option Image * t :=
  match imageQueue s with
  | [] => (None, s)
  | nextImage :: rest =>
      let s1 := set_imageQueue rest s in
      let s2 := set_currentImage (Some nextImage) s1 in
      let s3 := set_annotations (or_empty (img_annotations nextImage)) s2 in
      (Some nextImage, saveHistory s3)
  end.

(** [initializePrefetch]: the loop over the batch only fills the blob cache
    and leaves the progress at [Math.round((n / n) * 100)]. *)
Definition initializePrefetch (batch : Response (list Image)) (s : t)
  : option Image * t :=
  let s1 := set_prefetchProgress 0 (set_isPrefetching true (set_isInitialLoad true s)) in
  let images := fetchImageBatch batch in
  if len images =? 0
  then (None, set_isInitialLoad false (set_isPrefetching false s1))
  else
    let s2 := set_imageQueue images s1 in
    let s3 := set_prefetchProgress 100 s2 in
    getNextFromQueue (set_isInitialLoad false (set_isPrefetching false s3)).

(** [backgroundPrefetch] up to its first [await]: the part that runs inside
    the caller, which does not wait for the rest. *)
Definition backgroundPrefetch_begin (s : t) : t :=
  if isPrefetching s then s
  else if PREFETCH_THRESHOLD <=? len (imageQueue s) then s
  else set_prefetchProgress 0 (set_isPrefetching true s).

(** [backgroundPrefetch] when the batch arrives: [newImages], the images
    of the batch whose identifier is not in the queue at that moment. *)
Definition backgroundPrefetch_filter (batch : Response (list Image)) (s : t)
  : list Image :=
  let images := fetchImageBatch batch in
  let existingIds (img : Image) : bool :=
    existsb (fun q => img_id q =? img_id img) (imageQueue s) in
  List.filter (fun img => negb (existingIds img)) images.

(** With nothing new the prefetch ends when the batch arrives. Otherwise
    the file of each new image is awaited in turn, other handlers running
    in between, and the store is written again only afterwards. *)
Definition backgroundPrefetch_arrived (batch : Response (list Image)) (s : t) : t :=
  if 0 <? len (backgroundPrefetch_filter batch s)
  then s else set_isPrefetching false s.

(** The end of [backgroundPrefetch], once every file has been awaited:
    [newImages], computed when the batch arrived, are pushed on the queue
    as it is by now. *)
Definition backgroundPrefetch_push (newImages : list Image) (s : t) : t :=
  set_isPrefetching false (set_imageQueue (imageQueue s ++ newImages) s).

(** [fetchNextImage]. [batch] answers the batch request of the first load,
    [direct] answers [GET /images/next/{datasetId}]. The background prefetch
    is started, not awaited: what it does once its batch arrives are the
    separate steps [backgroundPrefetch_arrived] and [backgroundPrefetch_push],
    which write the queue and the prefetch flags only. *)
Definition fetchNextImage (batch : Response (list Image))
    (direct : Response (option Image)) (s : t) : Outcome t :=
  let s0 := set_isLoading true s in
  finally
    (if (len (imageQueue s0) =? 0) && negb (bool_decide (is_Some (currentImage s0)))
     then Returns (snd (initializePrefetch batch s0))
     else
       let '(nextImage, s1) := getNextFromQueue s0 in
       let s2 :=
         if len (imageQueue s1) <? PREFETCH_THRESHOLD
         then backgroundPrefetch_begin s1 else s1 in
       match nextImage with
       | Some _ => Returns s2
       | None =>
           match direct with
           | Rejected => Throws s2
           | Resolved (Some data) =>
               Returns (saveHistory
                          (set_annotations (or_empty (img_annotations data))
                             (set_currentImage (Some data) s2)))
           | Resolved None =>
               Returns (set_annotations [] (set_currentImage None s2))
           end
       end)
    (set_isLoading false).

(** [fetchImage]; [reply] answers [GET /images/{imageId}]. *)
Definition fetchImage (reply : Response Image) (s : t) : Outcome t :=
  let s0 := set_isLoading true s in
  finally
    (match reply with
     | Rejected => Throws s0
     | Resolved data =>
         Returns (saveHistory
                    (set_annotations (or_empty (img_annotations data))
                       (set_currentImage (Some data) s0)))
     end)
    (set_isLoading false).

(** *** Processed images *)

(** [{ ...image, annotations: JSON.parse(JSON.stringify(anns)) }]. *)
Definition processed_entry (image : Image) (anns : list Annotation) : Image :=
  {| img_id := img_id image;
     filename := filename image;
     img_annotations := Some (JSON_clone anns) |}.

Definition recordToProcessedHistory (image : Image) (imageAnnotations : list Annotation)
    (s : t) : t :=
  let s1 :=
    if isInHistory s && (historyPosition s <? len (processedHistory s) - 1)
    then set_processedHistory (slice0 (processedHistory s) (historyPosition s + 1)) s
    else s in
  let s2 :=
    set_processedHistory
      (processedHistory s1 ++ [processed_entry image imageAnnotations]) s1 in
  let s3 := set_historyPosition (len (processedHistory s2) - 1) s2 in
  let s4 := set_isInHistory false s3 in
  if 50 <? len (processedHistory s4)
  then set_historyPosition (historyPosition s4 - 1)
         (set_processedHistory (drop 1 (processedHistory s4)) s4)
  else s4.

(** The reload shared by [goToPreviousImage] and [goToNextImage]: here the
    undo history is emptied before the snapshot is taken. *)
Definition reload (server : Z -> Response Image) (target : Image) (s : t) : Outcome t :=
  let s0 := set_isLoading true s in
  finally
    (match server (img_id target) with
     | Rejected => Throws s0
     | Resolved data =>
         Returns (saveHistory
                    (set_historyIndex (-1)
                       (set_history []
                          (set_annotations (or_empty (img_annotations data))
                             (set_currentImage (Some data) s0)))))
     end)
    (set_isLoading false).

(** [goToPreviousImage]; [server] answers [GET /images/{id}]. *)
Definition goToPreviousImage (server : Z -> Response Image) (s : t) : Outcome t :=
  if negb (canGoPrevious s) then Returns s
  else
    let push (cur : Image) :=
      let s' := set_processedHistory
                  (processedHistory s ++ [processed_entry cur (annotations s)]) s in
      set_historyPosition (len (processedHistory s') - 1) s' in
    let s1 :=
      match isInHistory s, currentImage s with
      | false, Some cur =>
          match at_index (processedHistory s) (len (processedHistory s) - 1) with
          | Some lastInHistory =>
              if img_id lastInHistory =? img_id cur then s else push cur
          | None => push cur
          end
      | _, _ => s
      end in
    let s2 := set_isInHistory true s1 in
    let s3 := set_historyPosition (historyPosition s2 - 1) s2 in
    match at_index (processedHistory s3) (historyPosition s3) with
    | Some prevImage => reload server prevImage s3
    | None => Returns s3
    end.

(** [goToNextImage]. *)
Definition goToNextImage (server : Z -> Response Image) (s : t) : Outcome t :=
  if negb (canGoNext s) then Returns s
  else
    let s1 := set_historyPosition (historyPosition s + 1) s in
    let leave (s' : t) : t :=
      if historyPosition s' =? len (processedHistory s') - 1
      then set_isInHistory false s' else s' in
    match at_index (processedHistory s1) (historyPosition s1) with
    | Some nextImage =>
        match reload server nextImage s1 with
        | Returns s2 => Returns (leave s2)
        | Throws s2 => Throws s2
        end
    | None => Returns (leave s1)
    end.

Definition exitHistoryMode (s : t) : t :=
  set_historyPosition (len (processedHistory s) - 1) (set_isInHistory false s).

(** *** Saving *)

(** The record sent for one annotation: the five stored fields, no id. *)
Definition annotationData (a : Annotation) : Annotation :=
  {| ann_id := None;
     category_id := category_id a;
     x_center := x_center a;
     y_center := y_center a;
     width := width a;
     height := height a |}.

(** [saveAnnotations(skip)]; [post imageId annotations skip] answers
    [POST /images/{imageId}/save]. *)
Definition saveAnnotations (post : Z -> list Annotation -> bool -> Response unit)
    (skip : bool) (s : t) : Outcome t :=
  match currentImage s with
  | None => Returns s
  | Some image =>
      let annotationsData := map annotationData (annotations s) in
      match post (img_id image) annotationsData skip with
      | Rejected => Throws s
      | Resolved _ =>
          if negb (isInHistory s)
          then Returns (recordToProcessedHistory image annotationsData s)
          else Returns s
      end
  end.

(** [reset], without the blob cache. *)
Definition reset (s : t) : t :=
  set_isInHistory false
    (set_historyPosition (-1)
       (set_processedHistory []
          (set_isInitialLoad true
             (set_imageQueue []
                (set_historyIndex (-1)
                   (set_history []
                      (set_annotations [] (set_currentImage None s)))))))).

End Store.

(** ** The canvas ([AnnotationCanvas.vue]) *)

Module Canvas.

Local Open Scope Q_scope.

(** [a < b] on numbers. *)
Definition Qltb (a b : Q) : bool := negb (Qle_bool b a).

(** [Math.max] and [Math.min]. *)
Definition Math_max (a b : Q) : Q := if Qltb a b then b else a.
Definition Math_min (a b : Q) : Q := if Qltb b a then b else a.

Record Point : Type := mkPoint { px : Q; py : Q }.

(** A box in image pixels: top-left corner and extent. *)
Record Box : Type := mkBox { box_x : Q; box_y : Q; box_w : Q; box_h : Q }.

Inductive HandleType : Type := tl | t_ | tr | r_ | br | b_ | bl | l_.

(** A resize handle at a screen position (the cursor name is left out). *)
Record Handle : Type := mkHandle { handle_x : Q; handle_y : Q; type : HandleType }.

Inductive Mode : Type := annotate | pan.

(** The props read by the handlers ([categories] only give colours). *)
Record Props : Type := mkProps {
  annotations : list Annotation;
  selectedCategory : option Category;
  mode : Mode
}.

(** What the component emits to its parent. *)
Inductive Event : Type :=
| emit_add (annotation : Annotation)
| emit_update (i : option Z) (updates : Updates)
| emit_delete (i : option Z)
| emit_zoom_change (scale : Q).

(** The refs of the component, once mounted. [image] is the natural size
    [(width, height)] of the loaded image, or [None] until [onload] ran. *)
Record t : Type := mk {
  image : option (Q * Q);
  scale : Q;
  offsetX : Q;
  offsetY : Q;
  isDrawing : bool;
  isDragging : bool;
  isPanning : bool;
  spacePressed : bool;
  startPoint : Point;
  currentBox : option Box;
  selectedAnnotation : option Annotation;
  dragHandle : option Handle;
  dragBox : option Box
}.

(** The component right after [onMounted], before the image arrived. *)
Definition mounted : t :=
  mk None 1 0 0 false false false false (mkPoint 0 0) None None None None.

Definition set_view (sc ox oy : Q) (c : t) : t :=
  mk (image c) sc ox oy (isDrawing c) (isDragging c) (isPanning c)
     (spacePressed c) (startPoint c) (currentBox c) (selectedAnnotation c)
     (dragHandle c) (dragBox c).
Definition set_isDrawing (v : bool) (c : t) : t :=
  mk (image c) (scale c) (offsetX c) (offsetY c) v (isDragging c) (isPanning c)
     (spacePressed c) (startPoint c) (currentBox c) (selectedAnnotation c)
     (dragHandle c) (dragBox c).
Definition set_isDragging (v : bool) (c : t) : t :=
  mk (image c) (scale c) (offsetX c) (offsetY c) (isDrawing c) v (isPanning c)
     (spacePressed c) (startPoint c) (currentBox c) (selectedAnnotation c)
     (dragHandle c) (dragBox c).
Definition set_isPanning (v : bool) (c : t) : t :=
  mk (image c) (scale c) (offsetX c) (offsetY c) (isDrawing c) (isDragging c) v
     (spacePressed c) (startPoint c) (currentBox c) (selectedAnnotation c)
     (dragHandle c) (dragBox c).
Definition set_startPoint (v : Point) (c : t) : t :=
  mk (image c) (scale c) (offsetX c) (offsetY c) (isDrawing c) (isDragging c)
     (isPanning c) (spacePressed c) v (currentBox c) (selectedAnnotation c)
     (dragHandle c) (dragBox c).
Definition set_currentBox (v : option Box) (c : t) : t :=
  mk (image c) (scale c) (offsetX c) (offsetY c) (isDrawing c) (isDragging c)
     (isPanning c) (spacePressed c) (startPoint c) v (selectedAnnotation c)
     (dragHandle c) (dragBox c).
Definition set_selectedAnnotation (v : option Annotation) (c : t) : t :=
  mk (image c) (scale c) (offsetX c) (offsetY c) (isDrawing c) (isDragging c)
     (isPanning c) (spacePressed c) (startPoint c) (currentBox c) v
     (dragHandle c) (dragBox c).
Definition set_dragHandle (v : option Handle) (c : t) : t :=
  mk (image c) (scale c) (offsetX c) (offsetY c) (isDrawing c) (isDragging c)
     (isPanning c) (spacePressed c) (startPoint c) (currentBox c)
     (selectedAnnotation c) v (dragBox c).
Definition set_dragBox (v : option Box) (c : t) : t :=
  mk (image c) (scale c) (offsetX c) (offsetY c) (isDrawing c) (isDragging c)
     (isPanning c) (spacePressed c) (startPoint c) (currentBox c)
     (selectedAnnotation c) (dragHandle c) v.

(** *** Geometry *)

(** The pixel box of an annotation on an image of size [imgW] x [imgH]. *)
Definition pixelBox (ann : Annotation) (imgW imgH : Q) : Box :=
  {| box_x := (x_center ann - width ann / 2) * imgW;
     box_y := (y_center ann - height ann / 2) * imgH;
     box_w := width ann * imgW;
     box_h := height ann * imgH |}.

Definition screenToImage (c : t) (screenX screenY : Q) : Point :=
  {| px := (screenX - offsetX c) / scale c;
     py := (screenY - offsetY c) / scale c |}.

(** The transform [drawBox] applies to draw an image point on screen. *)
Definition imageToScreen (c : t) (p : Point) : Point :=
  {| px := px p * scale c + offsetX c;
     py := py p * scale c + offsetY c |}.

Definition getHandles (x y w h : Q) : list Handle :=
  [ mkHandle x y tl;
    mkHandle (x + w / 2) y t_;
    mkHandle (x + w) y tr;
    mkHandle (x + w) (y + h / 2) r_;
    mkHandle (x + w) (y + h) br;
    mkHandle (x + w / 2) (y + h) b_;
    mkHandle x (y + h) bl;
    mkHandle x (y + h / 2) l_ ].

Definition getClickedHandle (c : t) (screenX screenY : Q) : option Handle :=
  match selectedAnnotation c, image c with
  | Some ann, Some (imgW, imgH) =>
      let b := pixelBox ann imgW imgH in
      let handles :=
        getHandles (box_x b * scale c + offsetX c) (box_y b * scale c + offsetY c)
                   (box_w b * scale c) (box_h b * scale c) in
      List.find (fun handle =>
                   Qltb (Qabs (screenX - handle_x handle)) 8
                   && Qltb (Qabs (screenY - handle_y handle)) 8) handles
  | _, _ => None
  end.

(** The topmost annotation under a screen point: the array is searched from
    its end. *)
Definition getAnnotationAt (p : Props) (c : t) (screenX screenY : Q)
  : option Annotation :=
  match image c with
  | None => None
  | Some (imgW, imgH) =>
      let imgPoint := screenToImage c screenX screenY in
      List.find (fun ann =>
                   let b := pixelBox ann imgW imgH in
                   Qle_bool (box_x b) (px imgPoint)
                   && Qle_bool (px imgPoint) (box_x b + box_w b)
                   && Qle_bool (box_y b) (py imgPoint)
                   && Qle_bool (py imgPoint) (box_y b + box_h b))
                (rev (annotations p))
  end.

(** The [switch] of [updateDragBox]: the edges [(x1, y1, x2, y2)] once the
    handle has moved its own to the pointer. *)
Definition moved_edges (box : Box) (handleType : HandleType) (imgPoint : Point)
  : Q * Q * Q * Q :=
  let x1 := box_x box in
  let y1 := box_y box in
  let x2 := box_x box + box_w box in
  let y2 := box_y box + box_h box in
  match handleType with
  | tl => (px imgPoint, py imgPoint, x2, y2)
  | t_ => (x1, py imgPoint, x2, y2)
  | tr => (x1, py imgPoint, px imgPoint, y2)
  | r_ => (x1, y1, px imgPoint, y2)
  | br => (x1, y1, px imgPoint, py imgPoint)
  | b_ => (x1, y1, x2, py imgPoint)
  | bl => (px imgPoint, y1, x2, py imgPoint)
  | l_ => (px imgPoint, y1, x2, y2)
  end.

(** One step of a resize: the switch, then the two size checks, which only
    ever assign [x2] and [y2]. *)
Definition resize (box : Box) (handleType : HandleType) (imgPoint : Point) : Box :=
  let '(x1, y1, x2, y2) := moved_edges box handleType imgPoint in
  let x2 := if Qltb (x2 - x1) 10 then x1 + 10 else x2 in
  let y2 := if Qltb (y2 - y1) 10 then y1 + 10 else y2 in
  {| box_x := x1; box_y := y1; box_w := x2 - x1; box_h := y2 - y1 |}.

Definition updateDragBox (handleType : HandleType) (imgPoint : Point) (c : t) : t :=
  match dragBox c with
  | None => c
  | Some box => set_dragBox (Some (resize box handleType imgPoint)) c
  end.

(** *** Drawing *)

(** [draw] paints and changes no ref, but it can throw: [drawAnnotation]
    reads [image.value.width], a TypeError while no image is loaded. An
    annotation is painted by [drawAnnotationWithBox] instead when it is the
    selected one and a resize is under way. *)
Definition painted_from_image (c : t) (ann : Annotation) : bool :=
  let isSelected :=
    same_id (ann_id ann)
            (match selectedAnnotation c with Some sel => ann_id sel | None => None end) in
  negb (isSelected && isDragging c && bool_decide (is_Some (dragBox c))).

Definition draw_throws (p : Props) (c : t) : bool :=
  match image c with
  | Some _ => false
  | None => existsb (painted_from_image c) (annotations p)
  end.

(** A handler's trailing [draw()] after it emitted [evs]. *)
Definition draw (p : Props) (c : t) (evs : list Event) : Outcome (t * list Event) :=
  if draw_throws p c then Throws (c, evs) else Returns (c, evs).

(** *** Handlers *)

(** A pointer or wheel event with the canvas rectangle it is measured
    against ([getBoundingClientRect]). *)
Record PointerEvent : Type := mkPointerEvent {
  clientX : Q;
  clientY : Q;
  deltaY : Q;
  rect_left : Q;
  rect_top : Q
}.

Definition is_pan (m : Mode) : bool :=
  match m with pan => true | annotate => false end.

Definition handleMouseDown (p : Props) (e : PointerEvent) (c : t)
  : Outcome (t * list Event) :=
  let screenX := clientX e - rect_left e in
  let screenY := clientY e - rect_top e in
  if is_pan (mode p) || spacePressed c then
    Returns (set_startPoint (mkPoint (clientX e) (clientY e)) (set_isPanning true c), [])
  else
    match getClickedHandle c screenX screenY, selectedAnnotation c, image c with
    | Some handle, Some ann, Some (imgW, imgH) =>
        let c1 := set_isDragging true (set_dragHandle (Some handle) c) in
        let c2 := set_startPoint (screenToImage c1 screenX screenY) c1 in
        Returns (set_dragBox (Some (pixelBox ann imgW imgH)) c2, [])
    | _, _, _ =>
        match getAnnotationAt p c screenX screenY with
        | Some clickedAnn => draw p (set_selectedAnnotation (Some clickedAnn) c) []
        | None =>
            match selectedCategory p with
            | Some _ =>
                let c1 := set_isDrawing true (set_selectedAnnotation None c) in
                let imgPoint := screenToImage c1 screenX screenY in
                let c2 := set_startPoint imgPoint c1 in
                Returns
                  (set_currentBox (Some (mkBox (px imgPoint) (py imgPoint) 0 0)) c2, [])
            | None => Returns (c, [])
            end
        end
    end.

(** [updateCursor] only writes the cursor style and is left out. *)
Definition handleMouseMove (p : Props) (e : PointerEvent) (c : t)
  : Outcome (t * list Event) :=
  let screenX := clientX e - rect_left e in
  let screenY := clientY e - rect_top e in
  if isPanning c then
    let c1 := set_view (scale c)
                (offsetX c + (clientX e - px (startPoint c)))
                (offsetY c + (clientY e - py (startPoint c))) c in
    draw p (set_startPoint (mkPoint (clientX e) (clientY e)) c1) []
  else
    match isDragging c, selectedAnnotation c, dragHandle c, dragBox c with
    | true, Some _, Some handle, Some _ =>
        draw p (updateDragBox (type handle) (screenToImage c screenX screenY) c) []
    | _, _, _, _ =>
        match isDrawing c, currentBox c with
        | true, Some cb =>
            let imgPoint := screenToImage c screenX screenY in
            let cb' := mkBox (box_x cb) (box_y cb)
                         (px imgPoint - px (startPoint c))
                         (py imgPoint - py (startPoint c)) in
            draw p (set_currentBox (Some cb') c) []
        | _, _ => Returns (c, [])
        end
    end.

(** The box of a finished draw with positive extents. *)
Definition normalize (cb : Box) : Box :=
  let '(x, w) := if Qltb (box_w cb) 0 then (box_x cb + box_w cb, - box_w cb)
                 else (box_x cb, box_w cb) in
  let '(y, h) := if Qltb (box_h cb) 0 then (box_y cb + box_h cb, - box_h cb)
                 else (box_y cb, box_h cb) in
  mkBox x y w h.

(** [handleMouseUp], also bound to [mouseleave]. In the drawing branch the
    new annotation takes [props.selectedCategory.id], a TypeError when no
    category is selected. *)
Definition handleMouseUp (p : Props) (c : t) : Outcome (t * list Event) :=
  if isPanning c then Returns (set_isPanning false c, [])
  else if isDragging c then
    let c1 := set_dragHandle None (set_isDragging false c) in
    let evs :=
      match selectedAnnotation c1, dragBox c1, image c1 with
      | Some sel, Some box, Some (imgW, imgH) =>
          [ emit_update (ann_id sel)
              {| upd_id := None;
                 upd_category_id := None;
                 upd_x_center := Some ((box_x box + box_w box / 2) / imgW);
                 upd_y_center := Some ((box_y box + box_h box / 2) / imgH);
                 upd_width := Some (box_w box / imgW);
                 upd_height := Some (box_h box / imgH) |} ]
      | _, _, _ => []
      end in
    Returns (set_dragBox None c1, evs)
  else
    match isDrawing c, currentBox c with
    | true, Some cb =>
        let c1 := set_isDrawing false c in
        let n := normalize cb in
        match Qltb 5 (box_w n) && Qltb 5 (box_h n), image c1 with
        | true, Some (imgW, imgH) =>
            match selectedCategory p with
            | None => Throws (c1, [])
            | Some cat =>
                let annotation :=
                  {| ann_id := None;
                     category_id := cat_id cat;
                     x_center := (box_x n + box_w n / 2) / imgW;
                     y_center := (box_y n + box_h n / 2) / imgH;
                     width := box_w n / imgW;
                     height := box_h n / imgH |} in
                draw p (set_currentBox None c1) [emit_add annotation]
            end
        | _, _ => draw p (set_currentBox None c1) []
        end
    | _, _ => Returns (c, [])
    end.

Definition handleWheel (p : Props) (e : PointerEvent) (c : t)
  : Outcome (t * list Event) :=
  let mouseX := clientX e - rect_left e in
  let mouseY := clientY e - rect_top e in
  let zoomFactor := if Qltb 0 (deltaY e) then 9 # 10 else 11 # 10 in
  let newScale := Math_min (Math_max (scale c * zoomFactor) (1 # 10)) 10 in
  let imgPoint := screenToImage c mouseX mouseY in
  let c1 := set_view newScale (mouseX - px imgPoint * newScale)
                     (mouseY - py imgPoint * newScale) c in
  draw p c1 [emit_zoom_change (scale c1)].

(** The events a handler emitted, whether it returned or threw. *)
Definition emitted (o : Outcome (t * list Event)) : list Event := snd (state_of o).

Definition is_add (ev : Event) : bool :=
  match ev with emit_add _ => true | _ => false end.

End Canvas.

(** ** Specification vocabulary *)

Module Spec.

Import Store.
Local Open Scope Z_scope.

(** The live array is the snapshot at the history index (so the index is
    inside the history). *)
Definition consistent (s : Store.t) : Prop :=
  at_index (history s) (historyIndex s) = Some (annotations s).

(** The invariant of the undo history as the design states it. *)
Definition history_invariant (s : Store.t) : Prop :=
  history s <> [] ->
  0 <= historyIndex s < len (history s) /\ consistent s.

(** The state a load that resets the store leaves: one snapshot, index 0. *)
Definition freshly_loaded (s : Store.t) : Prop :=
  history s = [annotations s] /\ historyIndex s = 0.

(** Moving the history index to [j] and restoring the snapshot there. *)
Definition jump (j : Z) (s : Store.t) : Store.t :=
  match at_index (history s) j with
  | Some snap => set_annotations snap (set_historyIndex j s)
  | None => s
  end.

(** The history after a snapshot was pushed on [h]: at most 50 entries. *)
Definition bounded (h : list (list Annotation)) : list (list Annotation) :=
  if 50 <? len h then drop 1 h else h.

(** The part of the history [saveHistory] keeps before it pushes. *)
Definition kept (s : Store.t) : list (list Annotation) :=
  if historyIndex s <? len (history s) - 1
  then slice0 (history s) (historyIndex s + 1)
  else history s.

(** The mutation [m] has something to change in [s]: an [Add] always, an
    [Update] or [Remove] when an annotation carries the identifier. *)
Definition applies (m : Mutation) (s : Store.t) : Prop :=
  match m with
  | Add _ _ => True
  | Update i _ | Remove i => exists a, a ∈ annotations s /\ ann_id a = i
  end.

(** The operations of the store that load an image or edit, undo or redo,
    with the replies they await. *)
Inductive Operation : Type :=
| op_fetchImage (reply : Response Image)
| op_advance (batch : Response (list Image)) (direct : Response (option Image))
| op_goToPrevious (server : Z -> Response Image)
| op_goToNext (server : Z -> Response Image)
| op_mutate (m : Mutation)
| op_undo
| op_redo.

Definition perform (o : Operation) (s : Store.t) : Outcome Store.t :=
  match o with
  | op_fetchImage reply => fetchImage reply s
  | op_advance batch direct => fetchNextImage batch direct s
  | op_goToPrevious server => goToPreviousImage server s
  | op_goToNext server => goToNextImage server s
  | op_mutate m => Returns (mutate m s)
  | op_undo => undo s
  | op_redo => redo s
  end.

(** An advance past the last image: the queue is empty and the server has
    no next image. *)
Definition finds_nothing (o : Operation) (s : Store.t) : Prop :=
  match o with
  | op_advance batch direct =>
      direct = Resolved None /\ imageQueue s = [] /\ is_Some (currentImage s)
  | _ => False
  end.

(** The refs an edit, an undo or a redo works on. *)
Definition editing (s : Store.t)
  : option Image * list Annotation * list (list Annotation) * Z :=
  (currentImage s, annotations s, history s, historyIndex s).

(** The handles whose moving edge is the right one, and those whose moving
    edge is the bottom one: their anchors are the left and the top edge. *)
Definition moves_right (h : Canvas.HandleType) : bool :=
  match h with Canvas.tr | Canvas.r_ | Canvas.br => true | _ => false end.
Definition moves_bottom (h : Canvas.HandleType) : bool :=
  match h with Canvas.br | Canvas.b_ | Canvas.bl => true | _ => false end.

(** The handles whose moving edge is the left one, and those whose moving
    edge is the top one. *)
Definition moves_left (h : Canvas.HandleType) : bool :=
  match h with Canvas.tl | Canvas.bl | Canvas.l_ => true | _ => false end.
Definition moves_top (h : Canvas.HandleType) : bool :=
  match h with Canvas.tl | Canvas.t_ | Canvas.tr => true | _ => false end.

(** The right and the bottom edge of a box. *)
Definition right_edge (b : Canvas.Box) : Q := (Canvas.box_x b + Canvas.box_w b)%Q.
Definition bottom_edge (b : Canvas.Box) : Q := (Canvas.box_y b + Canvas.box_h b)%Q.

(** The clamp of the wheel zoom. *)
Definition clamp_scale (x : Q) : Q :=
  Canvas.Math_min (Canvas.Math_max x (1 # 10)) 10.

(** A server that answers every [GET /images/{id}] with that image. *)
Definition serves_requested (server : Z -> Response Image) : Prop :=
  forall i, exists data, server i = Resolved data /\ img_id data = i.

(** The identifier of the current image. *)
Definition current_id (s : Store.t) : option Z := img_id <$> currentImage s.

End Spec.

(** ** Sample data *)

Module Sample.

Import Store.
Local Open Scope Z_scope.

Definition car : Category := mkCategory 1 "car" "c".

(** A stored annotation with a server identifier. *)
Definition box7 : Annotation := mkAnnotation (Some 7) 1 (1 # 2) (1 # 2) (1 # 4) (1 # 4).

(** Payloads as the canvas emits them. *)
Definition drawn1 : Annotation := mkAnnotation None 1 (1 # 4) (1 # 4) (1 # 8) (1 # 8).
Definition drawn2 : Annotation := mkAnnotation None 1 (3 # 4) (3 # 4) (1 # 8) (1 # 8).

(** Image 1 was labelled before; images 2 and 3 are new. *)
Definition image1 : Image := mkImage 1 "a.jpg" (Some [box7]).
Definition image2 : Image := mkImage 2 "b.jpg" None.
Definition image3 : Image := mkImage 3 "c.jpg" (Some []).

(** A server that has every image with one stored annotation, one whose
    saves succeed and one whose saves fail. *)
Definition server (i : Z) : Response Image :=
  Resolved (mkImage i "stored.jpg" (Some [box7])).

Definition post_ok (i : Z) (anns : list Annotation) (skip : bool) : Response unit :=
  Resolved tt.
Definition post_down (i : Z) (anns : list Annotation) (skip : bool) : Response unit :=
  Rejected.

(** The store after the first load when the server offers images 1 and 2:
    image 1 is current, image 2 waits in the queue. *)
Definition first_load : Store.t :=
  Eval vm_compute in
  state_of (fetchNextImage (Resolved [image1; image2]) Rejected initial).

(** The store after the first load when image 1 is the only image left. *)
Definition last_image : Store.t :=
  Eval vm_compute in
  state_of (fetchNextImage (Resolved [image1]) Rejected initial).

(** Image 1 loaded through [goToNextImage]'s reload: one snapshot. *)
Definition reloaded : Store.t :=
  Eval vm_compute in
  state_of (reload server image1 initial).

Definition three_edits : list Mutation :=
  [Add 1001 drawn1; Add 1002 drawn2; Remove (Some 1001)].

(** Three edits on the reloaded image, then one undo. *)
Definition undone_once : Store.t :=
  Eval vm_compute in
  state_of (undo (mutate_all three_edits reloaded)).

(** Save and advance twice, as [handleSave] does (the queue answers, no
    request is sent), then step back once: images 1 and 2 are processed,
    image 3 was current, the store browses image 2. *)
Definition save_and_advance (s : Store.t) : Store.t :=
  state_of (andThen (saveAnnotations post_ok false s)
                    (fetchNextImage Rejected Rejected)).

Definition at_image3 : Store.t :=
  Eval vm_compute in
  save_and_advance
    (save_and_advance
       (state_of (fetchNextImage (Resolved [image1; image2; image3]) Rejected initial))).

Definition browsing_image2 : Store.t :=
  Eval vm_compute in
  state_of (goToPreviousImage server at_image3).

(** The canvas in annotate mode with the category "car" selected and no
    annotation yet. *)
Definition annotating : Canvas.Props := Canvas.mkProps [] (Some car) Canvas.annotate.

Definition pointer (x y : Q) : Canvas.PointerEvent :=
  Canvas.mkPointerEvent x y 0 0 0.

(** A drag from (10, 10) to (110, 110) on the canvas whose image has not
    arrived yet: the state just before the pointer is released. *)
Definition dragged_before_load : Canvas.t :=
  Eval vm_compute in
  fst (state_of
         (Canvas.handleMouseMove annotating (pointer 110 110)
            (fst (state_of
                    (Canvas.handleMouseDown annotating (pointer 10 10)
                       Canvas.mounted))))).

(** The same drag on the canvas once a 1920 x 1080 image is loaded. *)
Definition loaded : Canvas.t :=
  Canvas.mk (Some (1920, 1080)%Q) 1 0 0 false false false false
    (Canvas.mkPoint 0 0) None None None None.

Definition dragged : Canvas.t :=
  Eval vm_compute in
  fst (state_of
         (Canvas.handleMouseMove annotating (pointer 300 400)
            (fst (state_of
                    (Canvas.handleMouseDown annotating (pointer 100 100) loaded))))).

(** The wheel turned towards the user at screen point (400, 300). *)
Definition zoom_in_at_400_300 : Canvas.PointerEvent :=
  Canvas.mkPointerEvent 400 300 (-1) 0 0.

End Sample.

(** ** More of the store: categories and prefetch progress *)

Module Categories.

Import Store.
Local Open Scope Z_scope.

Definition set_categories (v : list Category) (s : Store.t) : Store.t :=
  mk (currentImage s) (annotations s) v (selectedCategory s) (history s)
     (historyIndex s) (isLoading s) (imageQueue s) (prefetchProgress s)
     (isPrefetching s) (isInitialLoad s) (processedHistory s)
     (historyPosition s) (isInHistory s).
Definition set_selectedCategory (v : option Category) (s : Store.t) : Store.t :=
  mk (currentImage s) (annotations s) (categories s) v (history s)
     (historyIndex s) (isLoading s) (imageQueue s) (prefetchProgress s)
     (isPrefetching s) (isInitialLoad s) (processedHistory s)
     (historyPosition s) (isInHistory s).

(** [loadCategories]; [reply] answers [GET /categories/dataset/{id}]. A
    single category is selected at once. *)
Definition loadCategories (reply : Response (list Category)) (s : Store.t)
  : Outcome Store.t :=
  match reply with
  | Rejected => Throws s
  | Resolved data =>
      let s1 := set_categories data s in
      if len (categories s1) =? 1
      then Returns (set_selectedCategory (head (categories s1)) s1)
      else Returns s1
  end.

(** [selectCategoryByKey]: the first category whose shortcut is [key]. *)
Definition selectCategoryByKey (key : string) (s : Store.t)
  : option Category * Store.t :=
  match List.find (fun c => String.eqb (shortcut_key c) key) (categories s) with
  | Some category => (Some category, set_selectedCategory (Some category) s)
  | None => (None, s)
  end.

(** [Math.round]: the nearest integer, halves upwards. *)
Definition Math_round (q : Q) : Z := Qfloor (q + (1 # 2)).

(** The progress the prefetch loops publish once item [i] (from 0) of
    [total] is fetched: [Math.round(((i + 1) / total) * 100)]. *)
Definition progress_after (i total : Z) : Z :=
  Math_round (inject_Z (i + 1) / inject_Z total * 100).

End Categories.

(** ** More of the canvas: fitting, keys *)

Module CanvasView.

Import Canvas.
Local Open Scope Q_scope.

Definition set_image (v : option (Q * Q)) (c : Canvas.t) : Canvas.t :=
  mk v (scale c) (offsetX c) (offsetY c) (isDrawing c) (isDragging c)
     (isPanning c) (spacePressed c) (startPoint c) (currentBox c)
     (selectedAnnotation c) (dragHandle c) (dragBox c).
Definition set_spacePressed (v : bool) (c : Canvas.t) : Canvas.t :=
  mk (image c) (scale c) (offsetX c) (offsetY c) (isDrawing c) (isDragging c)
     (isPanning c) v (startPoint c) (currentBox c) (selectedAnnotation c)
     (dragHandle c) (dragBox c).

(** [fitToContainer] in a container of [clientWidth] x [clientHeight]: the
    image is scaled to 90% of the tighter side and centred. Nothing happens
    before an image is loaded. *)
Definition fitToContainer (clientWidth clientHeight : Q) (c : Canvas.t) : Canvas.t :=
  match image c with
  | None => c
  | Some (imgW, imgH) =>
      let scaleX := clientWidth / imgW in
      let scaleY := clientHeight / imgH in
      let sc := Math_min scaleX scaleY * (9 # 10) in
      set_view sc ((clientWidth - imgW * sc) / 2) ((clientHeight - imgH * sc) / 2) c
  end.

(** [resetView], run when the image identifier changes. *)
Definition resetView (c : Canvas.t) : Canvas.t :=
  set_selectedAnnotation None (set_view 1 0 0 c).

(** The [onload] callback of [loadImage] for an image of natural size
    [imgW] x [imgH]. *)
Definition imageLoaded (imgW imgH clientWidth clientHeight : Q) (c : Canvas.t)
  : Canvas.t :=
  fitToContainer clientWidth clientHeight (set_image (Some (imgW, imgH)) c).

(** A keyboard event, as both the canvas and the page read it. *)
Record KeyEvent : Type := mkKeyEvent {
  tagName : string;
  key : string;
  code : string;
  ctrlKey : bool;
  metaKey : bool;
  shiftKey : bool
}.

(** [handleKeyDown] of the canvas: the space bar arms panning; Delete or
    Backspace deletes the selected annotation. *)
Definition handleKeyDown (p : Props) (e : KeyEvent) (c : Canvas.t)
  : Outcome (Canvas.t * list Event) :=
  let c1 := if String.eqb (code e) "Space" then set_spacePressed true c else c in
  if String.eqb (key e) "Delete" || String.eqb (key e) "Backspace" then
    match selectedAnnotation c1 with
    | Some sel => draw p (set_selectedAnnotation None c1) [emit_delete (ann_id sel)]
    | None => Returns (c1, [])
    end
  else Returns (c1, []).

Definition handleKeyUp (e : KeyEvent) (c : Canvas.t) : Canvas.t :=
  if String.eqb (code e) "Space" then set_spacePressed false c else c.

(** The annotation a box stands for on an image of size [imgW] x [imgH],
    as [handleMouseUp] computes it for an add and for an update. *)
Definition centerForm (box : Box) (imgW imgH : Q) : Q * Q * Q * Q :=
  ((box_x box + box_w box / 2) / imgW,
   (box_y box + box_h box / 2) / imgH,
   box_w box / imgW,
   box_h box / imgH).

End CanvasView.

(** ** The shortcut store ([useShortcutsStore]) *)

Module Shortcuts.

Import CanvasView.

(** A shortcut. A missing [shift] reads as [false] wherever it is read
    ([!!shortcut.shift]). *)
Record Shortcut : Type := mkShortcut {
  sc_key : string;
  sc_ctrl : bool;
  sc_shift : bool;
  description : string
}.

(** The second argument of [updateShortcut], with the three keys its one
    caller, [handleShortcutKeydown], always passes. *)
Record Config : Type := mkConfig {
  cfg_key : string;
  cfg_ctrl : bool;
  cfg_shift : bool
}.

(** [String.prototype.toLowerCase] on the ASCII letters; other characters
    are left as they are. *)
Definition lower_ascii (a : Ascii.ascii) : Ascii.ascii :=
  let n := Ascii.nat_of_ascii a in
  if (65 <=? n)%nat && (n <=? 90)%nat then Ascii.ascii_of_nat (n + 32) else a.

Fixpoint toLowerCase (s : string) : string :=
  match s with
  | EmptyString => EmptyString
  | String a s' => String (lower_ascii a) (toLowerCase s')
  end.

(** The store: actions to shortcuts. The copy kept in [localStorage] is
    written by every update and only read when the store is created. *)
Abbreviation t := (gmap string Shortcut).

Definition DEFAULT_SHORTCUTS : t :=
  <["save" := mkShortcut "s" true false "save"]>
    (<["skip" := mkShortcut "n" false false "skip"]>
       (<["undo" := mkShortcut "z" true false "undo"]>
          (<["redo" := mkShortcut "z" true true "redo"]>
             (<["help" := mkShortcut "?" false false "help"]> ∅)))).

(** [{ ...shortcuts[action], ...config }]: the keys of [config] override,
    the description is kept (none for an action that had no entry). *)
Definition merge_config (old : option Shortcut) (config : Config) : Shortcut :=
  {| sc_key := cfg_key config;
     sc_ctrl := cfg_ctrl config;
     sc_shift := cfg_shift config;
     description := from_option description ""%string old |}.

Definition updateShortcut (action : string) (config : Config) (m : t) : t :=
  <[action := merge_config (m !! action) config]> m.

Definition resetToDefault (m : t) : t := DEFAULT_SHORTCUTS.

Definition matchShortcut (m : t) (e : KeyEvent) (action : string) : bool :=
  match m !! action with
  | None => false
  | Some shortcut =>
      String.eqb (toLowerCase (key e)) (toLowerCase (sc_key shortcut))
      && Bool.eqb (ctrlKey e || metaKey e) (sc_ctrl shortcut)
      && Bool.eqb (shiftKey e) (sc_shift shortcut)
  end.

End Shortcuts.

(** ** The annotation page (the view that owns the store and the canvas) *)

Module Page.

Import Store Categories CanvasView Shortcuts.

(** The toasts of the page, by kind. *)
Inductive Notice : Type := success | info | warning | error.

(** A reply to a request made through [api], as its response interceptor
    sees it: a failure is told apart by its status being 401 or not (no
    response at all is not a 401). *)
Inductive Reply (A : Type) : Type :=
| Failed (unauthorized : bool)
| Answered (data : A).
Arguments Failed {A} unauthorized.
Arguments Answered {A} data.

(** The promise the caller of [api] awaits. *)
Definition response {A : Type} (r : Reply A) : Response A :=
  match r with
  | Failed _ => Rejected
  | Answered data => Resolved data
  end.

(** What the server answers during one handler: to the POST of a save, to
    [GET /images/{id}], to the batch request of the first load, to
    [GET /images/next/{datasetId}] and to the request for the progress. *)
Record Net : Type := mkNet {
  post : Z -> list Annotation -> bool -> Reply unit;
  server : Z -> Reply Image;
  batch : Reply (list Image);
  direct : Reply (option Image);
  progress : Reply unit
}.

(** The refs of the page with the two stores it uses, the token kept in
    [localStorage] and [window.location.href]. The progress figures are
    left out, the request for them is not. *)
Record t : Type := mk {
  store : Store.t;
  shortcuts : Shortcuts.t;
  canvasMode : Canvas.Mode;
  showHelp : bool;
  showShortcutSettings : bool;
  editingShortcut : option string;
  editingCategoryShortcut : option Z;
  notices : list Notice;
  token : option string;
  href : string
}.

Definition set_store (v : Store.t) (p : t) : t :=
  mk v (shortcuts p) (canvasMode p) (showHelp p) (showShortcutSettings p)
     (editingShortcut p) (editingCategoryShortcut p) (notices p)
     (token p) (href p).
Definition set_shortcuts (v : Shortcuts.t) (p : t) : t :=
  mk (store p) v (canvasMode p) (showHelp p) (showShortcutSettings p)
     (editingShortcut p) (editingCategoryShortcut p) (notices p)
     (token p) (href p).
Definition set_canvasMode (v : Canvas.Mode) (p : t) : t :=
  mk (store p) (shortcuts p) v (showHelp p) (showShortcutSettings p)
     (editingShortcut p) (editingCategoryShortcut p) (notices p)
     (token p) (href p).
Definition set_showHelp (v : bool) (p : t) : t :=
  mk (store p) (shortcuts p) (canvasMode p) v (showShortcutSettings p)
     (editingShortcut p) (editingCategoryShortcut p) (notices p)
     (token p) (href p).
Definition set_showShortcutSettings (v : bool) (p : t) : t :=
  mk (store p) (shortcuts p) (canvasMode p) (showHelp p) v
     (editingShortcut p) (editingCategoryShortcut p) (notices p)
     (token p) (href p).
Definition set_editingShortcut (v : option string) (p : t) : t :=
  mk (store p) (shortcuts p) (canvasMode p) (showHelp p) (showShortcutSettings p)
     v (editingCategoryShortcut p) (notices p) (token p) (href p).
Definition set_token (v : option string) (p : t) : t :=
  mk (store p) (shortcuts p) (canvasMode p) (showHelp p) (showShortcutSettings p)
     (editingShortcut p) (editingCategoryShortcut p) (notices p) v (href p).
Definition set_href (v : string) (p : t) : t :=
  mk (store p) (shortcuts p) (canvasMode p) (showHelp p) (showShortcutSettings p)
     (editingShortcut p) (editingCategoryShortcut p) (notices p) (token p) v.
Definition notify (n : Notice) (p : t) : t :=
  mk (store p) (shortcuts p) (canvasMode p) (showHelp p) (showShortcutSettings p)
     (editingShortcut p) (editingCategoryShortcut p) (notices p ++ [n])
     (token p) (href p).

(** The response interceptor of [api], which runs on every reply before
    the caller is resumed: on a 401 the token is removed and the browser
    sent to the login page, any other failure raises an error toast; the
    failure is passed on to the caller either way. The script goes on
    until the browser has left the page. *)
Definition interceptor {A : Type} (r : Reply A) (p : t) : t :=
  match r with
  | Answered _ => p
  | Failed true => set_href "/login" (set_token None p)
  | Failed false => notify error p
  end.

(** [store.saveAnnotations(skip)] as the page runs it: the POST is sent
    when there is a current image, and its reply passes the interceptor. *)
Definition save (net : Net) (skip : bool) (p : t) : Outcome t :=
  let p1 :=
    match currentImage (store p) with
    | Some image =>
        interceptor
          (post net (img_id image)
             (map annotationData (Store.annotations (store p))) skip) p
    | None => p
    end in
  match saveAnnotations (fun i anns k => response (post net i anns k)) skip (store p) with
  | Returns s => Returns (set_store s p1)
  | Throws s => Throws (set_store s p1)
  end.

(** [store.fetchNextImage(datasetId)] as the page runs it. The batch is
    requested on the first load, the single image when the queue is empty;
    the reply to a background prefetch started here comes after the
    handler. *)
Definition fetchNext (net : Net) (p : t) : Outcome t :=
  let s := store p in
  let p1 :=
    if (len (imageQueue s) =? 0)%Z && negb (bool_decide (is_Some (currentImage s)))
    then interceptor (batch net) p
    else if (len (imageQueue s) =? 0)%Z then interceptor (direct net) p
    else p in
  match fetchNextImage (response (batch net)) (response (direct net)) s with
  | Returns s' => Returns (set_store s' p1)
  | Throws s' => Throws (set_store s' p1)
  end.

(** [store.goToPreviousImage()] and [store.goToNextImage()] as the page
    runs them. They throw only when their request fails, and the request is
    for the entry the cursor has been moved to. *)
Definition navigate (net : Net)
    (go : (Z -> Response Image) -> Store.t -> Outcome Store.t) (p : t) : Outcome t :=
  match go (fun i => response (server net i)) (store p) with
  | Returns s => Returns (set_store s p)
  | Throws s =>
      match at_index (processedHistory s) (historyPosition s) with
      | Some target => Throws (interceptor (server net (img_id target)) (set_store s p))
      | None => Throws (set_store s p)
      end
  end.

(** [loadProgress]: a failure is caught, after the interceptor has seen
    it. *)
Definition loadProgress (net : Net) (p : t) : t := interceptor (progress net) p.

Definition handleSave (net : Net) (p : t) : t :=
  match save net false p with
  | Throws p1 => notify error p1
  | Returns p1 =>
      let p2 := notify success p1 in
      if negb (isInHistory (store p2)) then
        match fetchNext net p2 with
        | Throws p3 => notify error p3
        | Returns p3 => loadProgress net (set_canvasMode Canvas.pan p3)
        end
      else loadProgress net p2
  end.

Definition handleSkip (net : Net) (p : t) : t :=
  match save net true p with
  | Throws p1 => notify error p1
  | Returns p1 =>
      match fetchNext net (notify info p1) with
      | Throws p2 => notify error p2
      | Returns p2 => set_canvasMode Canvas.pan (loadProgress net p2)
      end
  end.

Definition handlePrevious (net : Net) (p : t) : t :=
  let saved :=
    if isInHistory (store p)
    then match save net false p with
         | Returns p1 => Returns (notify success p1)
         | Throws p1 => Throws p1
         end
    else Returns p in
  match saved with
  | Throws p1 => notify error p1
  | Returns p1 =>
      match navigate net goToPreviousImage p1 with
      | Returns p2 => p2
      | Throws p2 => notify error p2
      end
  end.

Definition handleSaveAndNext (net : Net) (p : t) : t :=
  match save net false p with
  | Throws p1 => notify error p1
  | Returns p1 =>
      let p2 := notify success p1 in
      match fetchNext net (set_store (exitHistoryMode (store p2)) p2) with
      | Throws p3 => notify error p3
      | Returns p3 => set_canvasMode Canvas.pan (loadProgress net p3)
      end
  end.

Definition handleNext (net : Net) (p : t) : t :=
  if isInHistory (store p) then
    match save net false p with
    | Throws p1 => notify error p1
    | Returns p1 =>
        match navigate net goToNextImage (notify success p1) with
        | Returns p2 => p2
        | Throws p2 => notify error p2
        end
    end
  else handleSaveAndNext net p.

(** [editingCategoryShortcut.value], a category identifier, as a condition. *)
Definition truthy (o : option Z) : bool :=
  match o with Some i => negb (i =? 0)%Z | None => false end.

(** [handleKeydown] of the page. *)
Definition handleKeydown (net : Net) (e : KeyEvent) (p : t) : t :=
  if String.eqb (tagName e) "INPUT" || String.eqb (tagName e) "TEXTAREA" then p
  else if truthy (editingCategoryShortcut p) then p
  else if matchShortcut (shortcuts p) e "save" then handleSave net p
  else if matchShortcut (shortcuts p) e "skip" then handleSkip net p
  else if matchShortcut (shortcuts p) e "undo"
       then set_store (state_of (undo (store p))) p
  else if matchShortcut (shortcuts p) e "redo"
       then set_store (state_of (redo (store p))) p
  else if matchShortcut (shortcuts p) e "help"
       then set_showHelp (negb (showHelp p)) p
  else
    let k := toLowerCase (key e) in
    if String.eqb k "escape" then set_showShortcutSettings false (set_showHelp false p)
    else if String.eqb k "v" then set_canvasMode Canvas.annotate p
    else if String.eqb k "h" then set_canvasMode Canvas.pan p
    else
      match selectCategoryByKey k (store p) with
      | (Some _, s) => set_canvasMode Canvas.annotate (set_store s p)
      | (None, s) => set_store s p
      end.

(** [handleShortcutKeydown]: the key pressed becomes the shortcut of the
    action being edited. *)
Definition handleShortcutKeydown (e : KeyEvent) (p : t) : t :=
  match editingShortcut p with
  | None => p
  | Some action =>
      if String.eqb (key e) "Escape" then set_editingShortcut None p
      else
        let k := if (String.length (key e) =? 1)%nat
                 then toLowerCase (key e) else key e in
        let config := mkConfig k (ctrlKey e || metaKey e) (shiftKey e) in
        notify success
          (set_editingShortcut None
             (set_shortcuts (updateShortcut action config (shortcuts p)) p))
  end.

(** The canvas events as the page wires them to the store. *)
Definition deliver (now : Z) (ev : Canvas.Event) (s : Store.t) : Store.t :=
  match ev with
  | Canvas.emit_add annotation => snd (addAnnotation now annotation s)
  | Canvas.emit_update i updates => updateAnnotation i updates s
  | Canvas.emit_delete i => removeAnnotation i s
  | Canvas.emit_zoom_change _ => s
  end.

End Page.

(** ** Vocabulary for the laws of the whole front end *)

Module Laws.

Import Store Spec.
Local Open Scope Z_scope.

(** Every handler of the store, with the replies it awaits. *)
Inductive Step : Type :=
| step_operation (o : Operation)
| step_save (post : Z -> list Annotation -> bool -> Response unit) (skip : bool)
| step_exitHistoryMode
| step_reset
| step_loadCategories (reply : Response (list Category))
| step_selectCategoryByKey (key : string)
| step_prefetch_arrived (batch : Response (list Image))
| step_prefetch_loaded (i total : Z)
| step_prefetch_push (newImages : list Image).

Definition step (st : Step) (s : Store.t) : Store.t :=
  match st with
  | step_operation o => state_of (perform o s)
  | step_save post skip => state_of (saveAnnotations post skip s)
  | step_exitHistoryMode => exitHistoryMode s
  | step_reset => reset s
  | step_loadCategories reply => state_of (Categories.loadCategories reply s)
  | step_selectCategoryByKey key => snd (Categories.selectCategoryByKey key s)
  | step_prefetch_arrived batch => backgroundPrefetch_arrived batch s
  | step_prefetch_loaded i total =>
      set_prefetchProgress (Categories.progress_after i total) s
  | step_prefetch_push newImages => backgroundPrefetch_push newImages s
  end.

(** A session: the handlers run one after the other, an exception ending
    only the handler that threw. *)
Definition run (sts : list Step) (s : Store.t) : Store.t :=
  foldl (fun acc st => step st acc) s sts.

(** The loop of [backgroundPrefetch] over [newImages]: while the file of
    the image at index [i] is awaited the handlers [meanwhile i] run, then
    the progress is published. *)
Definition backgroundPrefetch_awaited (newImages : list Image)
    (meanwhile : nat -> list Step) (s : Store.t) : Store.t :=
  foldl (fun acc i =>
           step (step_prefetch_loaded (Z.of_nat i) (len newImages))
                (run (meanwhile i) acc))
        s (seq 0 (length newImages)).

(** [backgroundPrefetch] from the arrival of its batch to its end, with the
    handlers that run while it awaits. *)
Definition backgroundPrefetch (batch : Response (list Image))
    (meanwhile : nat -> list Step) (s : Store.t) : Store.t :=
  let newImages := backgroundPrefetch_filter batch s in
  if 0 <? len newImages
  then backgroundPrefetch_push newImages
         (backgroundPrefetch_awaited newImages meanwhile s)
  else backgroundPrefetch_arrived batch s.

(** What a handler can do to the history: leave it, empty it, or push a
    snapshot on it or on an emptied one. *)
Definition history_shape (s s' : Store.t) : Prop :=
  history s' = history s
  \/ history s' = []
  \/ exists s0, (history s0 = history s \/ history s0 = [])
                /\ history s' = history (saveHistory s0).

(** Outside browsing mode the cursor is on the head of the processed
    stack. *)
Definition cursor_at_head (s : Store.t) : Prop :=
  isInHistory s = false -> historyPosition s = len (processedHistory s) - 1.

(** The refs of the navigation. *)
Definition navigation (s : Store.t) : list Image * Z * bool :=
  (processedHistory s, historyPosition s, isInHistory s).

(** Two boxes with equal numbers (the fields are rationals). *)
Definition box_equiv (a b : Canvas.Box) : Prop :=
  (Canvas.box_x a == Canvas.box_x b /\ Canvas.box_y a == Canvas.box_y b
   /\ Canvas.box_w a == Canvas.box_w b /\ Canvas.box_h a == Canvas.box_h b)%Q.

(** The image point lies in the pixel box of the annotation, borders
    included: the test of [getAnnotationAt]. *)
Definition covers (imgW imgH : Q) (pt : Canvas.Point) (ann : Annotation) : bool :=
  let b := Canvas.pixelBox ann imgW imgH in
  Qle_bool (Canvas.box_x b) (Canvas.px pt)
  && Qle_bool (Canvas.px pt) (Canvas.box_x b + Canvas.box_w b)
  && Qle_bool (Canvas.box_y b) (Canvas.py pt)
  && Qle_bool (Canvas.py pt) (Canvas.box_y b + Canvas.box_h b).

(** Several wheel events in a row. *)
Definition wheel_all (p : Canvas.Props) (es : list Canvas.PointerEvent)
    (c : Canvas.t) : Canvas.t :=
  foldl (fun acc e => fst (state_of (Canvas.handleWheel p e acc))) c es.

(** The size check of a resize on one axis. *)
Definition min_extent (x1 x2 : Q) : Q :=
  if Canvas.Qltb (x2 - x1) 10 then (x1 + 10)%Q else x2.

(** A view of the store that loading, advancing and snapshotting never
    write: it ignores the current image, the live array, the undo history,
    the queue and the loading and prefetch flags. *)
Definition ignores_loading {A : Type} (f : Store.t -> A) : Prop :=
  forall s,
    (forall v, f (set_currentImage v s) = f s)
    /\ (forall v, f (set_annotations v s) = f s)
    /\ (forall v, f (set_history v s) = f s)
    /\ (forall v, f (set_historyIndex v s) = f s)
    /\ (forall v, f (set_isLoading v s) = f s)
    /\ (forall v, f (set_imageQueue v s) = f s)
    /\ (forall v, f (set_prefetchProgress v s) = f s)
    /\ (forall v, f (set_isPrefetching v s) = f s)
    /\ (forall v, f (set_isInitialLoad v s) = f s).

(** The five actions the page dispatches by shortcut. *)
Definition actions : list string :=
  ["save"; "skip"; "undo"; "redo"; "help"]%string.

End Laws.

(** ** More sample data *)

Module Sample2.

Import Store Spec Sample Laws.
Local Open Scope Z_scope.

(** Forty-nine adds on the reloaded image: the history is full. *)
Definition many_adds (n : nat) : list Mutation :=
  map (fun k => Add (2000 + Z.of_nat k) drawn1) (seq 0 n).

Definition full_history : Store.t :=
  Eval vm_compute in mutate_all (many_adds 49) reloaded.

(** A server that is down. *)
Definition server_down (i : Z) : Response Image := Rejected.

(** The canvas with image 1 labelled with [box7], which is selected; its
    pixel box on the 1920 x 1080 image is (720, 405, 480, 270). *)
Definition labelled : Canvas.Props := Canvas.mkProps [box7] (Some car) Canvas.annotate.

Definition selected7 : Canvas.t :=
  Canvas.mk (Some (1920, 1080)%Q) 1 0 0 false false false false
    (Canvas.mkPoint 0 0) None (Some box7) None None.

(** The bottom-right handle pressed at (1200, 675) and dragged to
    (1300, 700). *)
Definition resizing : Canvas.t :=
  Eval vm_compute in
  fst (state_of
         (Canvas.handleMouseMove labelled (pointer 1300 700)
            (fst (state_of
                    (Canvas.handleMouseDown labelled (pointer 1200 675) selected7))))).

(** A pan drag started at screen point (50, 60). *)
Definition panning : Canvas.t :=
  Eval vm_compute in
  fst (state_of
         (Canvas.handleMouseDown
            (Canvas.mkProps [box7] (Some car) Canvas.pan) (pointer 50 60) loaded)).

Definition delete_key : CanvasView.KeyEvent :=
  CanvasView.mkKeyEvent "BODY" "Delete" "Delete" false false false.

Definition bike : Category := mkCategory 2 "bike" "b".

(** Two images the server has not handed out yet. *)
Definition image4 : Image := mkImage 4 "d.jpg" None.
Definition image5 : Image := mkImage 5 "e.jpg" None.

(** The store on image 2 with image 3 queued, after an advance that has
    started a background prefetch. *)
Definition prefetching : Store.t :=
  Eval vm_compute in
  state_of (fetchNextImage Rejected Rejected
              (state_of (fetchNextImage (Resolved [image1; image2; image3])
                           Rejected initial))).

(** The page on image 1 with two categories, none selected, the default
    shortcuts, in pan mode. *)
Definition page0 : Page.t :=
  Page.mk (Categories.set_categories [car; bike] first_load)
          Shortcuts.DEFAULT_SHORTCUTS Canvas.pan false false None None []
          (Some "secret"%string) "/annotate/1".

(** The same page while the shortcut of "undo" is being edited. *)
Definition editing_undo : Page.t := Page.set_editingShortcut (Some "undo"%string) page0.

(** The page while image 2 is browsed. *)
Definition page_browsing : Page.t :=
  Page.mk browsing_image2 Shortcuts.DEFAULT_SHORTCUTS Canvas.annotate
          false false None None [] (Some "secret"%string) "/annotate/1".

Definition key_press (k : string) (ctrl shift : bool) : CanvasView.KeyEvent :=
  CanvasView.mkKeyEvent "BODY" k "" ctrl false shift.

(** The replies of [Sample.server]. *)
Definition stored (i : Z) : Page.Reply Image :=
  Page.Answered (mkImage i "stored.jpg" (Some [box7])).

(** A network where only saving fails, with a status other than 401; one
    where the session has expired; one where everything works and the
    server has no further image. *)
Definition net_save_fails : Page.Net :=
  Page.mkNet (fun _ _ _ => Page.Failed false) stored
             (Page.Answered []) (Page.Answered None) (Page.Answered tt).
Definition net_expired : Page.Net :=
  Page.mkNet (fun _ _ _ => Page.Failed true) (fun _ => Page.Failed true)
             (Page.Failed true) (Page.Failed true) (Page.Failed true).
Definition net_ok : Page.Net :=
  Page.mkNet (fun _ _ _ => Page.Answered tt) stored
             (Page.Answered []) (Page.Answered None) (Page.Answered tt).

End Sample2.

(** ** Arrays and deep copies *)

Section ArrayFacts.

Local Open Scope Z_scope.
Context {A : Type}.
Implicit Types (l : list A) (i : Z).

Lemma len_nonneg l : 0 <= len l.
Proof. unfold len. lia. Qed.

Lemma len_app l1 l2 : len (l1 ++ l2) = len l1 + len l2.
Proof. unfold len. rewrite length_app. lia. Qed.

Lemma len_nil_iff l : len l = 0 <-> l = [].
Proof.
  unfold len. destruct l as [|a l]; simpl; split; intros H; try done; lia.
Qed.

Lemma at_index_Some l i x :
  at_index l i = Some x -> 0 <= i < len l.
Proof.
  unfold at_index, len. destruct (Z.ltb_spec i 0) as [|Hi]; [done|].
  intros Hx. apply lookup_lt_Some in Hx. lia.
Qed.

Lemma at_index_in_range l i :
  0 <= i < len l -> exists x, at_index l i = Some x.
Proof.
  unfold at_index, len. intros Hi.
  destruct (Z.ltb_spec i 0) as [|_]; [lia|].
  destruct (lookup_lt_is_Some_2 l (Z.to_nat i)) as [x Hx]; [lia|]. eauto.
Qed.

Lemma at_index_last l x : at_index (l ++ [x]) (len (l ++ [x]) - 1) = Some x.
Proof.
  unfold at_index. rewrite len_app. unfold len. simpl length.
  destruct (Z.ltb_spec (Z.of_nat (length l) + Z.of_nat 1 - 1) 0) as [|_]; [lia|].
  replace (Z.to_nat (Z.of_nat (length l) + Z.of_nat 1 - 1)) with (length l) by lia.
  apply list_lookup_middle. done.
Qed.

Lemma at_index_drop1 l i :
  0 <= i -> at_index (drop 1 l) i = at_index l (i + 1).
Proof.
  unfold at_index. intros Hi.
  destruct (Z.ltb_spec i 0); [lia|]. destruct (Z.ltb_spec (i + 1) 0); [lia|].
  rewrite lookup_drop. f_equal. lia.
Qed.

Lemma len_drop1 l : len (drop 1 l) = Z.max 0 (len l - 1).
Proof. unfold len. rewrite length_drop. lia. Qed.

Lemma slice0_in_range l e : 0 <= e <= len l -> len (slice0 l e) = e.
Proof.
  unfold slice0, len. intros He. destruct (Z.ltb_spec e 0); [lia|].
  rewrite length_take. lia.
Qed.

Lemma slice0_take l e : 0 <= e -> slice0 l e = take (Z.to_nat e) l.
Proof. unfold slice0. intros He. destruct (Z.ltb_spec e 0); [lia|done]. Qed.

Lemma findIndex_range (p : A -> bool) l :
  findIndex p l = -1 \/ 0 <= findIndex p l < len l.
Proof.
  induction l as [|a l IH]; simpl; [by left|].
  destruct (p a).
  - right. unfold len. simpl. lia.
  - destruct (Z.eqb_spec (findIndex p l) (-1)) as [|Hne]; [by left|].
    right. unfold len in *. simpl. lia.
Qed.

Lemma findIndex_none (p : A -> bool) l :
  (forall a, a ∈ l -> p a = false) -> findIndex p l = -1.
Proof.
  induction l as [|a l IH]; simpl; intros Hall; [done|].
  rewrite (Hall a) by apply list_elem_of_here.
  rewrite IH; [done|]. intros b Hb. apply Hall. by apply list_elem_of_further.
Qed.

Lemma findIndex_found (p : A -> bool) l :
  findIndex p l <> -1 -> exists a, a ∈ l /\ p a = true.
Proof.
  induction l as [|a l IH]; simpl; [done|].
  destruct (p a) eqn:Hp.
  - intros _. exists a. split; [apply list_elem_of_here|done].
  - destruct (Z.eqb_spec (findIndex p l) (-1)) as [|Hne]; [done|].
    intros _. destruct (IH Hne) as (b & Hb & Hpb).
    exists b. split; [by apply list_elem_of_further|done].
Qed.

End ArrayFacts.

Lemma JSON_clone_annotation_id (a : Annotation) : JSON_clone_annotation a = a.
Proof. by destruct a. Qed.

Lemma JSON_clone_id (l : list Annotation) : JSON_clone l = l.
Proof.
  unfold JSON_clone. induction l as [|a l IH]; simpl; [done|].
  by rewrite JSON_clone_annotation_id, IH.
Qed.

(** Unfolds the assignments to single refs. *)
Ltac store_unfold :=
  unfold Store.set_currentImage, Store.set_annotations, Store.set_history,
    Store.set_historyIndex, Store.set_isLoading, Store.set_imageQueue,
    Store.set_prefetchProgress, Store.set_isPrefetching,
    Store.set_isInitialLoad, Store.set_processedHistory,
    Store.set_historyPosition, Store.set_isInHistory in *; simpl in *.

(** Reduces projections of assignments, and nothing else. *)
Ltac store_cbn :=
  cbn [Store.currentImage Store.annotations Store.categories
       Store.selectedCategory Store.history Store.historyIndex Store.isLoading
       Store.imageQueue Store.prefetchProgress Store.isPrefetching
       Store.isInitialLoad Store.processedHistory Store.historyPosition
       Store.isInHistory
       Store.set_currentImage Store.set_annotations Store.set_history
       Store.set_historyIndex Store.set_isLoading Store.set_imageQueue
       Store.set_prefetchProgress Store.set_isPrefetching
       Store.set_isInitialLoad Store.set_processedHistory
       Store.set_historyPosition Store.set_isInHistory] in *.

(** ** The undo history *)

Section HistoryFacts.

Import Store Spec.
Local Open Scope Z_scope.
Implicit Types (s : Store.t).

Lemma saveHistory_eq s :
  saveHistory s =
  let h := bounded (kept s ++ [annotations s]) in
  set_historyIndex (len h - 1) (set_history h s).
Proof.
  destruct s as [cur anns cats sel h i ld q pp pf il ph hp ih].
  unfold saveHistory, kept, bounded. simpl.
  rewrite JSON_clone_id.
  destruct (i <? len h - 1); simpl;
    match goal with |- context [50 <? len ?l] =>
      destruct (Z.ltb_spec 50 (len l)) as [Hlt|Hge] end;
    store_unfold; try reflexivity;
    f_equal; rewrite len_drop1; lia.
Qed.

Lemma bounded_nonempty (h : list (list Annotation)) x :
  1 <= len (bounded (h ++ [x])).
Proof.
  unfold bounded.
  destruct (Z.ltb_spec 50 (len (h ++ [x]))) as [Hlt|Hge].
  - rewrite len_drop1. lia.
  - rewrite len_app. pose proof (len_nonneg h). unfold len at 2. simpl. lia.
Qed.

Lemma bounded_last (h : list (list Annotation)) x :
  at_index (bounded (h ++ [x])) (len (bounded (h ++ [x])) - 1) = Some x.
Proof.
  unfold bounded.
  destruct (Z.ltb_spec 50 (len (h ++ [x]))) as [Hlt|Hge].
  - rewrite at_index_drop1 by (rewrite len_drop1; lia).
    rewrite len_drop1.
    replace (Z.max 0 (len (h ++ [x]) - 1) - 1 + 1) with (len (h ++ [x]) - 1) by lia.
    apply at_index_last.
  - apply at_index_last.
Qed.

Lemma saveHistory_annotations s : annotations (saveHistory s) = annotations s.
Proof. rewrite saveHistory_eq. by destruct s. Qed.

Lemma saveHistory_history s :
  history (saveHistory s) = bounded (kept s ++ [annotations s]).
Proof. rewrite saveHistory_eq. by destruct s. Qed.

Lemma saveHistory_at_tail s :
  historyIndex (saveHistory s) = len (history (saveHistory s)) - 1.
Proof. rewrite saveHistory_eq. by destruct s. Qed.

Lemma saveHistory_consistent s : consistent (saveHistory s).
Proof.
  unfold consistent.
  rewrite saveHistory_at_tail, saveHistory_history, saveHistory_annotations.
  apply bounded_last.
Qed.

Lemma saveHistory_canRedo s : canRedo (saveHistory s) = false.
Proof. unfold canRedo. rewrite saveHistory_at_tail. apply Z.ltb_irrefl. Qed.

Lemma consistent_in_range s :
  consistent s -> 0 <= historyIndex s < len (history s).
Proof. apply at_index_Some. Qed.

Lemma consistent_invariant s : consistent s -> history_invariant s.
Proof. intros Hc _. split; [by apply consistent_in_range|done]. Qed.

(** *** Moving along the history *)

Lemma jump_here s : consistent s -> jump (historyIndex s) s = s.
Proof. unfold consistent, jump. intros ->. by destruct s. Qed.

Lemma jump_history j s : history (jump j s) = history s.
Proof. unfold jump. destruct (at_index (history s) j); by destruct s. Qed.

Lemma jump_index j s :
  0 <= j < len (history s) -> historyIndex (jump j s) = j.
Proof.
  intros Hj. unfold jump.
  destruct (at_index_in_range (history s) j Hj) as [x ->]. by destruct s.
Qed.

Lemma jump_consistent j s :
  0 <= j < len (history s) -> consistent (jump j s).
Proof.
  intros Hj. unfold jump, consistent.
  destruct (at_index_in_range (history s) j Hj) as [x Hx]. rewrite Hx.
  by destruct s.
Qed.

Lemma jump_jump j k s :
  0 <= j < len (history s) -> 0 <= k < len (history s) ->
  jump j (jump k s) = jump j s.
Proof.
  intros Hj Hk. unfold jump at 2.
  destruct (at_index_in_range (history s) k Hk) as [x ->].
  destruct (at_index_in_range (history s) j Hj) as [y Hy].
  unfold jump. destruct s; store_unfold. by rewrite Hy.
Qed.

Lemma undo_jump s :
  consistent s -> undo s = Returns (jump (Z.max 0 (historyIndex s - 1)) s).
Proof.
  intros Hc. pose proof (consistent_in_range s Hc) as Hr.
  unfold undo, canUndo.
  destruct (Z.ltb_spec 0 (historyIndex s)) as [Hpos|Hzero].
  - rewrite Z.max_r by lia. unfold restore_snapshot, jump.
    destruct (at_index_in_range (history s) (historyIndex s - 1)) as [x Hx]; [lia|].
    destruct s; store_unfold. rewrite Hx, JSON_clone_id. reflexivity.
  - replace (Z.max 0 (historyIndex s - 1)) with (historyIndex s) by lia.
    by rewrite jump_here.
Qed.

Lemma redo_jump s :
  consistent s ->
  redo s = Returns (jump (Z.min (len (history s) - 1) (historyIndex s + 1)) s).
Proof.
  intros Hc. pose proof (consistent_in_range s Hc) as Hr.
  unfold redo, canRedo.
  destruct (Z.ltb_spec (historyIndex s) (len (history s) - 1)) as [Hlt|Hge].
  - rewrite Z.min_r by lia. unfold restore_snapshot, jump.
    destruct (at_index_in_range (history s) (historyIndex s + 1)) as [x Hx]; [lia|].
    destruct s; store_unfold. rewrite Hx, JSON_clone_id. reflexivity.
  - replace (Z.min (len (history s) - 1) (historyIndex s + 1))
      with (historyIndex s) by lia.
    by rewrite jump_here.
Qed.

Lemma iter_undo_jump (n : nat) s :
  consistent s ->
  iter n undo s = Returns (jump (Z.max 0 (historyIndex s - Z.of_nat n)) s).
Proof.
  revert s. induction n as [|n IH]; intros s Hc;
    pose proof (consistent_in_range s Hc) as Hr.
  - simpl. replace (Z.max 0 (historyIndex s - Z.of_nat 0)) with (historyIndex s) by lia.
    by rewrite jump_here.
  - simpl. rewrite undo_jump by done. simpl.
    set (k := Z.max 0 (historyIndex s - 1)).
    assert (0 <= k < len (history s)) as Hk by (unfold k; lia).
    rewrite IH by (by apply jump_consistent).
    rewrite jump_index by done.
    rewrite jump_jump by (unfold k; lia).
    do 2 f_equal. unfold k. lia.
Qed.

Lemma iter_redo_jump (n : nat) s :
  consistent s ->
  iter n redo s =
  Returns (jump (Z.min (len (history s) - 1) (historyIndex s + Z.of_nat n)) s).
Proof.
  revert s. induction n as [|n IH]; intros s Hc;
    pose proof (consistent_in_range s Hc) as Hr.
  - simpl. replace (Z.min (len (history s) - 1) (historyIndex s + Z.of_nat 0))
      with (historyIndex s) by lia.
    by rewrite jump_here.
  - simpl. rewrite redo_jump by done. simpl.
    set (k := Z.min (len (history s) - 1) (historyIndex s + 1)).
    assert (0 <= k < len (history s)) as Hk by (unfold k; lia).
    rewrite IH by (by apply jump_consistent).
    rewrite jump_index, jump_history by done.
    rewrite jump_jump by (unfold k; lia).
    do 2 f_equal. unfold k. lia.
Qed.

End HistoryFacts.

(** ** Mutations *)

Section MutationFacts.

Import Store Spec.
Local Open Scope Z_scope.
Implicit Types (s : Store.t) (m : Mutation).

Lemma same_id_true (i j : option Z) : same_id i j = true <-> i = j.
Proof.
  destruct i as [x|], j as [y|]; simpl; split; try done.
  - intros H. apply Z.eqb_eq in H. by subst.
  - intros [= ->]. apply Z.eqb_refl.
Qed.

Lemma same_id_false (i j : option Z) : same_id i j = false <-> i <> j.
Proof.
  rewrite <- same_id_true. destruct (same_id i j); split; try done.
Qed.

Lemma findIndex_hit {A : Type} (p : A -> bool) (l : list A) (a : A) :
  a ∈ l -> p a = true -> findIndex p l <> -1.
Proof.
  intros Ha Hp Hnone.
  induction l as [|b l IH]; [by apply not_elem_of_nil in Ha|].
  simpl in Hnone. destruct (p b) eqn:Hb; [done|].
  destruct (Z.eqb_spec (findIndex p l) (-1)) as [Heq|Hne].
  - apply elem_of_cons in Ha as [->|Ha]; [congruence|]. by apply IH.
  - destruct (findIndex_range p l); lia.
Qed.

(** A mutation either leaves the store alone or replaces the live array
    and snapshots it. *)
Lemma mutate_cases m s :
  mutate m s = s
  \/ exists anns, mutate m s = saveHistory (set_annotations anns s).
Proof.
  destruct m as [now a|i u|i]; simpl.
  - right. eauto.
  - unfold updateAnnotation.
    destruct (_ =? -1); [by left|].
    destruct (at_index _ _); [right; eauto|by left].
  - unfold removeAnnotation.
    destruct (_ =? -1); [by left|right; eauto].
Qed.

Lemma mutate_applies m s :
  applies m s ->
  exists anns, mutate m s = saveHistory (set_annotations anns s).
Proof.
  destruct m as [now a|i u|i]; simpl.
  - eauto.
  - intros (a & Ha & Hid). unfold updateAnnotation.
    set (p := fun a : Annotation => same_id (ann_id a) i).
    assert (findIndex p (annotations s) <> -1) as Hne.
    { apply (findIndex_hit p _ a Ha). by apply same_id_true. }
    destruct (Z.eqb_spec (findIndex p (annotations s)) (-1)) as [|_]; [done|].
    destruct (findIndex_range p (annotations s)) as [|Hr]; [done|].
    destruct (at_index_in_range _ _ Hr) as [b ->]. eauto.
  - intros (a & Ha & Hid). unfold removeAnnotation.
    set (p := fun a : Annotation => same_id (ann_id a) i).
    assert (findIndex p (annotations s) <> -1) as Hne.
    { apply (findIndex_hit p _ a Ha). by apply same_id_true. }
    destruct (Z.eqb_spec (findIndex p (annotations s)) (-1)) as [|_]; [done|].
    eauto.
Qed.

Lemma mutate_keeps_tail m s :
  consistent s /\ historyIndex s = len (history s) - 1 ->
  consistent (mutate m s)
  /\ historyIndex (mutate m s) = len (history (mutate m s)) - 1.
Proof.
  intros Hs. destruct (mutate_cases m s) as [->|[anns ->]]; [done|].
  split; [apply saveHistory_consistent|apply saveHistory_at_tail].
Qed.

Lemma mutate_all_keeps_tail (ms : list Mutation) s :
  consistent s /\ historyIndex s = len (history s) - 1 ->
  consistent (mutate_all ms s)
  /\ historyIndex (mutate_all ms s) = len (history (mutate_all ms s)) - 1.
Proof.
  unfold mutate_all. revert s.
  induction ms as [|m ms IH]; intros s Hs; simpl; [done|].
  apply IH. by apply mutate_keeps_tail.
Qed.

Lemma freshly_loaded_tail s :
  freshly_loaded s ->
  consistent s /\ historyIndex s = len (history s) - 1.
Proof.
  unfold freshly_loaded, consistent. intros [Hh Hi]. by rewrite Hh, Hi.
Qed.

Lemma undo_at_start s : historyIndex s <= 0 -> undo s = Returns s.
Proof.
  intros Hi. unfold undo, canUndo.
  by destruct (Z.ltb_spec 0 (historyIndex s)); [lia|].
Qed.

Lemma redo_at_tail s :
  len (history s) - 1 <= historyIndex s -> redo s = Returns s.
Proof.
  intros Hi. unfold redo, canRedo.
  by destruct (Z.ltb_spec (historyIndex s) (len (history s) - 1)); [lia|].
Qed.

End MutationFacts.


(** ** Loading and advancing *)

Section AdvanceFacts.

Import Store Spec Sample.
Local Open Scope Z_scope.
Implicit Types (s : Store.t).

Lemma editing_fields s s' :
  editing s' = editing s ->
  currentImage s' = currentImage s /\ annotations s' = annotations s
  /\ history s' = history s /\ historyIndex s' = historyIndex s.
Proof. unfold editing. intros [= -> -> -> ->]. done. Qed.

Lemma editing_set_isLoading v s : editing (set_isLoading v s) = editing s.
Proof. by destruct s. Qed.

Lemma editing_set_imageQueue v s : editing (set_imageQueue v s) = editing s.
Proof. by destruct s. Qed.

Lemma editing_set_prefetchProgress v s : editing (set_prefetchProgress v s) = editing s.
Proof. by destruct s. Qed.

Lemma editing_set_isPrefetching v s : editing (set_isPrefetching v s) = editing s.
Proof. by destruct s. Qed.

Lemma editing_set_isInitialLoad v s : editing (set_isInitialLoad v s) = editing s.
Proof. by destruct s. Qed.

Lemma editing_set_processedHistory v s : editing (set_processedHistory v s) = editing s.
Proof. by destruct s. Qed.

Lemma editing_set_historyPosition v s : editing (set_historyPosition v s) = editing s.
Proof. by destruct s. Qed.

Lemma editing_set_isInHistory v s : editing (set_isInHistory v s) = editing s.
Proof. by destruct s. Qed.

Lemma editing_backgroundPrefetch_begin s :
  editing (backgroundPrefetch_begin s) = editing s.
Proof.
  unfold backgroundPrefetch_begin.
  destruct (isPrefetching s); [done|].
  destruct (PREFETCH_THRESHOLD <=? len (imageQueue s)); [done|]. by destruct s.
Qed.

(** What [fetchNextImage] does when the queue holds an image. *)
Lemma fetchNextImage_from_queue batch direct s nextImage rest :
  imageQueue s = nextImage :: rest ->
  exists s',
    fetchNextImage batch direct s = Returns s'
    /\ currentImage s' = Some nextImage
    /\ annotations s' = or_empty (img_annotations nextImage)
    /\ history s' = bounded (kept s ++ [or_empty (img_annotations nextImage)])
    /\ historyIndex s' = len (history s') - 1.
Proof.
  intros Hq. unfold fetchNextImage, getNextFromQueue.
  assert (imageQueue (set_isLoading true s) = nextImage :: rest) as ->
      by (by destruct s).
  replace (len (nextImage :: rest) =? 0) with false
    by (symmetry; apply Z.eqb_neq; unfold len; cbn [length]; lia).
  cbn [andb].
  set (s3 := set_annotations _ _).
  assert (kept s3 = kept s) as Hk by (by destruct s).
  assert (annotations s3 = or_empty (img_annotations nextImage)) as Ha
      by (by destruct s).
  assert (currentImage (saveHistory s3) = Some nextImage) as Hc.
  { rewrite saveHistory_eq. by destruct s. }
  set (s2 := if len (imageQueue (saveHistory s3)) <? PREFETCH_THRESHOLD
             then backgroundPrefetch_begin (saveHistory s3) else saveHistory s3).
  assert (editing (set_isLoading false s2) = editing (saveHistory s3)) as He.
  { rewrite editing_set_isLoading. unfold s2.
    destruct (_ <? _); [apply editing_backgroundPrefetch_begin|done]. }
  apply editing_fields in He as (Hc' & Ha' & Hh' & Hi').
  exists (set_isLoading false s2). split; [reflexivity|].
  rewrite Hc', Ha', Hh', Hi', Hc.
  rewrite saveHistory_annotations, saveHistory_history, Ha, Hk.
  split_and!; try done.
  rewrite saveHistory_at_tail, saveHistory_history, Ha, Hk. done.
Qed.

(** An advance out of the queue keeps the snapshots of the image it leaves:
    the history is longer than one entry and undo is on offer. *)
Lemma advance_keeps_history batch direct s nextImage rest :
  consistent s ->
  imageQueue s = nextImage :: rest ->
  exists s',
    fetchNextImage batch direct s = Returns s'
    /\ 2 <= len (history s')
    /\ canUndo s' = true.
Proof.
  intros Hc Hq.
  destruct (fetchNextImage_from_queue batch direct s _ _ Hq)
    as (s' & Hs' & _ & _ & Hh & Hi).
  exists s'. split; [done|].
  pose proof (consistent_in_range s Hc) as Hr.
  assert (2 <= len (history s')) as Hlen.
  { rewrite Hh. unfold bounded, kept.
    set (x := or_empty (img_annotations nextImage)).
    assert (1 <= len (if historyIndex s <? len (history s) - 1
                      then slice0 (history s) (historyIndex s + 1)
                      else history s)) as Hk.
    { destruct (Z.ltb_spec (historyIndex s) (len (history s) - 1)).
      - rewrite slice0_in_range; lia.
      - lia. }
    revert Hk. generalize (if historyIndex s <? len (history s) - 1
                           then slice0 (history s) (historyIndex s + 1)
                           else history s). intros k Hk.
    assert (len (k ++ [x]) = len k + 1) as Hkx by (rewrite len_app; done).
    destruct (Z.ltb_spec 50 (len (k ++ [x]))).
    - rewrite len_drop1. lia.
    - lia. }
  split; [done|]. unfold canUndo. rewrite Hi. apply Z.ltb_lt. lia.
Qed.

(** C1 -- the store after an advance out of a non-empty queue. On the first
    load of images 1 and 2 the history is the single snapshot of image 1.
    After [fetchNextImage] pops image 2, the history still starts with the
    snapshot of image 1 and holds two entries, the index is 1 and [canUndo]
    is true: an undo puts the annotation of image 1 on image 2. The reload of
    [goToNextImage], by contrast, leaves exactly one snapshot at index 0. *)
Theorem advance_does_not_reset_history :
  let s := state_of (fetchNextImage Rejected Rejected first_load) in
  freshly_loaded first_load
  /\ imageQueue first_load = [image2]
  /\ currentImage s = Some image2
  /\ history s = [[box7]; []]
  /\ historyIndex s = 1
  /\ canUndo s = true
  /\ annotations (state_of (undo s)) = [box7]
  /\ freshly_loaded reloaded.
Proof. vm_compute. by repeat split. Qed.

End AdvanceFacts.

(** ** Undo, redo and the history invariant *)

Section UndoRedoLaws.

Import Store Spec Sample.
Local Open Scope Z_scope.
Implicit Types (s : Store.t).

(** C2 -- undo/redo laws. From a freshly loaded image (one snapshot, index
    0) and after the mutations [ms], as many undos as there were mutations
    followed by as many redos all return and give back the very store the
    mutations left, its annotation set included; [undo] with the index at 0
    or below (the empty history has index -1) and [redo] with the index on
    the last snapshot return the store unchanged. *)
Theorem undo_redo_laws (s : Store.t) (ms : list Mutation) :
  freshly_loaded s ->
  (exists u,
      iter (length ms) undo (mutate_all ms s) = Returns u
      /\ iter (length ms) redo u = Returns (mutate_all ms s)
      /\ annotations (state_of (iter (length ms) redo u))
         = annotations (mutate_all ms s))
  /\ (forall t, historyIndex t <= 0 -> undo t = Returns t)
  /\ (forall t, len (history t) - 1 <= historyIndex t -> redo t = Returns t)
  /\ undo initial = Returns initial.
Proof.
  intros Hs.
  split; [|split; [apply undo_at_start|split; [apply redo_at_tail|done]]].
  destruct (mutate_all_keeps_tail ms s (freshly_loaded_tail s Hs)) as [Hc Ht].
  set (s' := mutate_all ms s) in *. set (n := length ms).
  pose proof (consistent_in_range s' Hc) as Hr.
  set (j := Z.max 0 (historyIndex s' - Z.of_nat n)).
  assert (0 <= j < len (history s')) as Hj by (unfold j; lia).
  exists (jump j s').
  assert (iter n redo (jump j s') = Returns s') as Hredo.
  { rewrite iter_redo_jump by (by apply jump_consistent).
    rewrite jump_history, jump_index by done.
    rewrite jump_jump by lia.
    replace (Z.min (len (history s') - 1) (j + Z.of_nat n))
      with (historyIndex s') by (unfold j; lia).
    by rewrite jump_here. }
  split_and!.
  - by apply iter_undo_jump.
  - done.
  - by rewrite Hredo.
Qed.

Lemma undo_redo_laws_witness :
  freshly_loaded reloaded
  /\ ((exists u,
         iter (length three_edits) undo (mutate_all three_edits reloaded) = Returns u
         /\ iter (length three_edits) redo u = Returns (mutate_all three_edits reloaded)
         /\ annotations (state_of (iter (length three_edits) redo u))
            = annotations (mutate_all three_edits reloaded))
      /\ (forall t, historyIndex t <= 0 -> undo t = Returns t)
      /\ (forall t, len (history t) - 1 <= historyIndex t -> redo t = Returns t)
      /\ undo initial = Returns initial).
Proof.
  split.
  - split; reflexivity.
  - apply (undo_redo_laws reloaded three_edits). split; reflexivity.
Defined.

(** The invariant only reads the history, its index and the live array. *)
Lemma history_invariant_editing s s' :
  editing s' = editing s -> history_invariant s -> history_invariant s'.
Proof.
  intros (_ & Ha & Hh & Hi)%editing_fields.
  unfold history_invariant, consistent. by rewrite Ha, Hh, Hi.
Qed.

Lemma history_invariant_saveHistory s : history_invariant (saveHistory s).
Proof. apply consistent_invariant, saveHistory_consistent. Qed.

(** With an empty history a snapshot cannot be restored: the handler throws
    and the history stays empty. *)
Lemma restore_snapshot_empty s :
  history s = [] -> history (state_of (restore_snapshot s)) = [].
Proof.
  intros Hh. unfold restore_snapshot.
  destruct (at_index (history s) (historyIndex s)) as [snap|] eqn:Hat; [|done].
  apply at_index_Some in Hat. rewrite Hh in Hat. unfold len in Hat.
  cbn [length] in Hat. lia.
Qed.

Lemma history_invariant_undo s :
  history_invariant s -> history_invariant (state_of (undo s)).
Proof.
  intros Hinv. destruct (history s) as [|h0 hs] eqn:Hh.
  - unfold undo. destruct (canUndo s); [|done].
    intros Hne. destruct Hne. apply restore_snapshot_empty. by destruct s.
  - destruct Hinv as [Hr Hc]; [by rewrite Hh|].
    rewrite undo_jump by done. cbn [state_of].
    apply consistent_invariant, jump_consistent. lia.
Qed.

Lemma history_invariant_redo s :
  history_invariant s -> history_invariant (state_of (redo s)).
Proof.
  intros Hinv. destruct (history s) as [|h0 hs] eqn:Hh.
  - unfold redo. destruct (canRedo s); [|done].
    intros Hne. destruct Hne. apply restore_snapshot_empty. by destruct s.
  - destruct Hinv as [Hr Hc]; [by rewrite Hh|].
    rewrite redo_jump by done. cbn [state_of].
    apply consistent_invariant, jump_consistent. lia.
Qed.

Lemma history_invariant_reload server target s :
  history_invariant s -> history_invariant (state_of (reload server target s)).
Proof.
  intros Hinv. unfold reload. destruct (server _); cbn [finally state_of].
  - eapply history_invariant_editing; [|exact Hinv].
    by rewrite !editing_set_isLoading.
  - eapply history_invariant_editing; [apply editing_set_isLoading|].
    apply history_invariant_saveHistory.
Qed.

Lemma history_invariant_leave s :
  history_invariant s ->
  history_invariant
    (if historyPosition s =? len (processedHistory s) - 1
     then set_isInHistory false s else s).
Proof.
  destruct (_ =? _); [|done].
  apply history_invariant_editing, editing_set_isInHistory.
Qed.

Lemma history_invariant_advance batch direct s :
  history_invariant s -> ~ finds_nothing (op_advance batch direct) s ->
  history_invariant (state_of (fetchNextImage batch direct s)).
Proof.
  intros Hinv Hnot.
  destruct (imageQueue s) as [|nextImage rest] eqn:Hq.
  - unfold fetchNextImage, getNextFromQueue.
    assert (imageQueue (set_isLoading true s) = []) as -> by (by destruct s).
    assert (currentImage (set_isLoading true s) = currentImage s) as ->
        by (by destruct s).
    assert (history_invariant (set_isLoading true s)) as H0.
    { eapply history_invariant_editing; [apply editing_set_isLoading|done]. }
    change (len (@nil Image) =? 0) with true. cbn [andb].
    destruct (currentImage s) as [c|] eqn:Hcur.
    + rewrite bool_decide_eq_true_2 by (by eexists). cbn [negb].
      set (s2 := if len (imageQueue (set_isLoading true s)) <? PREFETCH_THRESHOLD
                 then backgroundPrefetch_begin (set_isLoading true s)
                 else set_isLoading true s).
      assert (editing s2 = editing (set_isLoading true s)) as He.
      { unfold s2. destruct (_ <? _); [apply editing_backgroundPrefetch_begin|done]. }
      assert (history_invariant s2) as H2
          by (eapply history_invariant_editing; [exact He|exact H0]).
      destruct direct as [|[data|]]; cbn [finally state_of].
      * eapply history_invariant_editing; [apply editing_set_isLoading|done].
      * eapply history_invariant_editing; [apply editing_set_isLoading|].
        apply history_invariant_saveHistory.
      * exfalso. apply Hnot. cbn [finds_nothing]. split_and!; [done|done|].
        rewrite Hcur. by eexists.
    + rewrite bool_decide_eq_false_2 by (by intros [x Hx]). cbn [negb].
      unfold initializePrefetch, getNextFromQueue.
      destruct (len (fetchImageBatch batch) =? 0); cbn [snd finally state_of].
      * eapply history_invariant_editing; [|exact H0].
        by rewrite editing_set_isLoading, editing_set_isInitialLoad,
          editing_set_isPrefetching, editing_set_prefetchProgress,
          editing_set_isPrefetching, editing_set_isInitialLoad.
      * set (sq := set_isInitialLoad false _).
        destruct (imageQueue sq) as [|n q'] eqn:Hsq; cbn [snd].
        -- eapply history_invariant_editing; [|exact H0].
           rewrite editing_set_isLoading. unfold sq.
           by rewrite editing_set_isInitialLoad, editing_set_isPrefetching,
             editing_set_prefetchProgress, editing_set_imageQueue,
             editing_set_prefetchProgress, editing_set_isPrefetching,
             editing_set_isInitialLoad.
        -- eapply history_invariant_editing; [apply editing_set_isLoading|].
           apply history_invariant_saveHistory.
  - destruct (fetchNextImage_from_queue batch direct s _ _ Hq)
      as (s' & -> & _ & Ha & Hh & Hi).
    cbn [state_of]. apply consistent_invariant. unfold consistent.
    rewrite Hi, Hh, Ha. apply bounded_last.
Qed.

(** Every operation but the advance past the last image keeps the
    invariant of the undo history. *)
Lemma history_invariant_preserved (o : Operation) s :
  history_invariant s -> ~ finds_nothing o s ->
  history_invariant (state_of (perform o s)).
Proof.
  intros Hinv Hnot. destruct o as [reply|batch direct|server|server|m| |];
    cbn [perform].
  - unfold fetchImage. destruct reply; cbn [finally state_of].
    + eapply history_invariant_editing; [|exact Hinv].
      by rewrite !editing_set_isLoading.
    + eapply history_invariant_editing; [apply editing_set_isLoading|].
      apply history_invariant_saveHistory.
  - by apply history_invariant_advance.
  - unfold goToPreviousImage. destruct (canGoPrevious s); cbn [negb]; [|done].
    set (s3 := set_historyPosition _ _).
    assert (history_invariant s3) as H3.
    { eapply history_invariant_editing; [|exact Hinv]. unfold s3.
      rewrite editing_set_historyPosition, editing_set_isInHistory.
      destruct (isInHistory s); [done|].
      destruct (currentImage s); [|done].
      destruct (at_index _ _); [destruct (_ =? _)|]; done. }
    clearbody s3.
    destruct (at_index _ _); [by apply history_invariant_reload|done].
  - unfold goToNextImage. destruct (canGoNext s); cbn [negb]; [|done].
    set (s1 := set_historyPosition (historyPosition s + 1) s).
    assert (history_invariant s1) as H1.
    { eapply history_invariant_editing; [apply editing_set_historyPosition|done]. }
    destruct (at_index _ _) as [nextImage|].
    + pose proof (history_invariant_reload server nextImage s1 H1) as Hr.
      destruct (reload server nextImage s1) as [s2|s2]; cbn [state_of] in *; [|done].
      by apply history_invariant_leave.
    + cbn [state_of]. by apply history_invariant_leave.
  - destruct (mutate_cases m s) as [->|[anns ->]]; [done|].
    apply history_invariant_saveHistory.
  - by apply history_invariant_undo.
  - by apply history_invariant_redo.
Qed.

(** C3 -- the invariant of the undo history, and the advance that breaks
    it. After the first load of image 1, the last image, the invariant
    holds: the live array is the snapshot at index 0. The next
    [fetchNextImage] finds the queue empty and the server without a next
    image; it empties the live array but leaves the history alone, so the
    snapshot at the index still holds the annotation of image 1 and the
    invariant fails, although the history is non-empty and the index is in
    range. An undo-capable store is left over for no image. *)
Theorem exhausted_fetch_breaks_invariant :
  let s := state_of (fetchNextImage Rejected (Resolved None) last_image) in
  history_invariant last_image
  /\ finds_nothing (op_advance Rejected (Resolved None)) last_image
  /\ currentImage s = None
  /\ annotations s = []
  /\ history s = [[box7]]
  /\ historyIndex s = 0
  /\ at_index (history s) (historyIndex s) = Some [box7]
  /\ ~ history_invariant s.
Proof.
  split_and!; try reflexivity.
  - apply consistent_invariant. reflexivity.
  - simpl. split_and!; [done|done|]. by eexists.
  - intros Hinv. destruct Hinv as [_ Hc]; [done|].
    unfold consistent in Hc. vm_compute in Hc. discriminate.
Qed.

End UndoRedoLaws.

(** ** Truncation, unmatched identifiers, failed saves *)

Section EditFacts.

Import Store Spec Sample.
Local Open Scope Z_scope.
Implicit Types (s : Store.t).

(** C4 -- history truncation. When redo is available (an undo moved the
    index below the last snapshot), a mutation that applies keeps the
    snapshots up to the index, drops those beyond it and appends its own:
    the new snapshot is the last entry, the index points at it and
    [canRedo] is false. (With at most 50 entries before, no eviction
    interferes and the index advances by one.) *)
Theorem mutation_truncates_redo (m : Mutation) (s : Store.t) :
  0 <= historyIndex s ->
  canRedo s = true ->
  applies m s ->
  history (mutate m s)
  = bounded (take (Z.to_nat (historyIndex s + 1)) (history s)
             ++ [annotations (mutate m s)])
  /\ (len (history s) <= 50 ->
      history (mutate m s)
      = take (Z.to_nat (historyIndex s + 1)) (history s) ++ [annotations (mutate m s)]
      /\ historyIndex (mutate m s) = historyIndex s + 1)
  /\ at_index (history (mutate m s)) (len (history (mutate m s)) - 1)
     = Some (annotations (mutate m s))
  /\ historyIndex (mutate m s) = len (history (mutate m s)) - 1
  /\ canRedo (mutate m s) = false.
Proof.
  intros Hi Hredo Happ.
  destruct (mutate_applies m s Happ) as [anns ->].
  unfold canRedo in Hredo. apply Z.ltb_lt in Hredo.
  assert (kept (set_annotations anns s)
          = take (Z.to_nat (historyIndex s + 1)) (history s)) as Hkept.
  { unfold kept. destruct s; store_unfold.
    destruct (Z.ltb_spec historyIndex0 (len history0 - 1)); [|lia].
    apply slice0_take. lia. }
  assert (history (saveHistory (set_annotations anns s))
          = bounded (take (Z.to_nat (historyIndex s + 1)) (history s) ++ [anns]))
    as Hh.
  { rewrite saveHistory_history, Hkept. by destruct s. }
  assert (annotations (saveHistory (set_annotations anns s)) = anns) as Ha.
  { rewrite saveHistory_annotations. by destruct s. }
  rewrite Ha. split_and!.
  - done.
  - intros Hlen.
    assert (len (take (Z.to_nat (historyIndex s + 1)) (history s) ++ [anns])
            = historyIndex s + 2) as Hl.
    { rewrite len_app. unfold len in *. rewrite length_take. simpl. lia. }
    assert (bounded (take (Z.to_nat (historyIndex s + 1)) (history s) ++ [anns])
            = take (Z.to_nat (historyIndex s + 1)) (history s) ++ [anns]) as Hb.
    { unfold bounded. rewrite Hl.
      by destruct (Z.ltb_spec 50 (historyIndex s + 2)); [lia|]. }
    split.
    + by rewrite Hh, Hb.
    + rewrite saveHistory_at_tail, Hh, Hb, Hl. lia.
  - rewrite Hh. apply bounded_last.
  - apply saveHistory_at_tail.
  - apply saveHistory_canRedo.
Qed.

Lemma mutation_truncates_redo_witness :
  (0 <= historyIndex undone_once /\ canRedo undone_once = true
   /\ applies (Add 1003 drawn1) undone_once)
  /\ history (mutate (Add 1003 drawn1) undone_once)
     = [[box7]; [box7; mkAnnotation (Some 1001) 1 (1 # 4) (1 # 4) (1 # 8) (1 # 8)];
        [box7; mkAnnotation (Some 1001) 1 (1 # 4) (1 # 4) (1 # 8) (1 # 8);
               mkAnnotation (Some 1002) 1 (3 # 4) (3 # 4) (1 # 8) (1 # 8)];
        annotations (mutate (Add 1003 drawn1) undone_once)]
  /\ canRedo (mutate (Add 1003 drawn1) undone_once) = false.
Proof.
  assert (0 <= historyIndex undone_once) as H0 by (vm_compute; discriminate).
  assert (canRedo undone_once = true) as H1 by reflexivity.
  assert (applies (Add 1003 drawn1) undone_once) as H2 by exact I.
  split; [by split_and!|].
  destruct (mutation_truncates_redo (Add 1003 drawn1) undone_once H0 H1 H2)
    as (_ & Hexact & _ & _ & Hredo).
  split; [|exact Hredo].
  destruct Hexact as [Hh _]; [vm_compute; discriminate|]. exact Hh.
Defined.

(** C10 -- an identifier that no annotation carries. [updateAnnotation] and
    [removeAnnotation] then return the store as it was: same live array,
    same history, same index, and nothing is thrown (both are total). *)
Theorem unmatched_id_is_noop (i : option Z) (u : Updates) (s : Store.t) :
  (forall a, a ∈ annotations s -> ann_id a <> i) ->
  updateAnnotation i u s = s /\ removeAnnotation i s = s.
Proof.
  intros Hnone.
  assert (findIndex (fun a => same_id (ann_id a) i) (annotations s) = -1) as Hf.
  { apply findIndex_none. intros a Ha. apply same_id_false. by apply Hnone. }
  unfold updateAnnotation, removeAnnotation. by rewrite Hf.
Qed.

Lemma unmatched_id_is_noop_witness :
  (forall a, a ∈ annotations first_load -> ann_id a <> Some 99)
  /\ updateAnnotation (Some 99) (mkUpdates None None (Some (1 # 3)) None None None)
       first_load = first_load
  /\ removeAnnotation (Some 99) first_load = first_load.
Proof.
  assert (forall a, a ∈ annotations first_load -> ann_id a <> Some 99) as H.
  { intros a Ha. change (annotations first_load) with [box7] in Ha.
    apply elem_of_cons in Ha as [->|Ha]; [discriminate|].
    by apply not_elem_of_nil in Ha. }
  split; [exact H|].
  exact (unmatched_id_is_noop (Some 99)
           (mkUpdates None None (Some (1 # 3)) None None None) first_load H).
Defined.

(** C8 -- a save whose POST is rejected. [saveAnnotations] throws and the
    store it leaves is the store it found: the live array, the undo
    history, its index and the processed-image history are untouched, so
    the same save can be tried again. *)
Theorem failed_save_changes_nothing
    (post : Z -> list Annotation -> bool -> Response unit)
    (skip : bool) (s : Store.t) (image : Image) :
  currentImage s = Some image ->
  post (img_id image) (map annotationData (annotations s)) skip = Rejected ->
  saveAnnotations post skip s = Throws s
  /\ annotations (state_of (saveAnnotations post skip s)) = annotations s
  /\ history (state_of (saveAnnotations post skip s)) = history s
  /\ historyIndex (state_of (saveAnnotations post skip s)) = historyIndex s
  /\ processedHistory (state_of (saveAnnotations post skip s)) = processedHistory s.
Proof.
  intros Hcur Hpost. unfold saveAnnotations. rewrite Hcur, Hpost. done.
Qed.

Lemma failed_save_changes_nothing_witness :
  (currentImage first_load = Some image1
   /\ post_down (img_id image1) (map annotationData (annotations first_load)) false
      = Rejected)
  /\ saveAnnotations post_down false first_load = Throws first_load.
Proof.
  split; [split; reflexivity|].
  exact (proj1 (failed_save_changes_nothing post_down false first_load image1
                  eq_refl eq_refl)).
Defined.

End EditFacts.

(** ** Browsing the processed images *)

Section NavigationFacts.

Import Store Spec Sample.
Local Open Scope Z_scope.
Implicit Types (s : Store.t).

Lemma saveHistory_navigation s :
  currentImage (saveHistory s) = currentImage s
  /\ processedHistory (saveHistory s) = processedHistory s
  /\ historyPosition (saveHistory s) = historyPosition s
  /\ isInHistory (saveHistory s) = isInHistory s.
Proof. rewrite saveHistory_eq. done. Qed.

(** A reload answered by the server changes the current image and the undo
    history, not the processed stack nor the cursor. *)
Lemma reload_served server target s :
  serves_requested server ->
  exists s',
    reload server target s = Returns s'
    /\ current_id s' = Some (img_id target)
    /\ processedHistory s' = processedHistory s
    /\ historyPosition s' = historyPosition s
    /\ isInHistory s' = isInHistory s.
Proof.
  intros Hserv. destruct (Hserv (img_id target)) as (data & Hd & Hid).
  unfold reload. rewrite Hd. cbn [finally].
  eexists. split; [reflexivity|].
  unfold current_id. store_cbn.
  match goal with |- context [saveHistory ?x] =>
    destruct (saveHistory_navigation x) as (-> & -> & -> & ->) end.
  store_cbn. cbn [fmap option_fmap option_map]. by rewrite Hid.
Qed.

(** Once the cursor sits one below an entry [e], whether or not an image was
    reloaded on the way down, [goToNextImage] climbs back to [e]. *)
Lemma climb_back server s j e :
  serves_requested server ->
  isInHistory s = true ->
  historyPosition s = j - 1 ->
  at_index (processedHistory s) j = Some e ->
  exists s',
    goToNextImage server s = Returns s'
    /\ current_id s' = Some (img_id e)
    /\ processedHistory s' = processedHistory s
    /\ historyPosition s' = j
    /\ isInHistory s' = negb (j =? len (processedHistory s) - 1).
Proof.
  intros Hserv Hin Hpos He.
  pose proof (at_index_Some _ _ _ He) as Hj.
  unfold goToNextImage, canGoNext. rewrite Hin, Hpos. cbn [andb].
  destruct (Z.ltb_spec (j - 1) (len (processedHistory s) - 1)) as [_|]; [|lia].
  cbn [negb].
  set (s1 := set_historyPosition (j - 1 + 1) s).
  assert (processedHistory s1 = processedHistory s) as Hp1 by done.
  assert (historyPosition s1 = j) as Hj1 by (unfold s1; store_cbn; lia).
  assert (isInHistory s1 = true) as Hi1 by done.
  clearbody s1.
  rewrite Hj1, Hp1, He.
  destruct (reload_served server e s1 Hserv) as (s2 & -> & Hid & Hp2 & Hj2 & Hi2).
  rewrite Hj2, Hp2, Hj1, Hp1.
  destruct (Z.eqb_spec j (len (processedHistory s) - 1)) as [Heq|Hne];
    eexists; (split; [reflexivity|]); cbn [negb].
  - unfold current_id in *. store_cbn. by rewrite Hid, Hp2, Hp1, Hj2, Hj1.
  - by rewrite Hid, Hp2, Hp1, Hj2, Hi2, Hi1, Hj1.
Qed.

(** C9 -- navigation symmetry. With a server that returns the images asked
    for, [goToPreviousImage] called when enabled, with a current image, and
    either outside browsing mode with the cursor at the head of the stack
    or inside it with the current image being the entry under the cursor,
    followed by [goToNextImage], returns to the identifier that was
    current. Browsing mode is left exactly when the cursor is then at the
    head of the stack, which is the case whenever the pair started outside
    browsing mode. *)
Theorem navigation_symmetry (server : Z -> Response Image) (s : Store.t) (cur : Image) :
  serves_requested server ->
  canGoPrevious s = true ->
  currentImage s = Some cur ->
  (if isInHistory s
   then exists e, at_index (processedHistory s) (historyPosition s) = Some e
                  /\ img_id e = img_id cur
   else historyPosition s = len (processedHistory s) - 1) ->
  exists s1 s2,
    goToPreviousImage server s = Returns s1
    /\ goToNextImage server s1 = Returns s2
    /\ current_id s2 = Some (img_id cur)
    /\ (isInHistory s = false -> isInHistory s2 = false)
    /\ (isInHistory s2 = false <->
        historyPosition s2 = len (processedHistory s2) - 1).
Proof.
  intros Hserv Hcan Hcur Hstate.
  (* The state after the optional push and the decrement of the cursor. *)
  assert (exists s3 j e,
             isInHistory s3 = true
             /\ historyPosition s3 = j - 1
             /\ at_index (processedHistory s3) j = Some e
             /\ img_id e = img_id cur
             /\ (isInHistory s = false -> j = len (processedHistory s3) - 1)
             /\ goToPreviousImage server s =
                match at_index (processedHistory s3) (j - 1) with
                | Some prevImage => reload server prevImage s3
                | None => Returns s3
                end) as (s3 & j & e & Hin & Hpos & He & Hid & Hhead & Hprev).
  { unfold goToPreviousImage. rewrite Hcan, Hcur. cbn [negb].
    unfold canGoPrevious in Hcan. apply Z.ltb_lt in Hcan.
    destruct (isInHistory s) eqn:Hbrowse.
    - destruct Hstate as (e & He & Hid).
      exists (set_historyPosition (historyPosition s - 1) (set_isInHistory true s)),
        (historyPosition s), e.
      split_and!; done.
    - destruct (at_index_in_range (processedHistory s) (len (processedHistory s) - 1))
        as [lastInHistory Hlast]; [lia|].
      rewrite Hlast.
      destruct (Z.eqb_spec (img_id lastInHistory) (img_id cur)) as [Heq|Hne].
      + exists (set_historyPosition (historyPosition s - 1) (set_isInHistory true s)),
          (historyPosition s), lastInHistory.
        split_and!; try done. by rewrite Hstate.
      + set (entry := processed_entry cur (annotations s)).
        set (stack := processedHistory s ++ [entry]).
        exists (set_historyPosition (len stack - 1 - 1)
                  (set_isInHistory true
                     (set_historyPosition (len stack - 1)
                        (set_processedHistory stack s)))),
          (len stack - 1), entry.
        split_and!; try done. apply at_index_last. }
  pose proof (at_index_Some _ _ _ He) as Hj.
  (* Going down: a reload, or nothing below the first entry. *)
  assert (exists s1,
             goToPreviousImage server s = Returns s1
             /\ isInHistory s1 = true
             /\ historyPosition s1 = j - 1
             /\ processedHistory s1 = processedHistory s3) as (s1 & Hs1 & Hi1 & Hp1 & Hst1).
  { rewrite Hprev. destruct (at_index (processedHistory s3) (j - 1)) as [prevImage|].
    - destruct (reload_served server prevImage s3 Hserv)
        as (s1 & -> & _ & Hst & Hps & His).
      exists s1. rewrite Hst, Hps, His. done.
    - by exists s3. }
  rewrite <- Hst1 in He.
  destruct (climb_back server s1 j e Hserv Hi1 Hp1 He)
    as (s2 & Hs2 & Hid2 & Hst2 & Hp2 & Hi2).
  exists s1, s2. split_and!; [done|done|by rewrite Hid2, Hid| |].
  - intros Hout. rewrite Hi2, Hst1, <- (Hhead Hout). by rewrite Z.eqb_refl.
  - rewrite Hi2, Hp2, Hst2. destruct (Z.eqb_spec j (len (processedHistory s1) - 1)); simpl;
      split; intros; done.
Qed.

Lemma navigation_symmetry_witness :
  (serves_requested server
   /\ canGoPrevious at_image3 = true
   /\ currentImage at_image3 = Some image3
   /\ historyPosition at_image3 = len (processedHistory at_image3) - 1)
  /\ exists s1 s2,
       goToPreviousImage server at_image3 = Returns s1
       /\ goToNextImage server s1 = Returns s2
       /\ current_id s2 = Some 3
       /\ (isInHistory at_image3 = false -> isInHistory s2 = false)
       /\ (isInHistory s2 = false <->
           historyPosition s2 = len (processedHistory s2) - 1).
Proof.
  assert (serves_requested server) as H0.
  { intros i. eexists. split; reflexivity. }
  split; [split_and!; [exact H0|reflexivity..]|].
  exact (navigation_symmetry server at_image3 image3 H0 eq_refl eq_refl eq_refl).
Defined.

(** C9, the claim as written fails: image 2 is browsed below the head of a
    stack of three, [goToPreviousImage] is enabled and there is a current
    image; after the pair the current image is image 2 again, but the
    cursor is back below the head and the store still browses. *)
Lemma navigation_pair_keeps_browsing :
  let s := browsing_image2 in
  let s2 := state_of (andThen (goToPreviousImage server s) (goToNextImage server)) in
  canGoPrevious s = true
  /\ current_id s = Some 2
  /\ throws (andThen (goToPreviousImage server s) (goToNextImage server)) = false
  /\ current_id s2 = Some 2
  /\ historyPosition s2 = 1
  /\ len (processedHistory s2) = 3
  /\ ~ isInHistory s2 = false.
Proof. vm_compute. split_and!; try reflexivity. discriminate. Qed.

End NavigationFacts.

(** ** The canvas *)

Section CanvasFacts.

Import Canvas Spec Sample.
Local Open Scope Q_scope.

Lemma Qltb_lt (a b : Q) : Qltb a b = true <-> a < b.
Proof.
  unfold Qltb. rewrite negb_true_iff. split.
  - intros H. apply Qnot_le_lt. intros Hle. apply Qle_bool_iff in Hle. congruence.
  - intros H. destruct (Qle_bool b a) eqn:Hle; [|done].
    apply Qle_bool_iff in Hle. by apply Qlt_not_le in H.
Qed.

Lemma Qltb_ge (a b : Q) : Qltb a b = false <-> b <= a.
Proof.
  unfold Qltb. rewrite negb_false_iff. apply Qle_bool_iff.
Qed.

Lemma Math_max_ge (a b : Q) : a <= Math_max a b /\ b <= Math_max a b.
Proof.
  unfold Math_max. destruct (Qltb a b) eqn:H.
  - apply Qltb_lt in H. split; [by apply Qlt_le_weak|apply Qle_refl].
  - apply Qltb_ge in H. split; [apply Qle_refl|done].
Qed.

Lemma Math_min_le (a b : Q) : Math_min a b <= a /\ Math_min a b <= b.
Proof.
  unfold Math_min. destruct (Qltb b a) eqn:H.
  - apply Qltb_lt in H. split; [by apply Qlt_le_weak|apply Qle_refl].
  - apply Qltb_ge in H. split; [apply Qle_refl|done].
Qed.

Lemma clamp_scale_range (x : Q) : 1 # 10 <= clamp_scale x <= 10.
Proof.
  unfold clamp_scale. split.
  - unfold Math_min. destruct (Qltb 10 _); [done|]. apply Math_max_ge.
  - apply Math_min_le.
Qed.

(** The size checks of a resize on one axis. *)
Lemma clamped_extent (x1 x2 : Q) :
  let x2' := if Qltb (x2 - x1) 10 then x1 + 10 else x2 in
  10 <= x2' - x1
  /\ (x2 - x1 < 10 -> x2' - x1 == 10 /\ x1 + (x2' - x1) == x1 + 10)
  /\ (10 <= x2 - x1 -> x1 + (x2' - x1) == x2).
Proof.
  cbv zeta. destruct (Qltb (x2 - x1) 10) eqn:H.
  - apply Qltb_lt in H. split_and!.
    + assert (x1 + 10 - x1 == 10) as -> by ring. apply Qle_refl.
    + intros _. split; ring.
    + intros Hge. by apply Qle_not_lt in Hge.
  - apply Qltb_ge in H. split_and!.
    + done.
    + intros Hlt. by apply Qle_not_lt in H.
    + intros _. ring.
Qed.

(** C6 -- the minimum extent of a resize. Write [x1], [y1] for the left
    and top edge once the handle has moved, [x2], [y2] for the right and
    bottom edge: a handle puts each edge it moves on the pointer and leaves
    the others where the box had them. For every handle and every pointer
    position the resized box is at least 10 wide and 10 high; its left and
    top edges are [x1] and [y1]; on an axis whose extent after the move is
    below 10 the extent is exactly 10, the right (bottom) edge being put 10
    beyond the left (top) one, and otherwise the right (bottom) edge is [x2]
    ([y2]). So for a handle that moves the right (bottom) edge the anchor,
    the left (top) edge, stays fixed and the moving edge follows the
    pointer but stops 10 away from the anchor; for a handle that moves the
    left (top) edge, that edge follows the pointer wherever it goes, and
    within 10 of the opposite edge, or past it, the opposite edge is placed
    10 beyond the pointer. *)
Theorem resize_min_extent (box : Box) (h : HandleType) (p : Point) :
  let x1 := if moves_left h then px p else box_x box in
  let y1 := if moves_top h then py p else box_y box in
  let x2 := if moves_right h then px p else right_edge box in
  let y2 := if moves_bottom h then py p else bottom_edge box in
  10 <= box_w (resize box h p) /\ 10 <= box_h (resize box h p)
  /\ box_x (resize box h p) = x1 /\ box_y (resize box h p) = y1
  /\ (x2 - x1 < 10 ->
      box_w (resize box h p) == 10 /\ right_edge (resize box h p) == x1 + 10)
  /\ (y2 - y1 < 10 ->
      box_h (resize box h p) == 10 /\ bottom_edge (resize box h p) == y1 + 10)
  /\ (10 <= x2 - x1 -> right_edge (resize box h p) == x2)
  /\ (10 <= y2 - y1 -> bottom_edge (resize box h p) == y2)
  /\ (moves_right h = true ->
      box_x (resize box h p) = box_x box
      /\ (10 <= px p - box_x box -> right_edge (resize box h p) == px p)
      /\ (px p - box_x box < 10 ->
          right_edge (resize box h p) == box_x box + 10))
  /\ (moves_bottom h = true ->
      box_y (resize box h p) = box_y box
      /\ (10 <= py p - box_y box -> bottom_edge (resize box h p) == py p)
      /\ (py p - box_y box < 10 ->
          bottom_edge (resize box h p) == box_y box + 10))
  /\ (moves_left h = true ->
      box_x (resize box h p) = px p
      /\ (10 <= right_edge box - px p ->
          right_edge (resize box h p) == right_edge box)
      /\ (right_edge box - px p < 10 ->
          right_edge (resize box h p) == px p + 10))
  /\ (moves_top h = true ->
      box_y (resize box h p) = py p
      /\ (10 <= bottom_edge box - py p ->
          bottom_edge (resize box h p) == bottom_edge box)
      /\ (bottom_edge box - py p < 10 ->
          bottom_edge (resize box h p) == py p + 10))
  /\ (moves_left h = false -> moves_right h = false ->
      box_x (resize box h p) = box_x box
      /\ (10 <= box_w box -> right_edge (resize box h p) == right_edge box))
  /\ (moves_top h = false -> moves_bottom h = false ->
      box_y (resize box h p) = box_y box
      /\ (10 <= box_h box -> bottom_edge (resize box h p) == bottom_edge box)).
Proof.
  intros x1 y1 x2 y2.
  assert (moved_edges box h p = (x1, y1, x2, y2)) as He
      by (unfold x1, y1, x2, y2; by destruct h).
  assert (10 <= box_w (resize box h p) /\ 10 <= box_h (resize box h p)
          /\ box_x (resize box h p) = x1 /\ box_y (resize box h p) = y1
          /\ (x2 - x1 < 10 ->
              box_w (resize box h p) == 10
              /\ right_edge (resize box h p) == x1 + 10)
          /\ (y2 - y1 < 10 ->
              box_h (resize box h p) == 10
              /\ bottom_edge (resize box h p) == y1 + 10)
          /\ (10 <= x2 - x1 -> right_edge (resize box h p) == x2)
          /\ (10 <= y2 - y1 -> bottom_edge (resize box h p) == y2))
    as (Hw & Hh & Hx & Hy & Hxlt & Hylt & Hxge & Hyge).
  { unfold resize. rewrite He. unfold right_edge, bottom_edge.
    cbn [box_x box_y box_w box_h].
    destruct (clamped_extent x1 x2) as (? & ? & ?).
    destruct (clamped_extent y1 y2) as (? & ? & ?).
    split_and!; done. }
  clear He.
  assert (forall a b : Q, a + b - a == b) as Hcancel by (intros; ring).
  split_and!; try done.
  - intros Hm. destruct h; try discriminate Hm;
      cbv beta iota delta [x1 x2 moves_left moves_right] in Hx, Hxlt, Hxge;
      split_and!; try done; intros H; by apply Hxlt.
  - intros Hm. destruct h; try discriminate Hm;
      cbv beta iota delta [y1 y2 moves_top moves_bottom] in Hy, Hylt, Hyge;
      split_and!; try done; intros H; by apply Hylt.
  - intros Hm. destruct h; try discriminate Hm;
      cbv beta iota delta [x1 x2 moves_left moves_right] in Hx, Hxlt, Hxge;
      split_and!; try done; intros H; by apply Hxlt.
  - intros Hm. destruct h; try discriminate Hm;
      cbv beta iota delta [y1 y2 moves_top moves_bottom] in Hy, Hylt, Hyge;
      split_and!; try done; intros H; by apply Hylt.
  - intros Hl Hr. destruct h; try discriminate Hl; try discriminate Hr;
      cbv beta iota delta [x1 x2 moves_left moves_right] in Hx, Hxge;
      (split; [done|]); intros H; apply Hxge;
      unfold right_edge; by rewrite Hcancel.
  - intros Hl Hr. destruct h; try discriminate Hl; try discriminate Hr;
      cbv beta iota delta [y1 y2 moves_top moves_bottom] in Hy, Hyge;
      (split; [done|]); intros H; apply Hyge;
      unfold bottom_edge; by rewrite Hcancel.
Qed.

(** C6, the claim as written fails: the left handle of the box (0, 0, 100,
    100) is dragged to x = 95, within 10 of the right edge, the anchor. The
    left edge follows the pointer to 95 instead of stopping at 90, and the
    right edge leaves 100 for 105. *)
Lemma left_handle_pushes_anchor :
  let box := mkBox 0 0 100 100 in
  let resized := resize box l_ (mkPoint 95 50) in
  right_edge box == 100
  /\ resized = mkBox 95 0 10 100
  /\ right_edge resized == 105
  /\ ~ right_edge resized == right_edge box
  /\ ~ box_x resized == 90.
Proof. vm_compute. split_and!; try reflexivity; discriminate. Qed.

(** Closes a goal with [a < b] and [b <= a] among the hypotheses. *)
Ltac q_absurd :=
  match goal with
  | H1 : (?a < ?b)%Q, H2 : (?b <= ?a)%Q |- _ =>
      exfalso; exact (Qlt_not_le _ _ H1 H2)
  end.

Lemma normalize_extents (cb : Box) :
  0 <= box_w (normalize cb) /\ 0 <= box_h (normalize cb).
Proof.
  unfold normalize.
  destruct (Qltb (box_w cb) 0) eqn:Hw, (Qltb (box_h cb) 0) eqn:Hh;
    cbn [box_w box_h];
    repeat match goal with
           | H : Qltb _ _ = true |- _ => apply Qltb_lt in H
           | H : Qltb _ _ = false |- _ => apply Qltb_ge in H
           end;
    split; try done;
    apply (Qopp_le_compat _ 0); by apply Qlt_le_weak.
Qed.

Lemma draw_returns_with_image (p : Props) (c : Canvas.t) (evs : list Event) :
  is_Some (image c) -> draw p c evs = Returns (c, evs).
Proof. intros [img Himg]. unfold draw, draw_throws. by rewrite Himg. Qed.

Lemma emitted_draw (p : Props) (c : Canvas.t) (evs : list Event) :
  emitted (draw p c evs) = evs /\ fst (state_of (draw p c evs)) = c.
Proof. unfold draw, emitted. by destruct (draw_throws p c). Qed.

(** C5 -- the commit of a draw. On the pointer-up that ends a drawing drag
    (a category being selected, as it was when the drag began), the working
    box is normalised to non-negative extents and an add is emitted exactly
    when its width and its height both exceed 5 and the image is loaded; it
    then carries the box in YOLO form. With the image loaded nothing is
    thrown, whatever the size; with no image loaded nothing is emitted. In
    every case the working box is discarded and the drag is over. *)
Theorem draw_commit_rule (p : Props) (c : Canvas.t) (cb : Box) (cat : Category) :
  isPanning c = false ->
  isDragging c = false ->
  isDrawing c = true ->
  currentBox c = Some cb ->
  selectedCategory p = Some cat ->
  (0 <= box_w (normalize cb) /\ 0 <= box_h (normalize cb))
  /\ (existsb is_add (emitted (handleMouseUp p c)) = true <->
      5 < box_w (normalize cb) /\ 5 < box_h (normalize cb) /\ is_Some (image c))
  /\ (forall imgW imgH,
        image c = Some (imgW, imgH) ->
        5 < box_w (normalize cb) -> 5 < box_h (normalize cb) ->
        emitted (handleMouseUp p c) =
        [emit_add
           {| ann_id := None;
              category_id := cat_id cat;
              x_center := (box_x (normalize cb) + box_w (normalize cb) / 2) / imgW;
              y_center := (box_y (normalize cb) + box_h (normalize cb) / 2) / imgH;
              width := box_w (normalize cb) / imgW;
              height := box_h (normalize cb) / imgH |}])
  /\ (is_Some (image c) -> throws (handleMouseUp p c) = false)
  /\ (image c = None -> emitted (handleMouseUp p c) = [])
  /\ currentBox (fst (state_of (handleMouseUp p c))) = None
  /\ isDrawing (fst (state_of (handleMouseUp p c))) = false.
Proof.
  intros Hpan Hdrag Hdraw Hbox Hcat.
  split; [apply normalize_extents|].
  unfold handleMouseUp. rewrite Hpan, Hdrag, Hdraw, Hbox, Hcat.
  set (n := normalize cb).
  set (c1 := set_currentBox None (set_isDrawing false c)).
  assert (image (set_isDrawing false c) = image c) as -> by done.
  assert (image c1 = image c) as Himg1 by done.
  destruct (Qltb 5 (box_w n)) eqn:Hw, (Qltb 5 (box_h n)) eqn:Hh;
    cbn [andb];
    repeat match goal with
           | H : Qltb _ _ = true |- _ => apply Qltb_lt in H
           | H : Qltb _ _ = false |- _ => apply Qltb_ge in H
           end.
  1: destruct (image c) as [[imgW imgH]|] eqn:Himg.
  all: match goal with |- context [draw ?p' ?c' ?evs] =>
         destruct (emitted_draw p' c' evs) as [Hem Hst] end;
       rewrite Hem, Hst.
  all: split_and!; try done.
  all: try (intros; unfold throws; rewrite draw_returns_with_image;
            [done|by rewrite Himg1]).
  all: try (intros w h' [= <- <-] _ _; reflexivity).
  all: try (intros w h' _ Ha Hb; q_absurd).
  all: split; try done.
  all: try (intros _; split_and!; try done; by eexists).
  all: intros (Ha & Hb & [img Hc]); try q_absurd; discriminate Hc.
Qed.

Lemma draw_commit_rule_witness :
  (isPanning dragged = false /\ isDragging dragged = false
   /\ isDrawing dragged = true
   /\ currentBox dragged = Some (mkBox 100 100 200 300)
   /\ selectedCategory annotating = Some car)
  /\ emitted (handleMouseUp annotating dragged) =
     [emit_add
        {| ann_id := None;
           category_id := 1;
           x_center := (100 + 200 / 2) / 1920;
           y_center := (100 + 300 / 2) / 1080;
           width := 200 / 1920;
           height := 300 / 1080 |}]
  /\ throws (handleMouseUp annotating dragged) = false.
Proof.
  split; [by split_and!|].
  destruct (draw_commit_rule annotating dragged (mkBox 100 100 200 300) car
              eq_refl eq_refl eq_refl eq_refl eq_refl)
    as (_ & _ & Hadd & Hret & _).
  split.
  - exact (Hadd 1920 1080 eq_refl eq_refl eq_refl).
  - apply Hret. by eexists.
Defined.

(** C5, the claim as written fails: the pointer is released after a drag
    from (10, 10) to (110, 110) while the image has not arrived. The
    normalised box is 100 by 100, both above 5, and no add is emitted. *)
Lemma large_draw_before_load_is_dropped :
  isPanning dragged_before_load = false
  /\ isDragging dragged_before_load = false
  /\ isDrawing dragged_before_load = true
  /\ currentBox dragged_before_load = Some (mkBox 10 10 100 100)
  /\ normalize (mkBox 10 10 100 100) = mkBox 10 10 100 100
  /\ image dragged_before_load = None
  /\ handleMouseUp annotating dragged_before_load
     = Returns (set_currentBox None (set_isDrawing false dragged_before_load), [])
  /\ ~ (existsb is_add (emitted (handleMouseUp annotating dragged_before_load)) = true
        <-> 5 < box_w (normalize (mkBox 10 10 100 100))
            /\ 5 < box_h (normalize (mkBox 10 10 100 100))).
Proof.
  split_and!; try reflexivity.
  intros [_ Hadd]. assert (false = true) as Habs; [|discriminate Habs].
  apply Hadd. split; reflexivity.
Qed.

(** C7 -- wheel zoom. The new scale is the old one times 0.9 when [deltaY]
    is positive and times 1.1 otherwise, in particular when it is
    negative, clamped into [0.1, 10]. With a non-zero scale, the image
    point computed from the pointer before the scale changes was under the
    pointer, and after the offsets are recomputed it is drawn at the
    pointer again (exactly, over the rationals). The new scale is
    emitted. *)
Theorem wheel_zoom (p : Props) (e : PointerEvent) (c : Canvas.t) :
  ~ scale c == 0 ->
  let c' := fst (state_of (handleWheel p e c)) in
  let mouse := mkPoint (clientX e - rect_left e) (clientY e - rect_top e) in
  let under := screenToImage c (px mouse) (py mouse) in
  scale c' = clamp_scale (scale c * (if Qltb 0 (deltaY e) then 9 # 10 else 11 # 10))
  /\ (deltaY e < 0 -> scale c' = clamp_scale (scale c * (11 # 10)))
  /\ (0 < deltaY e -> scale c' = clamp_scale (scale c * (9 # 10)))
  /\ 1 # 10 <= scale c' <= 10
  /\ (px (imageToScreen c under) == px mouse
      /\ py (imageToScreen c under) == py mouse)
  /\ (px (imageToScreen c' under) == px mouse
      /\ py (imageToScreen c' under) == py mouse)
  /\ emitted (handleWheel p e c) = [emit_zoom_change (scale c')].
Proof.
  intros Hscale. cbv zeta. unfold handleWheel.
  match goal with |- context [draw ?p' ?c' ?evs] =>
    destruct (emitted_draw p' c' evs) as [Hem Hst] end.
  rewrite Hem, Hst. cbn [scale offsetX offsetY set_view px py].
  unfold imageToScreen, screenToImage. cbn [px py scale offsetX offsetY set_view].
  fold (clamp_scale (scale c * (if Qltb 0 (deltaY e) then 9 # 10 else 11 # 10))).
  split_and!; try done.
  - intros Hneg. destruct (Qltb 0 (deltaY e)) eqn:Hd; [|done].
    apply Qltb_lt in Hd. exfalso. apply (Qlt_irrefl 0).
    exact (Qlt_trans _ _ _ Hd Hneg).
  - intros Hpos. apply Qltb_lt in Hpos. by rewrite Hpos.
  - apply clamp_scale_range.
  - apply clamp_scale_range.
  - field. done.
  - field. done.
  - ring.
  - ring.
Qed.

Lemma wheel_zoom_witness :
  ~ scale mounted == 0
  /\ scale (fst (state_of (handleWheel annotating zoom_in_at_400_300 mounted)))
     = clamp_scale (1 * (11 # 10))
  /\ clamp_scale (1 * (11 # 10)) == 11 # 10
  /\ screenToImage mounted 400 300 = mkPoint ((400 - 0) / 1) ((300 - 0) / 1)
  /\ px (imageToScreen
           (fst (state_of (handleWheel annotating zoom_in_at_400_300 mounted)))
           (screenToImage mounted (400 - 0) (300 - 0))) == 400 - 0
  /\ py (imageToScreen
           (fst (state_of (handleWheel annotating zoom_in_at_400_300 mounted)))
           (screenToImage mounted (400 - 0) (300 - 0))) == 300 - 0.
Proof.
  assert (~ scale mounted == 0) as H by (vm_compute; discriminate).
  destruct (wheel_zoom annotating zoom_in_at_400_300 mounted H)
    as (_ & Hin & _ & _ & _ & [Hx Hy] & _).
  split_and!.
  - exact H.
  - apply Hin. reflexivity.
  - reflexivity.
  - reflexivity.
  - exact Hx.
  - exact Hy.
Defined.

End CanvasFacts.

(** ** The undo history over whole sessions *)

Section HistoryBound.

Import Store Spec Sample Laws Sample2.
Local Open Scope Z_scope.
Implicit Types (s : Store.t).

Lemma editing_history s s' : editing s' = editing s -> history s' = history s.
Proof. by intros (_ & _ & ? & _)%editing_fields. Qed.

Lemma shape_same s s' : editing s' = editing s -> history_shape s s'.
Proof. intros He. left. by apply editing_history. Qed.

Lemma shape_pushed s s0 s' :
  history s0 = history s \/ history s0 = [] ->
  editing s' = editing (saveHistory s0) -> history_shape s s'.
Proof.
  intros H0 He. right. right. exists s0. split; [done|]. by apply editing_history.
Qed.

Lemma restore_snapshot_history s :
  history (state_of (restore_snapshot s)) = history s.
Proof. unfold restore_snapshot. by destruct (at_index _ _). Qed.

Lemma undo_history s : history (state_of (undo s)) = history s.
Proof.
  unfold undo. destruct (canUndo s); [|done]. by rewrite restore_snapshot_history.
Qed.

Lemma redo_history s : history (state_of (redo s)) = history s.
Proof.
  unfold redo. destruct (canRedo s); [|done]. by rewrite restore_snapshot_history.
Qed.

Lemma reload_shape server target s s3 :
  editing s3 = editing s ->
  history_shape s (state_of (reload server target s3)).
Proof.
  intros He. unfold reload. destruct (server _); cbn [finally state_of].
  - apply shape_same. by rewrite !editing_set_isLoading.
  - eapply shape_pushed; [|apply editing_set_isLoading]. by right.
Qed.

Lemma fetchNextImage_shape batch direct s :
  history_shape s (state_of (fetchNextImage batch direct s)).
Proof.
  unfold fetchNextImage, getNextFromQueue.
  assert (editing (set_isLoading true s) = editing s) as He0
      by apply editing_set_isLoading.
  set (s0 := set_isLoading true s) in *.
  destruct (imageQueue s0) as [|nextImage rest] eqn:Hq.
  - change (len (@nil Image) =? 0) with true. cbn [andb].
    destruct (bool_decide (is_Some (currentImage s0))); cbn [negb].
    + set (s2 := if len (imageQueue s0) <? PREFETCH_THRESHOLD
                 then backgroundPrefetch_begin s0 else s0).
      assert (editing s2 = editing s) as He2.
      { unfold s2. destruct (_ <? _); [|done].
        by rewrite editing_backgroundPrefetch_begin. }
      clearbody s2.
      destruct direct as [|[data|]]; cbn [finally state_of].
      * apply shape_same. by rewrite editing_set_isLoading.
      * eapply shape_pushed; [|apply editing_set_isLoading].
        left. by apply editing_history in He2.
      * left. apply editing_history in He2. by rewrite <- He2.
    + unfold initializePrefetch, getNextFromQueue.
      destruct (len (fetchImageBatch batch) =? 0); cbn [snd finally state_of].
      * apply shape_same.
        by rewrite editing_set_isLoading, editing_set_isInitialLoad,
          editing_set_isPrefetching, editing_set_prefetchProgress,
          editing_set_isPrefetching, editing_set_isInitialLoad.
      * set (sq := set_isInitialLoad false _).
        assert (editing sq = editing s) as Hsq.
        { unfold sq.
          by rewrite editing_set_isInitialLoad, editing_set_isPrefetching,
            editing_set_prefetchProgress, editing_set_imageQueue,
            editing_set_prefetchProgress, editing_set_isPrefetching,
            editing_set_isInitialLoad. }
        clearbody sq.
        destruct (imageQueue sq) as [|n q']; cbn [snd].
        -- apply shape_same. by rewrite editing_set_isLoading.
        -- eapply shape_pushed; [|apply editing_set_isLoading].
           left. by apply editing_history in Hsq.
  - replace (len (nextImage :: rest) =? 0) with false
      by (symmetry; apply Z.eqb_neq; unfold len; cbn [length]; lia).
    cbn [andb finally state_of].
    set (s3 := set_annotations _ _).
    eapply (shape_pushed s s3).
    + left. apply editing_history in He0. by rewrite <- He0.
    + rewrite editing_set_isLoading.
      destruct (_ <? _); [apply editing_backgroundPrefetch_begin|done].
Qed.

Lemma goToPreviousImage_shape server s :
  history_shape s (state_of (goToPreviousImage server s)).
Proof.
  unfold goToPreviousImage. destruct (canGoPrevious s); cbn [negb]; [|by left].
  set (s3 := set_historyPosition _ _).
  assert (editing s3 = editing s) as H3.
  { unfold s3. rewrite editing_set_historyPosition, editing_set_isInHistory.
    destruct (isInHistory s); [done|]. destruct (currentImage s); [|done].
    destruct (at_index _ _); [destruct (_ =? _)|]; done. }
  clearbody s3.
  destruct (at_index _ _); [by apply reload_shape|by apply shape_same].
Qed.

Lemma goToNextImage_shape server s :
  history_shape s (state_of (goToNextImage server s)).
Proof.
  unfold goToNextImage. destruct (canGoNext s); cbn [negb]; [|by left].
  set (s1 := set_historyPosition (historyPosition s + 1) s).
  assert (editing s1 = editing s) as H1 by apply editing_set_historyPosition.
  clearbody s1.
  destruct (at_index _ _) as [nextImage|].
  - pose proof (reload_shape server nextImage s s1 H1) as Hr.
    destruct (reload server nextImage s1) as [s2|s2]; cbn [state_of] in *; [|done].
    destruct (_ =? _); [|done].
    destruct Hr as [Hr|[Hr|(s0 & H0 & Hr)]].
    + left. by rewrite <- Hr.
    + right. left. by rewrite <- Hr.
    + right. right. exists s0. split; [done|]. by rewrite <- Hr.
  - cbn [state_of]. apply shape_same.
    destruct (_ =? _); [by rewrite editing_set_isInHistory|done].
Qed.

Lemma perform_shape (o : Operation) s : history_shape s (state_of (perform o s)).
Proof.
  destruct o as [reply|batch direct|server|server|m| |]; cbn [perform].
  - unfold fetchImage. destruct reply; cbn [finally state_of].
    + apply shape_same. by rewrite !editing_set_isLoading.
    + eapply shape_pushed; [|apply editing_set_isLoading]. by left.
  - apply fetchNextImage_shape.
  - apply goToPreviousImage_shape.
  - apply goToNextImage_shape.
  - cbn [state_of]. destruct (mutate_cases m s) as [->|[anns ->]]; [by left|].
    eapply shape_pushed; [|done]. by left.
  - left. apply undo_history.
  - left. apply redo_history.
Qed.

Lemma step_shape (st : Step) s : history_shape s (step st s).
Proof.
  destruct st as [o|post skip| | |reply|key|batch|i total|newImages]; cbn [step].
  - apply perform_shape.
  - left. unfold saveAnnotations. destruct (currentImage s); [|done].
    destruct (post _ _ _); [done|].
    destruct (isInHistory s); cbn [negb state_of]; [done|].
    unfold recordToProcessedHistory.
    repeat match goal with |- context [if ?b then _ else _] => destruct b end; done.
  - by left.
  - right. by left.
  - left. unfold Categories.loadCategories. destruct reply; [done|].
    by destruct (_ =? _).
  - left. unfold Categories.selectCategoryByKey. by destruct (List.find _ _).
  - left. unfold backgroundPrefetch_arrived. by destruct (_ <? _).
  - by left.
  - by left.
Qed.

Lemma len_kept s : len (kept s) <= len (history s).
Proof.
  unfold kept. destruct (_ <? _); [|lia].
  unfold slice0, len. destruct (_ <? 0); rewrite length_take; lia.
Qed.

Lemma saveHistory_bounded s :
  len (history s) <= 50 -> len (history (saveHistory s)) <= 50.
Proof.
  intros Hlen. rewrite saveHistory_history. unfold bounded.
  pose proof (len_kept s) as Hk.
  assert (len (kept s ++ [annotations s]) = len (kept s) + 1) as Hl
      by (by rewrite len_app).
  destruct (Z.ltb_spec 50 (len (kept s ++ [annotations s]))).
  - rewrite len_drop1. lia.
  - lia.
Qed.

(** X1 -- the undo history never outgrows 50 snapshots: whatever handlers
    of the store run after its creation, in whatever order and with
    whatever replies from the server (failures included), the history
    holds at most 50 entries. *)
Theorem history_never_exceeds_50 (sts : list Step) :
  len (history (run sts initial)) <= 50.
Proof.
  unfold run.
  assert (len (history initial) <= 50) as H0 by (vm_compute; discriminate).
  revert H0. generalize initial.
  induction sts as [|st sts IH]; intros s Hs; cbn [foldl]; [done|].
  apply IH.
  destruct (step_shape st s) as [->|[->|(s0 & H0 & ->)]].
  - done.
  - unfold len. cbn [length]. lia.
  - apply saveHistory_bounded. destruct H0 as [->| ->]; [done|].
    unfold len. cbn [length]. lia.
Qed.

End HistoryBound.

(** ** Edits on the live array *)

Section EditLaws.

Import Store Spec Sample Laws Sample2.
Local Open Scope Z_scope.
Implicit Types (s : Store.t).

Lemma findIndex_first {A : Type} (p : A -> bool) (l : list A) :
  findIndex p l <> -1 ->
  exists a,
    l !! Z.to_nat (findIndex p l) = Some a
    /\ p a = true
    /\ forall (j : nat) b,
         (j < Z.to_nat (findIndex p l))%nat -> l !! j = Some b -> p b = false.
Proof.
  induction l as [|a l IH]; cbn [findIndex]; [done|].
  destruct (p a) eqn:Hp.
  - intros _. exists a. split_and!; [done|done|]. intros j b Hj. simpl in Hj. lia.
  - destruct (Z.eqb_spec (findIndex p l) (-1)) as [|Hne]; [done|].
    intros _. destruct (IH Hne) as (b & Hb & Hpb & Hbefore).
    destruct (findIndex_range p l) as [|Hr]; [done|].
    replace (Z.to_nat (findIndex p l + 1)) with (S (Z.to_nat (findIndex p l))) by lia.
    exists b. split_and!; [done|done|].
    intros [|j] c Hj Hc.
    + cbn in Hc. by injection Hc as <-.
    + cbn in Hc. apply (Hbefore j); [lia|done].
Qed.

(** The saved state that [saveHistory] builds on keeps the history. *)
Lemma saveHistory_after_full s :
  len (history s) = 50 -> historyIndex s = 49 ->
  history (saveHistory s) = drop 1 (history s) ++ [annotations s]
  /\ historyIndex (saveHistory s) = 49.
Proof.
  intros Hlen Hidx.
  assert (kept s = history s) as Hk.
  { unfold kept. rewrite Hlen, Hidx. done. }
  assert (len (history s ++ [annotations s]) = 51) as Hl
      by (rewrite len_app, Hlen; done).
  assert (history (saveHistory s) = drop 1 (history s) ++ [annotations s]) as Hh.
  { rewrite saveHistory_history, Hk. unfold bounded. rewrite Hl. cbn [Z.ltb Z.compare Pos.compare Pos.compare_cont].
    destruct (history s) as [|h0 hs]; [by (unfold len in Hlen; cbn in Hlen)|].
    reflexivity. }
  split; [done|].
  rewrite saveHistory_at_tail, Hh, len_app, len_drop1, Hlen. done.
Qed.

(** X2 -- eviction at capacity. With 50 snapshots and the index on the last
    one, a mutation that applies drops the oldest snapshot and appends its
    own; the index stays 49, so only 49 undos remain and the state the
    image was loaded with is out of reach. *)
Theorem full_history_evicts_oldest (m : Mutation) (s : Store.t) :
  len (history s) = 50 ->
  historyIndex s = 49 ->
  applies m s ->
  history (mutate m s) = drop 1 (history s) ++ [annotations (mutate m s)]
  /\ historyIndex (mutate m s) = 49
  /\ len (history (mutate m s)) = 50.
Proof.
  intros Hlen Hidx Happ.
  destruct (mutate_applies m s Happ) as [anns ->].
  set (s0 := set_annotations anns s).
  destruct (saveHistory_after_full s0) as [Hh Hi]; [done|done|].
  rewrite saveHistory_annotations.
  split_and!; [done|done|].
  rewrite Hh, len_app, len_drop1.
  change (history s0) with (history s). rewrite Hlen. done.
Qed.

Lemma full_history_evicts_oldest_witness :
  (len (history full_history) = 50 /\ historyIndex full_history = 49
   /\ applies (Add 3000 drawn2) full_history)
  /\ at_index (history full_history) 0 = Some (annotations reloaded)
  /\ at_index (history (mutate (Add 3000 drawn2) full_history)) 0
     = at_index (history full_history) 1
  /\ historyIndex (mutate (Add 3000 drawn2) full_history) = 49.
Proof.
  assert (len (history full_history) = 50) as H0 by (vm_compute; reflexivity).
  assert (historyIndex full_history = 49) as H1 by (vm_compute; reflexivity).
  assert (applies (Add 3000 drawn2) full_history) as H2 by exact I.
  destruct (full_history_evicts_oldest (Add 3000 drawn2) full_history H0 H1 H2)
    as (Hh & Hi & _).
  split; [by split_and!|]. split_and!.
  - vm_compute. reflexivity.
  - rewrite Hh. vm_compute. reflexivity.
  - exact Hi.
Defined.

Lemma kept_take s :
  consistent s -> kept s = take (Z.to_nat (historyIndex s + 1)) (history s).
Proof.
  intros Hc. pose proof (consistent_in_range s Hc) as Hr. unfold kept.
  destruct (Z.ltb_spec (historyIndex s) (len (history s) - 1)).
  - apply slice0_take. lia.
  - rewrite take_ge; [done|]. unfold len in *. lia.
Qed.

Lemma kept_last s :
  consistent s ->
  1 <= len (kept s) /\ at_index (kept s) (len (kept s) - 1) = Some (annotations s).
Proof.
  intros Hc. pose proof (consistent_in_range s Hc) as Hr.
  rewrite kept_take by done.
  assert (len (take (Z.to_nat (historyIndex s + 1)) (history s)) = historyIndex s + 1)
    as Hl by (unfold len in *; rewrite length_take; lia).
  rewrite Hl. split; [lia|].
  replace (historyIndex s + 1 - 1) with (historyIndex s) by lia.
  unfold consistent, at_index in *.
  destruct (Z.ltb_spec (historyIndex s) 0); [lia|].
  rewrite lookup_take_lt by lia. done.
Qed.

Lemma bounded_second_last (K : list (list Annotation)) x :
  1 <= len K ->
  at_index (bounded (K ++ [x])) (len (bounded (K ++ [x])) - 1 - 1)
  = at_index K (len K - 1)
  /\ 2 <= len (bounded (K ++ [x])).
Proof.
  intros HK.
  assert (len (K ++ [x]) = len K + 1) as Hl by (by rewrite len_app).
  assert (at_index (K ++ [x]) (len K - 1) = at_index K (len K - 1)) as Happ.
  { unfold at_index. destruct (Z.ltb_spec (len K - 1) 0); [done|].
    apply lookup_app_l. unfold len in *. lia. }
  unfold bounded. destruct (Z.ltb_spec 50 (len (K ++ [x]))).
  - rewrite len_drop1, at_index_drop1 by lia.
    replace (Z.max 0 (len (K ++ [x]) - 1) - 1 - 1 + 1) with (len K - 1) by lia.
    split; [done|lia].
  - rewrite Hl. replace (len K + 1 - 1 - 1) with (len K - 1) by lia.
    split; [done|lia].
Qed.

(** X3 -- one undo reverts one mutation. In a store whose live array is
    the snapshot at the index, after a mutation that applies, [undo]
    returns and gives back the annotation set from before the mutation,
    and [redo] then gives back the store the mutation had left. *)
Theorem undo_reverts_mutation (m : Mutation) (s : Store.t) :
  consistent s ->
  applies m s ->
  exists u,
    undo (mutate m s) = Returns u
    /\ annotations u = annotations s
    /\ redo u = Returns (mutate m s).
Proof.
  intros Hc Happ.
  destruct (mutate_applies m s Happ) as [anns ->].
  set (s0 := set_annotations anns s).
  set (s1 := saveHistory s0).
  assert (consistent s1) as Hc1 by apply saveHistory_consistent.
  assert (kept s0 = kept s) as Hk by done.
  destruct (kept_last s Hc) as [Hk1 Hklast].
  assert (history s1 = bounded (kept s ++ [anns])) as Hh.
  { unfold s1. rewrite saveHistory_history, Hk. done. }
  assert (historyIndex s1 = len (history s1) - 1) as Hi by apply saveHistory_at_tail.
  destruct (bounded_second_last (kept s) anns Hk1) as [Hsnd Hlen].
  rewrite <- Hh in Hsnd, Hlen. rewrite Hklast in Hsnd.
  set (j := historyIndex s1 - 1).
  assert (0 <= j < len (history s1)) as Hj by (unfold j; lia).
  exists (jump j s1).
  assert (undo s1 = Returns (jump j s1)) as Hundo.
  { rewrite undo_jump by done. do 2 f_equal. unfold j. lia. }
  split_and!; [done| |].
  - unfold jump. unfold j. rewrite Hi, Hsnd. done.
  - rewrite redo_jump by (by apply jump_consistent).
    rewrite jump_history, jump_index by done.
    rewrite jump_jump by lia.
    replace (Z.min (len (history s1) - 1) (j + 1)) with (historyIndex s1)
      by (unfold j; lia).
    by rewrite jump_here.
Qed.

Lemma undo_reverts_mutation_witness :
  (consistent reloaded /\ applies (Remove (Some 7)) reloaded)
  /\ exists u,
       undo (mutate (Remove (Some 7)) reloaded) = Returns u
       /\ annotations u = [box7]
       /\ redo u = Returns (mutate (Remove (Some 7)) reloaded).
Proof.
  assert (consistent reloaded) as H0 by reflexivity.
  assert (applies (Remove (Some 7)) reloaded) as H1.
  { exists box7. split; [apply list_elem_of_here|reflexivity]. }
  split; [by split|].
  exact (undo_reverts_mutation (Remove (Some 7)) reloaded H0 H1).
Defined.

(** The first annotation that carries the identifier [i]. *)
Lemma first_match i s :
  applies (Remove i) s ->
  exists (k : nat) a,
    findIndex (fun a => same_id (ann_id a) i) (annotations s) = Z.of_nat k
    /\ annotations s !! k = Some a
    /\ ann_id a = i
    /\ (forall (j : nat) b,
          (j < k)%nat -> annotations s !! j = Some b -> ann_id b <> i).
Proof.
  intros (a0 & Ha0 & Hid0).
  set (p := fun a : Annotation => same_id (ann_id a) i).
  assert (findIndex p (annotations s) <> -1) as Hne.
  { apply (findIndex_hit p _ a0 Ha0). by apply same_id_true. }
  destruct (findIndex_first p (annotations s) Hne) as (a & Ha & Hpa & Hbefore).
  destruct (findIndex_range p (annotations s)) as [|Hr]; [done|].
  exists (Z.to_nat (findIndex p (annotations s))), a.
  split_and!; [lia|done|by apply same_id_true|].
  intros j b Hj Hb. apply same_id_false. by apply (Hbefore j).
Qed.

(** X4 -- an update touches one annotation. When some annotation carries
    the identifier, [updateAnnotation] rewrites the first one that does,
    with the keys of [updates] laid over it, and leaves every other
    position, the order and the length of the array as they were. *)
Theorem update_changes_first_match_only
    (i : option Z) (u : Updates) (s : Store.t) :
  applies (Update i u) s ->
  exists (k : nat) a,
    annotations s !! k = Some a
    /\ ann_id a = i
    /\ (forall (j : nat) b,
          (j < k)%nat -> annotations s !! j = Some b -> ann_id b <> i)
    /\ annotations (updateAnnotation i u s) = <[k := spread a u]> (annotations s)
    /\ (forall (j : nat), j <> k ->
          annotations (updateAnnotation i u s) !! j = annotations s !! j)
    /\ length (annotations (updateAnnotation i u s)) = length (annotations s).
Proof.
  intros Happ. destruct (first_match i s Happ) as (k & a & Hk & Ha & Hid & Hfirst).
  exists k, a.
  assert (annotations (updateAnnotation i u s) = <[k := spread a u]> (annotations s))
    as Hupd.
  { unfold updateAnnotation. rewrite Hk.
    destruct (Z.eqb_spec (Z.of_nat k) (-1)); [lia|].
    unfold at_index. destruct (Z.ltb_spec (Z.of_nat k) 0); [lia|].
    rewrite Nat2Z.id, Ha, saveHistory_annotations. done. }
  split_and!; try done.
  - intros j Hj. rewrite Hupd. by apply list_lookup_insert_ne.
  - rewrite Hupd. apply length_insert.
Qed.

Lemma update_changes_first_match_only_witness :
  applies (Update (Some 7) (mkUpdates None None (Some (1 # 3)) None None None))
          first_load
  /\ annotations (updateAnnotation (Some 7)
                    (mkUpdates None None (Some (1 # 3)) None None None) first_load)
     = [mkAnnotation (Some 7) 1 (1 # 3) (1 # 2) (1 # 4) (1 # 4)].
Proof.
  assert (applies (Update (Some 7) (mkUpdates None None (Some (1 # 3)) None None None))
                  first_load) as H.
  { exists box7. split; [apply list_elem_of_here|reflexivity]. }
  split; [exact H|].
  destruct (update_changes_first_match_only (Some 7)
              (mkUpdates None None (Some (1 # 3)) None None None) first_load H)
    as (k & a & Hk & _ & _ & Hupd & _).
  rewrite Hupd. destruct k as [|k]; [|by destruct k].
  injection Hk as <-. reflexivity.
Defined.

(** What a removal that applies does to the live array. *)
Lemma removeAnnotation_first_match (i : option Z) (s : Store.t) :
  applies (Remove i) s ->
  exists (k : nat) a,
    annotations s !! k = Some a
    /\ ann_id a = i
    /\ (forall (j : nat) b,
          (j < k)%nat -> annotations s !! j = Some b -> ann_id b <> i)
    /\ annotations (removeAnnotation i s) = delete k (annotations s)
    /\ S (length (annotations (removeAnnotation i s))) = length (annotations s)
    /\ (NoDup (ann_id <$> annotations s) ->
        forall b, b ∈ annotations (removeAnnotation i s) -> ann_id b <> i).
Proof.
  intros Happ. destruct (first_match i s Happ) as (k & a & Hk & Ha & Hid & Hfirst).
  exists k, a.
  assert (annotations (removeAnnotation i s) = delete k (annotations s)) as Hrem.
  { unfold removeAnnotation. rewrite Hk.
    destruct (Z.eqb_spec (Z.of_nat k) (-1)); [lia|].
    rewrite Nat2Z.id, saveHistory_annotations. done. }
  split_and!; try done.
  - rewrite Hrem, length_delete by (by eexists).
    apply lookup_lt_Some in Ha. lia.
  - intros Hnd b Hb Hbi. rewrite Hrem in Hb.
    rewrite <- (take_drop_middle _ _ _ Ha) in Hnd.
    rewrite delete_take_drop in Hb.
    rewrite fmap_app, fmap_cons in Hnd.
    apply NoDup_app in Hnd as (_ & _ & Hnd).
    apply NoDup_cons in Hnd as [Hnotin _].
    apply elem_of_app in Hb as [Hb|Hb].
    + apply list_elem_of_lookup in Hb as [j Hj].
      pose proof (lookup_lt_Some _ _ _ Hj) as Hlt.
      rewrite lookup_take_lt in Hj.
      * apply (Hfirst j b); [|done|done].
        rewrite length_take in Hlt. lia.
      * rewrite length_take in Hlt. lia.
    + apply Hnotin. rewrite Hid, <- Hbi. by apply list_elem_of_fmap_2.
Qed.

(** X5 -- a removal deletes one annotation. When some annotation carries
    the identifier, [removeAnnotation] deletes the first one that does and
    keeps the others in order; if the identifiers in the array are
    distinct, none with that identifier is left. *)
Theorem remove_deletes_first_match_only (i : option Z) (s : Store.t) :
  applies (Remove i) s ->
  exists (k : nat) a,
    annotations s !! k = Some a
    /\ ann_id a = i
    /\ (forall (j : nat) b,
          (j < k)%nat -> annotations s !! j = Some b -> ann_id b <> i)
    /\ annotations (removeAnnotation i s) = delete k (annotations s)
    /\ S (length (annotations (removeAnnotation i s))) = length (annotations s)
    /\ (NoDup (ann_id <$> annotations s) ->
        forall b, b ∈ annotations (removeAnnotation i s) -> ann_id b <> i).
Proof. apply removeAnnotation_first_match. Qed.

Lemma remove_deletes_first_match_only_witness :
  applies (Remove (Some 7)) first_load
  /\ annotations (removeAnnotation (Some 7) first_load) = [].
Proof.
  assert (applies (Remove (Some 7)) first_load) as H.
  { exists box7. split; [apply list_elem_of_here|reflexivity]. }
  split; [exact H|].
  destruct (remove_deletes_first_match_only (Some 7) first_load H)
    as (k & a & Hk & _ & _ & Hrem & _).
  rewrite Hrem. destruct k as [|k]; [reflexivity|by destruct k].
Defined.

End EditLaws.

(** ** The processed stack and its cursor *)

Section CursorLaws.

Import Store Spec Sample Laws Sample2.
Local Open Scope Z_scope.
Implicit Types (s : Store.t).

Lemma navigation_fields s s' :
  navigation s' = navigation s ->
  processedHistory s' = processedHistory s
  /\ historyPosition s' = historyPosition s
  /\ isInHistory s' = isInHistory s.
Proof. unfold navigation. intros [= -> -> ->]. done. Qed.

Lemma cursor_at_head_navigation s s' :
  navigation s' = navigation s -> cursor_at_head s -> cursor_at_head s'.
Proof.
  intros (Hp & Hc & Hi)%navigation_fields. unfold cursor_at_head.
  by rewrite Hp, Hc, Hi.
Qed.

Lemma navigation_saveHistory s : navigation (saveHistory s) = navigation s.
Proof. rewrite saveHistory_eq. done. Qed.

Lemma navigation_backgroundPrefetch_begin s :
  navigation (backgroundPrefetch_begin s) = navigation s.
Proof.
  unfold backgroundPrefetch_begin.
  destruct (isPrefetching s); [done|]. by destruct (_ <=? _).
Qed.

Lemma navigation_restore_snapshot s :
  navigation (state_of (restore_snapshot s)) = navigation s.
Proof. unfold restore_snapshot. by destruct (at_index _ _). Qed.

Lemma navigation_reload server target s :
  navigation (state_of (reload server target s)) = navigation s.
Proof.
  unfold reload. destruct (server _); cbn [finally state_of]; [done|].
  change (navigation (set_isLoading false ?x)) with (navigation x).
  by rewrite navigation_saveHistory.
Qed.

(** An advance, whatever it finds, leaves the processed stack, the cursor
    and the browsing flag alone. *)
Lemma navigation_fetchNextImage batch direct s :
  navigation (state_of (fetchNextImage batch direct s)) = navigation s.
Proof.
  unfold fetchNextImage, getNextFromQueue.
  set (s0 := set_isLoading true s).
  assert (navigation s0 = navigation s) as H0 by done.
  clearbody s0.
  assert (forall x, navigation (set_isLoading false x) = navigation x) as Hload
      by done.
  destruct (imageQueue s0) as [|nextImage rest] eqn:Hq.
  - change (len (@nil Image) =? 0) with true. cbn [andb].
    destruct (bool_decide (is_Some (currentImage s0))); cbn [negb].
    + set (s2 := if len (imageQueue s0) <? PREFETCH_THRESHOLD
                 then backgroundPrefetch_begin s0 else s0).
      assert (navigation s2 = navigation s) as H2.
      { unfold s2. destruct (_ <? _); [|done].
        by rewrite navigation_backgroundPrefetch_begin. }
      clearbody s2.
      destruct direct as [|[data|]]; cbn [finally state_of]; rewrite Hload.
      * done.
      * by rewrite navigation_saveHistory.
      * done.
    + unfold initializePrefetch, getNextFromQueue.
      destruct (len (fetchImageBatch batch) =? 0); cbn [snd finally state_of];
        rewrite Hload; [done|].
      set (sq := set_isInitialLoad false _).
      assert (navigation sq = navigation s) as Hsq by done.
      clearbody sq.
      destruct (imageQueue sq) as [|n q']; cbn [snd]; [done|].
      by rewrite navigation_saveHistory.
  - replace (len (nextImage :: rest) =? 0) with false
      by (symmetry; apply Z.eqb_neq; unfold len; cbn [length]; lia).
    cbn [andb finally state_of]. rewrite Hload.
    set (s3 := saveHistory _).
    assert (navigation s3 = navigation s) as H3.
    { unfold s3. by rewrite navigation_saveHistory. }
    clearbody s3.
    destruct (_ <? _); [by rewrite navigation_backgroundPrefetch_begin|done].
Qed.

Lemma navigation_mutate m s : navigation (mutate m s) = navigation s.
Proof.
  destruct (mutate_cases m s) as [->|[anns ->]]; [done|].
  by rewrite navigation_saveHistory.
Qed.

(** [recordToProcessedHistory] ends outside browsing mode with the cursor
    on the entry it pushed. *)
Lemma recordToProcessedHistory_head image anns s :
  let s' := recordToProcessedHistory image anns s in
  isInHistory s' = false
  /\ historyPosition s' = len (processedHistory s') - 1
  /\ at_index (processedHistory s') (historyPosition s')
     = Some (processed_entry image anns)
  /\ editing s' = editing s
  /\ (len (processedHistory s) <= 50 -> len (processedHistory s') <= 50).
Proof.
  cbv zeta. unfold recordToProcessedHistory.
  set (s1 := if isInHistory s && _ then _ else s).
  assert (editing s1 = editing s) as He1 by (unfold s1; by destruct (_ && _)).
  assert (len (processedHistory s1) <= len (processedHistory s)) as Hl1.
  { unfold s1. destruct (_ && _); [|lia]. store_cbn.
    unfold slice0, len. destruct (_ <? 0); rewrite length_take; lia. }
  clearbody s1. store_cbn.
  set (e := processed_entry image anns).
  assert (len (processedHistory s1 ++ [e]) = len (processedHistory s1) + 1) as Hl
      by (by rewrite len_app).
  pose proof (len_nonneg (processedHistory s1)) as Hnn.
  destruct (Z.ltb_spec 50 (len (processedHistory s1 ++ [e]))); store_cbn.
  - rewrite len_drop1. split_and!; try done; try lia.
    rewrite at_index_drop1 by lia.
    replace (len (processedHistory s1 ++ [e]) - 1 - 1 + 1)
      with (len (processedHistory s1 ++ [e]) - 1) by lia.
    apply at_index_last.
  - split_and!; try done; try lia. apply at_index_last.
Qed.

Lemma cursor_at_head_step (st : Step) s :
  cursor_at_head s -> cursor_at_head (step st s).
Proof.
  intros Hs.
  destruct st as [o|post skip| | |reply|key|batch|i total|newImages]; cbn [step].
  - destruct o as [reply|batch direct|server|server|m| |]; cbn [perform].
    + eapply cursor_at_head_navigation; [|exact Hs].
      unfold fetchImage. destruct reply; cbn [finally state_of]; [done|].
      change (navigation (set_isLoading false ?x)) with (navigation x).
      by rewrite navigation_saveHistory.
    + eapply cursor_at_head_navigation; [|exact Hs].
      apply navigation_fetchNextImage.
    + unfold goToPreviousImage.
      destruct (canGoPrevious s); cbn [negb]; [|done].
      set (s3 := set_historyPosition _ _).
      assert (isInHistory s3 = true) as H3 by done.
      clearbody s3. intros Hout. exfalso.
      destruct (at_index _ _) as [prevImage|]; cbn [state_of] in Hout.
      * destruct (navigation_fields _ _ (navigation_reload server prevImage s3))
          as (_ & _ & Hi). congruence.
      * congruence.
    + unfold goToNextImage, canGoNext.
      destruct (isInHistory s) eqn:Hin; cbn [andb negb]; [|done].
      destruct (_ <? _); cbn [negb]; [|done].
      set (s1 := set_historyPosition (historyPosition s + 1) s).
      assert (isInHistory s1 = true) as H1 by done.
      clearbody s1.
      assert (forall x, isInHistory x = true ->
                cursor_at_head (if historyPosition x =? len (processedHistory x) - 1
                                then set_isInHistory false x else x)) as Hleave.
      { intros x Hx. destruct (Z.eqb_spec (historyPosition x)
                                 (len (processedHistory x) - 1)) as [Heq|Hne].
        - intros _. exact Heq.
        - intros Hout. congruence. }
      destruct (at_index _ _) as [nextImage|].
      * destruct (navigation_fields _ _ (navigation_reload server nextImage s1))
          as (_ & _ & Hi).
        destruct (reload server nextImage s1) as [s2|s2]; cbn [state_of] in *.
        -- apply Hleave. congruence.
        -- intros Hout. congruence.
      * cbn [state_of]. by apply Hleave.
    + eapply cursor_at_head_navigation; [|exact Hs]. apply navigation_mutate.
    + eapply cursor_at_head_navigation; [|exact Hs].
      unfold undo. destruct (canUndo s); [|done].
      by rewrite navigation_restore_snapshot.
    + eapply cursor_at_head_navigation; [|exact Hs].
      unfold redo. destruct (canRedo s); [|done].
      by rewrite navigation_restore_snapshot.
  - unfold saveAnnotations. destruct (currentImage s) as [image|]; [|done].
    destruct (post _ _ _); [done|].
    destruct (isInHistory s) eqn:Hin; cbn [negb state_of]; [done|].
    intros _. apply recordToProcessedHistory_head.
  - intros _. done.
  - intros _. done.
  - eapply cursor_at_head_navigation; [|exact Hs].
    unfold Categories.loadCategories. destruct reply; [done|].
    by destruct (_ =? _).
  - eapply cursor_at_head_navigation; [|exact Hs].
    unfold Categories.selectCategoryByKey. by destruct (List.find _ _).
  - eapply cursor_at_head_navigation; [|exact Hs].
    unfold backgroundPrefetch_arrived. by destruct (_ <? _).
  - eapply cursor_at_head_navigation; [|exact Hs]. done.
  - eapply cursor_at_head_navigation; [|exact Hs]. done.
Qed.

(** X6 -- outside browsing mode the cursor is on the head of the processed
    stack: this holds after any handlers of the store run from its
    creation, whatever the server replies. (It is the precondition under
    which a step back and forth returns to the same image.) *)
Theorem cursor_on_head_outside_browsing (sts : list Step) :
  cursor_at_head (run sts initial).
Proof.
  unfold run.
  assert (cursor_at_head initial) as H0 by (intros _; reflexivity).
  revert H0. generalize initial.
  induction sts as [|st sts IH]; intros s Hs; cbn [foldl]; [done|].
  apply IH. by apply cursor_at_head_step.
Qed.




(** X8 -- stepping back pushes the current image at most once. With a
    server that returns the images asked for, an enabled
    [goToPreviousImage] returns in browsing mode; it appends to the stack
    one entry, the current image with a copy of the live annotations, only
    when called outside browsing mode with a current image that is not
    already on top; in every other case the stack is unchanged, and a second
    call never pushes. *)
Theorem previous_pushes_at_most_once (server : Z -> Response Image) (s : Store.t) :
  serves_requested server ->
  canGoPrevious s = true ->
  exists s1,
    goToPreviousImage server s = Returns s1
    /\ isInHistory s1 = true
    /\ (isInHistory s = true -> processedHistory s1 = processedHistory s)
    /\ (currentImage s = None -> processedHistory s1 = processedHistory s)
    /\ (forall cur top,
          isInHistory s = false -> currentImage s = Some cur ->
          at_index (processedHistory s) (len (processedHistory s) - 1) = Some top ->
          processedHistory s1
          = if (img_id top =? img_id cur)%Z then processedHistory s
            else processedHistory s ++ [mkImage (img_id cur) (filename cur)
                                          (Some (annotations s))])
    /\ processedHistory (state_of (goToPreviousImage server s1))
       = processedHistory s1.
Proof.
  intros Hserv Hcan.
  assert (forall x x3,
             processedHistory x3 = processedHistory x ->
             isInHistory x3 = true ->
             exists x1,
               match at_index (processedHistory x3) (historyPosition x3) with
               | Some prevImage => reload server prevImage x3
               | None => Returns x3
               end = Returns x1
               /\ isInHistory x1 = true
               /\ processedHistory x1 = processedHistory x) as Hdown.
  { intros x x3 Hp3 Hi3. destruct (at_index _ _) as [prevImage|].
    - destruct (reload_served server prevImage x3 Hserv)
        as (x1 & -> & _ & Hp & _ & Hi).
      exists x1. split_and!; [done|congruence|congruence].
    - exists x3. done. }
  unfold goToPreviousImage at 1. rewrite Hcan. cbn [negb].
  set (s3 := set_historyPosition _ _).
  assert (forall x, x = s3 ->
            exists s1, match at_index (processedHistory x) (historyPosition x) with
                       | Some prevImage => reload server prevImage x
                       | None => Returns x
                       end = Returns s1
                       /\ isInHistory s1 = true
                       /\ processedHistory s1 = processedHistory s3) as Hgo.
  { intros x ->. by apply Hdown. }
  destruct (Hgo s3 eq_refl) as (s1 & Hs1 & Hi1 & Hp1).
  exists s1. split_and!; [exact Hs1|exact Hi1| | | |].
  - intros Hin. rewrite Hp1. unfold s3. by rewrite Hin.
  - intros Hnone. rewrite Hp1. unfold s3. rewrite Hnone. by destruct (isInHistory s).
  - intros cur top Hin Hcur Htop. rewrite Hp1. unfold s3.
    rewrite Hin, Hcur, Htop. destruct (_ =? _)%Z; [done|].
    store_cbn. unfold processed_entry. by rewrite JSON_clone_id.
  - assert (canGoPrevious s1 = canGoPrevious s3) as Hcan1
        by (unfold canGoPrevious; by rewrite Hp1).
    unfold goToPreviousImage. destruct (canGoPrevious s1); cbn [negb]; [|done].
    rewrite Hi1.
    set (s4 := set_historyPosition _ _).
    destruct (Hdown s1 s4) as (s5 & Hs5 & _ & Hp5); [done|done|].
    fold s4. rewrite Hs5. done.
Qed.

Lemma previous_pushes_at_most_once_witness :
  (serves_requested Sample.server /\ canGoPrevious at_image3 = true)
  /\ exists s1,
       goToPreviousImage Sample.server at_image3 = Returns s1
       /\ isInHistory s1 = true
       /\ processedHistory s1
          = processedHistory at_image3 ++ [mkImage 3 "c.jpg" (Some [])]
       /\ processedHistory (state_of (goToPreviousImage Sample.server s1))
          = processedHistory s1.
Proof.
  assert (serves_requested Sample.server) as H0.
  { intros i. eexists. split; reflexivity. }
  split; [by split|].
  destruct (previous_pushes_at_most_once Sample.server at_image3 H0 eq_refl)
    as (s1 & Hs1 & Hi1 & _ & _ & Hpush & Htwice).
  exists s1. split_and!; [exact Hs1|exact Hi1| |exact Htwice].
  exact (Hpush image3 (mkImage 2 "b.jpg" (Some [])) eq_refl eq_refl eq_refl).
Defined.

(** X9 -- a reload the server rejects. While browsing, [goToNextImage]
    (when enabled, the cursor not below -1) and [goToPreviousImage] (an
    entry lying below the cursor) throw when the request fails; the current
    image, the live array and the undo history are untouched and the
    loading flag is lowered again, but the cursor has already moved by one
    and the store still browses: the cursor no longer points at the image
    shown. *)
Theorem rejected_reload_moves_cursor_only (server : Z -> Response Image) (s : Store.t) :
  (forall i, server i = Rejected) ->
  isInHistory s = true ->
  (canGoNext s = true -> -1 <= historyPosition s ->
   throws (goToNextImage server s) = true
   /\ editing (state_of (goToNextImage server s)) = editing s
   /\ historyPosition (state_of (goToNextImage server s)) = historyPosition s + 1
   /\ isInHistory (state_of (goToNextImage server s)) = true
   /\ isLoading (state_of (goToNextImage server s)) = false)
  /\ (1 <= historyPosition s <= len (processedHistory s) ->
      throws (goToPreviousImage server s) = true
      /\ editing (state_of (goToPreviousImage server s)) = editing s
      /\ historyPosition (state_of (goToPreviousImage server s)) = historyPosition s - 1
      /\ isInHistory (state_of (goToPreviousImage server s)) = true
      /\ isLoading (state_of (goToPreviousImage server s)) = false).
Proof.
  intros Hdown Hin. split.
  - intros Hcan Hpos. unfold goToNextImage. rewrite Hcan. cbn [negb].
    unfold canGoNext in Hcan. rewrite Hin in Hcan. cbn [andb] in Hcan.
    apply Z.ltb_lt in Hcan.
    set (s1 := set_historyPosition (historyPosition s + 1) s).
    destruct (at_index_in_range (processedHistory s1) (historyPosition s1))
      as [nextImage Hnext].
    { unfold s1. store_cbn. lia. }
    rewrite Hnext. unfold reload. rewrite Hdown. cbn [finally throws state_of].
    split_and!; try done.
  - intros Hpos. unfold goToPreviousImage.
    assert (canGoPrevious s = true) as ->.
    { unfold canGoPrevious. apply Z.ltb_lt. lia. }
    cbn [negb]. rewrite Hin.
    set (s3 := set_historyPosition _ _).
    destruct (at_index_in_range (processedHistory s3) (historyPosition s3))
      as [prevImage Hprev].
    { unfold s3. store_cbn. lia. }
    rewrite Hprev. unfold reload. rewrite Hdown. cbn [finally throws state_of].
    split_and!; try done.
Qed.

Lemma rejected_reload_moves_cursor_only_witness :
  ((forall i, server_down i = Rejected) /\ isInHistory browsing_image2 = true)
  /\ throws (goToNextImage server_down browsing_image2) = true
  /\ current_id (state_of (goToNextImage server_down browsing_image2)) = Some 2
  /\ historyPosition (state_of (goToNextImage server_down browsing_image2)) = 2.
Proof.
  assert (forall i, server_down i = Rejected) as H0 by reflexivity.
  split; [by split|].
  destruct (rejected_reload_moves_cursor_only server_down browsing_image2 H0 eq_refl)
    as [Hnext _].
  destruct Hnext as (Ht & _ & Hp & _); [reflexivity|vm_compute; discriminate|].
  split_and!; [exact Ht|reflexivity|exact Hp].
Defined.

End CursorLaws.

(** ** The prefetch queue *)

Section QueueLaws.

Import Store Spec Sample Laws Sample2 Categories.
Local Open Scope Z_scope.
Implicit Types (s : Store.t).

Lemma saveHistory_queue s :
  imageQueue (saveHistory s) = imageQueue s
  /\ isPrefetching (saveHistory s) = isPrefetching s
  /\ prefetchProgress (saveHistory s) = prefetchProgress s
  /\ isInitialLoad (saveHistory s) = isInitialLoad s
  /\ isLoading (saveHistory s) = isLoading s.
Proof. rewrite saveHistory_eq. done. Qed.

(** X10 -- an advance pops the head of the queue. When the queue is not
    empty, [fetchNextImage] sends no request (its result does not depend on
    the replies), makes the first queued image current and leaves the rest
    of the queue in order; a background prefetch is armed exactly when none
    is running and fewer than 5 images remain. *)
Theorem advance_pops_head (batch : Response (list Image))
    (direct : Response (option Image)) (s : Store.t)
    (nextImage : Image) (rest : list Image) :
  imageQueue s = nextImage :: rest ->
  exists s',
    (forall batch' direct', fetchNextImage batch' direct' s = Returns s')
    /\ currentImage s' = Some nextImage
    /\ imageQueue s' = rest
    /\ isPrefetching s' = (isPrefetching s || (len rest <? 5))
    /\ isLoading s' = false.
Proof.
  intros Hq.
  assert (exists s', forall batch' direct', fetchNextImage batch' direct' s = Returns s')
    as [s' Hs'].
  { unfold fetchNextImage, getNextFromQueue.
    assert (imageQueue (set_isLoading true s) = nextImage :: rest) as ->
        by (by destruct s).
    replace (len (nextImage :: rest) =? 0) with false
      by (symmetry; apply Z.eqb_neq; unfold len; cbn [length]; lia).
    cbn [andb finally]. eexists. intros. reflexivity. }
  exists s'. split; [exact Hs'|].
  pose proof (Hs' batch direct) as Hrun.
  unfold fetchNextImage, getNextFromQueue in Hrun.
  assert (imageQueue (set_isLoading true s) = nextImage :: rest) as Hq0
      by (by destruct s).
  rewrite Hq0 in Hrun.
  replace (len (nextImage :: rest) =? 0) with false in Hrun
    by (symmetry; apply Z.eqb_neq; unfold len; cbn [length]; lia).
  cbn [andb finally] in Hrun. injection Hrun as <-.
  set (s3 := set_annotations _ _).
  destruct (saveHistory_queue s3) as (Hq3 & Hp3 & _ & _ & _).
  destruct (saveHistory_navigation s3) as (Hc3 & _).
  assert (imageQueue s3 = rest) as Hr3 by done.
  assert (isPrefetching s3 = isPrefetching s) as Hpf3 by done.
  rewrite Hq3, Hr3. unfold PREFETCH_THRESHOLD.
  destruct (Z.ltb_spec (len rest) 5) as [Hlow|Hhigh].
  - unfold backgroundPrefetch_begin. rewrite Hp3, Hpf3, Hq3, Hr3.
    unfold PREFETCH_THRESHOLD.
    destruct (isPrefetching s) eqn:Hpf; cbn [orb].
    + store_cbn. rewrite Hc3, Hq3, Hp3. done.
    + destruct (Z.leb_spec 5 (len rest)); [lia|].
      store_cbn. rewrite Hc3, Hq3. done.
  - store_cbn. rewrite Hc3, Hq3, Hp3, Hpf3, orb_false_r. done.
Qed.

Lemma advance_pops_head_witness :
  imageQueue first_load = [image2]
  /\ exists s',
       fetchNextImage Rejected Rejected first_load = Returns s'
       /\ currentImage s' = Some image2
       /\ imageQueue s' = []
       /\ isPrefetching s' = true.
Proof.
  split; [reflexivity|].
  destruct (advance_pops_head Rejected Rejected first_load image2 [] eq_refl)
    as (s' & Hs' & Hc & Hq & Hp & _).
  exists s'. split_and!; [apply Hs'|exact Hc|exact Hq|exact Hp].
Defined.

Lemma initializePrefetch_batch img rest s :
  initializePrefetch (Resolved (img :: rest)) s
  = (Some img,
     saveHistory
       (set_annotations (or_empty (img_annotations img))
          (set_currentImage (Some img)
             (set_imageQueue rest
                (set_isInitialLoad false
                   (set_isPrefetching false
                      (set_prefetchProgress 100
                         (set_imageQueue (img :: rest)
                            (set_prefetchProgress 0
                               (set_isPrefetching true
                                  (set_isInitialLoad true s))))))))))).
Proof.
  unfold initializePrefetch, fetchImageBatch.
  replace (len (img :: rest) =? 0) with false
    by (symmetry; apply Z.eqb_neq; unfold len; cbn [length]; lia).
  reflexivity.
Qed.

(** X11 -- the first load. With an empty queue and no current image,
    [fetchNextImage] asks for a batch only. From a batch of at least one
    image the first becomes current, with its annotations as the live
    array, and the others are queued in order (queue length + 1 = batch
    size), the progress standing at 100. From a rejected or empty batch no
    image becomes current and the single-image request is not tried. Both
    ways the prefetch and loading flags end lowered. *)
Theorem first_load_splits_batch (batch : Response (list Image))
    (direct : Response (option Image)) (s : Store.t) :
  imageQueue s = [] ->
  currentImage s = None ->
  (forall img rest,
      batch = Resolved (img :: rest) ->
      exists s',
        fetchNextImage batch direct s = Returns s'
        /\ currentImage s' = Some img
        /\ annotations s' = or_empty (img_annotations img)
        /\ imageQueue s' = rest
        /\ len (imageQueue s') + 1 = len (img :: rest)
        /\ prefetchProgress s' = 100
        /\ isPrefetching s' = false /\ isInitialLoad s' = false
        /\ isLoading s' = false)
  /\ (fetchImageBatch batch = [] ->
      exists s',
        fetchNextImage batch direct s = Returns s'
        /\ currentImage s' = None
        /\ imageQueue s' = []
        /\ editing s' = editing s
        /\ isPrefetching s' = false /\ isInitialLoad s' = false
        /\ isLoading s' = false).
Proof.
  intros Hq Hcur.
  assert (fetchNextImage batch direct s
          = finally (Returns (snd (initializePrefetch batch (set_isLoading true s))))
                    (set_isLoading false)) as Hfirst.
  { unfold fetchNextImage.
    assert (imageQueue (set_isLoading true s) = []) as -> by (by destruct s).
    assert (currentImage (set_isLoading true s) = None) as -> by (by destruct s).
    rewrite bool_decide_eq_false_2 by (by intros [x Hx]). done. }
  split.
  - intros img rest ->. rewrite Hfirst, initializePrefetch_batch.
    cbn [snd finally].
    set (s3 := set_annotations _ _).
    exists (set_isLoading false (saveHistory s3)). split; [reflexivity|].
    destruct (saveHistory_queue s3) as (Hq3 & Hp3 & Hg3 & Hi3 & _).
    destruct (saveHistory_navigation s3) as (Hc3 & _).
    pose proof (saveHistory_annotations s3) as Ha3.
    change (currentImage (set_isLoading false (saveHistory s3)))
      with (currentImage (saveHistory s3)).
    change (annotations (set_isLoading false (saveHistory s3)))
      with (annotations (saveHistory s3)).
    change (imageQueue (set_isLoading false (saveHistory s3)))
      with (imageQueue (saveHistory s3)).
    change (prefetchProgress (set_isLoading false (saveHistory s3)))
      with (prefetchProgress (saveHistory s3)).
    change (isPrefetching (set_isLoading false (saveHistory s3)))
      with (isPrefetching (saveHistory s3)).
    change (isInitialLoad (set_isLoading false (saveHistory s3)))
      with (isInitialLoad (saveHistory s3)).
    rewrite Hq3, Hp3, Hg3, Hi3, Hc3, Ha3.
    split_and!; try reflexivity.
    change (imageQueue s3) with rest. unfold len. cbn [length]. lia.
  - intros Hempty. rewrite Hfirst. cbn [finally].
    eexists. split; [reflexivity|].
    unfold initializePrefetch. rewrite Hempty.
    change (len (@nil Image) =? 0) with true. cbn [snd].
    store_cbn. split_and!; try done.
Qed.

Lemma first_load_splits_batch_witness :
  (imageQueue initial = [] /\ currentImage initial = None)
  /\ (exists s',
        fetchNextImage (Resolved [image1; image2; image3]) Rejected initial
        = Returns s'
        /\ currentImage s' = Some image1
        /\ imageQueue s' = [image2; image3])
  /\ (exists s',
        fetchNextImage Rejected (Resolved (Some image1)) initial = Returns s'
        /\ currentImage s' = None).
Proof.
  split; [by split|].
  split.
  - destruct (first_load_splits_batch (Resolved [image1; image2; image3]) Rejected
                initial eq_refl eq_refl) as [Hfull _].
    destruct (Hfull image1 [image2; image3] eq_refl)
      as (s' & Hs' & Hc & _ & Hq & _).
    exists s'. by split_and!.
  - destruct (first_load_splits_batch Rejected (Resolved (Some image1))
                initial eq_refl eq_refl) as [_ Hnone].
    destruct (Hnone eq_refl) as (s' & Hs' & Hc & _).
    exists s'. by split.
Defined.

Lemma queued_spec (q : list Image) (img : Image) :
  existsb (fun x => img_id x =? img_id img) q = true
  <-> img_id img ∈ img_id <$> q.
Proof.
  induction q as [|x q IH]; cbn [existsb fmap list_fmap].
  - split; [done|]. intros H. by apply not_elem_of_nil in H.
  - rewrite orb_true_iff, IH, elem_of_cons, Z.eqb_eq. split; intros [H|H]; auto.
Qed.

Lemma fresh_images_ids (q images : list Image) :
  NoDup (img_id <$> images) ->
  NoDup (img_id <$> List.filter
                      (fun img => negb (existsb (fun x => img_id x =? img_id img) q))
                      images)
  /\ (forall i,
        i ∈ img_id <$> List.filter
                         (fun img => negb (existsb (fun x => img_id x =? img_id img) q))
                         images ->
        i ∈ img_id <$> images /\ i ∉ img_id <$> q).
Proof.
  induction images as [|img images IH]; cbn [List.filter fmap list_fmap]; intros Hnd.
  - split; [constructor|]. intros i Hi. by apply not_elem_of_nil in Hi.
  - apply NoDup_cons in Hnd as [Hnotin Hnd].
    destruct (IH Hnd) as [IH1 IH2].
    destruct (existsb (fun x => img_id x =? img_id img) q) eqn:Hq; cbn [negb].
    + split; [done|]. intros i Hi. destruct (IH2 i Hi) as [Hin Hout].
      split; [by apply list_elem_of_further|done].
    + cbn [fmap list_fmap]. split.
      * apply NoDup_cons. split; [|done]. intros Hin. by destruct (IH2 _ Hin).
      * intros i Hi. apply elem_of_cons in Hi as [->|Hi].
        -- split; [apply list_elem_of_here|].
           intros Hin. apply queued_spec in Hin. congruence.
        -- destruct (IH2 i Hi) as [Hin Hout].
           split; [by apply list_elem_of_further|done].
Qed.

Lemma backgroundPrefetch_filter_spec (batch : Response (list Image)) (s : Store.t) :
  backgroundPrefetch_filter batch s
  = filter (fun img => img_id img ∉ img_id <$> imageQueue s) (fetchImageBatch batch).
Proof.
  unfold backgroundPrefetch_filter. cbv zeta.
  induction (fetchImageBatch batch) as [|img images IH]; [done|].
  cbn [List.filter]. rewrite filter_cons, <- IH.
  destruct (existsb _ _) eqn:Hq; cbn [negb].
  - apply queued_spec in Hq. by rewrite decide_False by auto.
  - rewrite decide_True; [done|]. intros Hin. apply queued_spec in Hin. congruence.
Qed.

Lemma backgroundPrefetch_awaited_idle (newImages : list Image)
    (meanwhile : nat -> list Step) (s : Store.t) :
  (forall i, meanwhile i = []) ->
  imageQueue (backgroundPrefetch_awaited newImages meanwhile s) = imageQueue s
  /\ editing (backgroundPrefetch_awaited newImages meanwhile s) = editing s.
Proof.
  intros Hidle. unfold backgroundPrefetch_awaited.
  generalize (len newImages). intros n.
  generalize (seq 0 (length newImages)). intros l. revert s.
  induction l as [|i l IH]; intros s; [done|].
  cbn [foldl]. rewrite Hidle.
  change (step (step_prefetch_loaded (Z.of_nat i) n) (run [] s))
    with (set_prefetchProgress (Categories.progress_after (Z.of_nat i) n) s).
  destruct (IH (set_prefetchProgress (Categories.progress_after (Z.of_nat i) n) s))
    as [-> ->].
  done.
Qed.

(** X12 -- what a background prefetch appends. When its batch arrives the
    new images are fixed: the images of the batch whose identifier is not
    in the queue at that moment, in the order of the batch (none for a
    rejected batch). The file of each is then awaited, other handlers
    running meanwhile, and only afterwards are the new images pushed, all
    at once, behind the queue as it is by then, the prefetch flag being
    lowered; nothing else is written by the push. So when no handler runs
    meanwhile the queue is the one found at the arrival followed by the new
    images, and the image being edited is untouched. And when the queue was
    only consumed meanwhile (what is left of it is a sublist of the queue
    found at the arrival), identifiers that were distinct in the queue and
    in the batch are distinct in the queue after the push. *)
Theorem background_batch_appends_fresh_images
    (batch : Response (list Image)) (meanwhile : nat -> list Step) (s : Store.t) :
  let newImages := backgroundPrefetch_filter batch s in
  let awaited := backgroundPrefetch_awaited newImages meanwhile s in
  let s' := backgroundPrefetch batch meanwhile s in
  newImages
  = filter (fun img => img_id img ∉ img_id <$> imageQueue s) (fetchImageBatch batch)
  /\ (batch = Rejected -> newImages = [])
  /\ isPrefetching s' = false
  /\ (newImages = [] -> s' = set_isPrefetching false s)
  /\ (newImages <> [] ->
      imageQueue s' = imageQueue awaited ++ newImages
      /\ editing s' = editing awaited
      /\ navigation s' = navigation awaited)
  /\ ((forall i, meanwhile i = []) ->
      imageQueue s' = imageQueue s ++ newImages
      /\ editing s' = editing s)
  /\ (NoDup (img_id <$> imageQueue s) ->
      NoDup (img_id <$> fetchImageBatch batch) ->
      imageQueue awaited `sublist_of` imageQueue s ->
      NoDup (img_id <$> imageQueue s')).
Proof.
  intros newImages awaited s'.
  pose proof (backgroundPrefetch_filter_spec batch s) as Hspec.
  fold newImages in Hspec.
  assert (newImages = [] -> s' = set_isPrefetching false s) as Hnone.
  { intros Hnil. unfold s', backgroundPrefetch, backgroundPrefetch_arrived.
    fold newImages. by rewrite Hnil. }
  assert (newImages <> [] -> s' = backgroundPrefetch_push newImages awaited) as Hsome.
  { intros Hne. unfold s', backgroundPrefetch. fold newImages.
    destruct (Z.ltb_spec 0 (len newImages)) as [|Hz]; [done|].
    destruct Hne. apply len_nil_iff. pose proof (len_nonneg newImages). lia. }
  split_and!.
  - exact Hspec.
  - intros ->. reflexivity.
  - destruct newImages as [|n0 l0] eqn:Hn.
    + by rewrite Hnone.
    + by rewrite Hsome.
  - exact Hnone.
  - intros Hne. by rewrite (Hsome Hne).
  - intros Hidle.
    destruct (backgroundPrefetch_awaited_idle newImages meanwhile s Hidle)
      as [Hq He]. fold awaited in Hq, He.
    destruct newImages as [|n0 l0] eqn:Hn.
    + rewrite Hnone by done. by rewrite app_nil_r.
    + rewrite Hsome by done. by rewrite <- Hq, <- He.
  - intros Hq Hb Hsub.
    destruct newImages as [|n0 l0] eqn:Hn.
    + by rewrite Hnone.
    + rewrite Hsome by done. unfold backgroundPrefetch_push. store_cbn.
      rewrite fmap_app. apply NoDup_app. split_and!.
      * eapply sublist_NoDup; [exact Hq|]. by apply fmap_sublist.
      * intros i Hi Hnew.
        assert (i ∈ img_id <$> imageQueue s) as Hold.
        { eapply elem_of_sublist; [exact Hi|]. by apply fmap_sublist. }
        apply list_elem_of_fmap in Hnew as (img & -> & Himg).
        rewrite Hspec in Himg. apply list_elem_of_filter in Himg as [Hfresh _].
        done.
      * rewrite Hspec. eapply sublist_NoDup; [exact Hb|].
        apply fmap_sublist, sublist_filter.
Qed.

Lemma background_batch_appends_fresh_images_witness :
  let meanwhile := fun i : nat =>
    match i with
    | O => [step_operation (op_advance Rejected Rejected)]
    | _ => []
    end in
  imageQueue prefetching = [image3]
  /\ backgroundPrefetch_filter (Resolved [image3; image4; image5]) prefetching
     = [image4; image5]
  /\ imageQueue (backgroundPrefetch (Resolved [image3; image4; image5])
                   meanwhile prefetching)
     = [image4; image5]
  /\ NoDup (img_id <$> imageQueue
                         (backgroundPrefetch (Resolved [image3; image4; image5])
                            meanwhile prefetching)).
Proof.
  intros meanwhile.
  destruct (background_batch_appends_fresh_images
              (Resolved [image3; image4; image5]) meanwhile prefetching)
    as (_ & _ & _ & _ & Hpush & _ & Hnd).
  split_and!; [reflexivity|reflexivity| |].
  - destruct Hpush as (-> & _); [vm_compute; discriminate|]. reflexivity.
  - apply Hnd.
    + vm_compute. apply NoDup_singleton.
    + vm_compute. repeat (apply NoDup_cons; split;
        [intros H; repeat (apply elem_of_cons in H as [H|H]; [discriminate H|]);
         by apply not_elem_of_nil in H|]).
      apply NoDup_nil_2.
    + vm_compute. apply sublist_nil_l.
Defined.

Local Open Scope Q_scope.

Lemma progress_after_div (i total : Z) :
  (0 < total)%Z ->
  progress_after i total = ((200 * (i + 1) + total) / (2 * total))%Z.
Proof.
  intros Hpos. unfold progress_after, Math_round.
  rewrite Zdiv_Qdiv. apply Qfloor_comp.
  rewrite (inject_Z_mult 2 total), (inject_Z_plus (200 * (i + 1)) total),
    (inject_Z_mult 200 (i + 1)), !(inject_Z_plus i 1).
  change (inject_Z 200) with 200. change (inject_Z 2) with 2.
  change (inject_Z 1) with 1.
  field. intros H. apply (inject_Z_injective total 0) in H. lia.
Qed.

(** X13 -- the progress of a prefetch loop over [total] items. The figure
    published after each item never decreases and is 100 after the last
    one; for fewer than 200 items it is below 100 (and not negative) until
    the last one is fetched. *)
Theorem prefetch_progress_law (total : Z) :
  (0 < total)%Z ->
  (forall i j, (0 <= i <= j)%Z ->
               (progress_after i total <= progress_after j total)%Z)
  /\ progress_after (total - 1) total = 100%Z
  /\ ((total < 200)%Z ->
      forall i, (0 <= i < total - 1)%Z ->
                (0 <= progress_after i total < 100)%Z).
Proof.
  intros Hpos. split_and!.
  - intros i j Hij. rewrite !progress_after_div by done.
    apply Z.div_le_mono; lia.
  - rewrite progress_after_div by done.
    symmetry. apply (Z.div_unique_pos _ _ 100 total); lia.
  - intros Hsmall i Hi. rewrite progress_after_div by done. split.
    + apply Z.div_pos; lia.
    + apply Z.div_lt_upper_bound; lia.
Qed.

Lemma prefetch_progress_law_witness :
  (0 < PREFETCH_SIZE)%Z
  /\ progress_after 0 PREFETCH_SIZE = 5%Z
  /\ progress_after 19 PREFETCH_SIZE = 100%Z
  /\ (progress_after 3 PREFETCH_SIZE <= progress_after 4 PREFETCH_SIZE)%Z.
Proof.
  assert (0 < PREFETCH_SIZE)%Z as H by reflexivity.
  destruct (prefetch_progress_law PREFETCH_SIZE H) as (Hmono & Hlast & _).
  split_and!; [exact H|reflexivity|exact Hlast|].
  apply Hmono. vm_compute. split; discriminate.
Defined.

End QueueLaws.

(** ** Pixels and normalised coordinates *)

Section GeometryLaws.

Import Canvas CanvasView Spec Sample Laws Sample2.
Local Open Scope Q_scope.

(** The pixel box of the centre form of a box is that box. *)
Lemma pixelBox_centerForm (box : Box) (imgW imgH : Q) (i : option Z) (cat : Z) :
  ~ imgW == 0 -> ~ imgH == 0 ->
  box_equiv
    (pixelBox
       {| ann_id := i;
          category_id := cat;
          x_center := (box_x box + box_w box / 2) / imgW;
          y_center := (box_y box + box_h box / 2) / imgH;
          width := box_w box / imgW;
          height := box_h box / imgH |} imgW imgH)
    box.
Proof.
  intros HW HH. unfold box_equiv, pixelBox.
  cbn [box_x box_y box_w box_h x_center y_center width height].
  split_and!; field; done.
Qed.

(** X14 -- a committed draw round-trips. When the pointer-up of a drawing
    drag emits an add (extents above 5, image of non-zero size loaded, a
    category selected), the annotation emitted carries that category and no
    identifier, and its pixel box on that image is the normalised working
    box again. *)
Theorem drawn_box_round_trip
    (p : Props) (c : Canvas.t) (cb : Box) (cat : Category) (imgW imgH : Q) :
  isPanning c = false ->
  isDragging c = false ->
  isDrawing c = true ->
  currentBox c = Some cb ->
  selectedCategory p = Some cat ->
  image c = Some (imgW, imgH) ->
  ~ imgW == 0 -> ~ imgH == 0 ->
  5 < box_w (normalize cb) -> 5 < box_h (normalize cb) ->
  exists a,
    emitted (handleMouseUp p c) = [emit_add a]
    /\ ann_id a = None
    /\ category_id a = cat_id cat
    /\ box_equiv (pixelBox a imgW imgH) (normalize cb).
Proof.
  intros Hpan Hdrag Hdraw Hbox Hcat Himg HW HH Hw Hh.
  unfold handleMouseUp. rewrite Hpan, Hdrag, Hdraw, Hbox, Hcat.
  assert (image (set_isDrawing false c) = Some (imgW, imgH)) as -> by done.
  apply Qltb_lt in Hw, Hh. rewrite Hw, Hh. cbn [andb].
  match goal with |- context [draw ?p' ?c' ?evs] =>
    destruct (emitted_draw p' c' evs) as [Hem _] end.
  eexists. split; [exact Hem|].
  split_and!; [done|done|]. by apply pixelBox_centerForm.
Qed.

Lemma drawn_box_round_trip_witness :
  (isPanning dragged = false /\ isDragging dragged = false
   /\ isDrawing dragged = true
   /\ currentBox dragged = Some (mkBox 100 100 200 300)
   /\ selectedCategory annotating = Some car
   /\ image dragged = Some (1920, 1080))
  /\ exists a,
       emitted (handleMouseUp annotating dragged) = [emit_add a]
       /\ box_equiv (pixelBox a 1920 1080) (mkBox 100 100 200 300).
Proof.
  split; [by split_and!|].
  destruct (drawn_box_round_trip annotating dragged (mkBox 100 100 200 300) car
              1920 1080 eq_refl eq_refl eq_refl eq_refl eq_refl eq_refl)
    as (a & Ha & _ & _ & Hbox); try (vm_compute; discriminate); try reflexivity.
  exists a. split; [exact Ha|exact Hbox].
Defined.

(** X15 -- the direction of a drag does not matter. A working box dragged
    from one corner to the opposite one and the box dragged the other way
    round normalise to the same box. *)
Theorem drag_direction_is_irrelevant (x y w h : Q) :
  box_equiv (normalize (mkBox x y w h))
            (normalize (mkBox (x + w) (y + h) (- w) (- h))).
Proof.
  assert (forall a e : Q,
             let '(a1, e1) := if Qltb e 0 then (a + e, - e) else (a, e) in
             let '(a2, e2) := if Qltb (- e) 0 then (a + e + - e, - - e)
                              else (a + e, - e) in
             a1 == a2 /\ e1 == e2) as Haxis.
  { intros a e.
    destruct (Qltb e 0) eqn:H1, (Qltb (- e) 0) eqn:H2;
      repeat match goal with
             | H : Qltb _ _ = true |- _ => apply Qltb_lt in H
             | H : Qltb _ _ = false |- _ => apply Qltb_ge in H
             end.
    - exfalso. apply (Qlt_irrefl 0).
      apply Qlt_trans with (- e); [|done].
      apply (Qopp_lt_compat e 0) in H1. exact H1.
    - split; reflexivity.
    - split; ring.
    - assert (e == 0) as He.
      { apply Qle_antisym; [|done].
        apply (Qopp_le_compat 0 (- e)) in H2.
        rewrite Qopp_involutive in H2. exact H2. }
      rewrite He. split; ring. }
  unfold normalize, box_equiv. cbn [box_x box_y box_w box_h].
  pose proof (Haxis x w) as Hx. pose proof (Haxis y h) as Hy.
  destruct (Qltb w 0), (Qltb (- w) 0), (Qltb h 0), (Qltb (- h) 0);
    cbn [box_x box_y box_w box_h]; destruct Hx, Hy; done.
Qed.

(** X16 -- a committed resize round-trips. On the pointer-up that ends a
    resize (an annotation selected, a drag box, an image of non-zero size),
    exactly one update is emitted, for the selected identifier; laid over
    the selected annotation it keeps identifier and category and gives an
    annotation whose pixel box is the drag box. The drag is over and the
    drag box dropped. *)
Theorem resize_commit_round_trip
    (p : Props) (c : Canvas.t) (sel : Annotation) (box : Box) (imgW imgH : Q) :
  isPanning c = false ->
  isDragging c = true ->
  selectedAnnotation c = Some sel ->
  dragBox c = Some box ->
  image c = Some (imgW, imgH) ->
  ~ imgW == 0 -> ~ imgH == 0 ->
  exists u,
    handleMouseUp p c
    = Returns (set_dragBox None (set_dragHandle None (set_isDragging false c)),
               [emit_update (ann_id sel) u])
    /\ ann_id (Store.spread sel u) = ann_id sel
    /\ category_id (Store.spread sel u) = category_id sel
    /\ box_equiv (pixelBox (Store.spread sel u) imgW imgH) box.
Proof.
  intros Hpan Hdrag Hsel Hbox Himg HW HH.
  unfold handleMouseUp. rewrite Hpan, Hdrag.
  assert (selectedAnnotation (set_dragHandle None (set_isDragging false c)) = Some sel)
    as -> by done.
  assert (dragBox (set_dragHandle None (set_isDragging false c)) = Some box)
    as -> by done.
  assert (image (set_dragHandle None (set_isDragging false c)) = Some (imgW, imgH))
    as -> by done.
  eexists. split; [reflexivity|].
  split_and!; [done|done|].
  unfold Store.spread. cbn [upd_id upd_category_id upd_x_center upd_y_center
                             upd_width upd_height default from_option].
  by apply pixelBox_centerForm.
Qed.

Lemma resize_commit_round_trip_witness :
  exists box,
    (isPanning resizing = false /\ isDragging resizing = true
     /\ selectedAnnotation resizing = Some box7
     /\ dragBox resizing = Some box
     /\ image resizing = Some (1920, 1080))
    /\ box_equiv box (mkBox 720 405 580 295)
    /\ exists u,
         emitted (handleMouseUp labelled resizing) = [emit_update (Some 7%Z) u]
         /\ box_equiv (pixelBox (Store.spread box7 u) 1920 1080) box.
Proof.
  eexists. split; [split_and!; reflexivity|].
  split; [by vm_compute|].
  match goal with |- context [box_equiv _ ?b] =>
    destruct (resize_commit_round_trip labelled resizing box7 b 1920 1080
                eq_refl eq_refl eq_refl eq_refl eq_refl)
      as (u & Hu & _ & _ & Hbox)
  end; try (vm_compute; discriminate).
  exists u. split; [|exact Hbox]. unfold emitted. by rewrite Hu.
Defined.

(** X17 -- panning follows the pointer. During a pan, two moves in a row
    leave the offsets where the second move alone would have put them: the
    start offset plus the whole displacement of the pointer since the drag
    started. The scale is not touched and nothing is emitted. *)
Theorem pan_follows_pointer (p : Props) (e1 e2 : PointerEvent) (c : Canvas.t) :
  isPanning c = true ->
  let c1 := fst (state_of (handleMouseMove p e1 c)) in
  let c2 := fst (state_of (handleMouseMove p e2 c1)) in
  let once := fst (state_of (handleMouseMove p e2 c)) in
  offsetX c2 == offsetX c + (clientX e2 - px (startPoint c))
  /\ offsetY c2 == offsetY c + (clientY e2 - py (startPoint c))
  /\ offsetX c2 == offsetX once /\ offsetY c2 == offsetY once
  /\ scale c2 = scale c
  /\ startPoint c2 = mkPoint (clientX e2) (clientY e2)
  /\ isPanning c2 = true
  /\ emitted (handleMouseMove p e1 c) = []
  /\ emitted (handleMouseMove p e2 c1) = [].
Proof.
  intros Hpan. cbv zeta.
  assert (forall e x, isPanning x = true ->
            fst (state_of (handleMouseMove p e x))
            = set_startPoint (mkPoint (clientX e) (clientY e))
                (set_view (scale x)
                   (offsetX x + (clientX e - px (startPoint x)))
                   (offsetY x + (clientY e - py (startPoint x))) x)
            /\ emitted (handleMouseMove p e x) = []) as Hmove.
  { intros e x Hx. unfold handleMouseMove. rewrite Hx.
    match goal with |- context [draw ?p' ?c' ?evs] =>
      destruct (emitted_draw p' c' evs) as [Hem Hst] end.
    by rewrite Hem, Hst. }
  destruct (Hmove e1 c Hpan) as [H1 Hem1].
  destruct (Hmove e2 c Hpan) as [Honce _].
  assert (isPanning (fst (state_of (handleMouseMove p e1 c))) = true) as Hpan1
      by (by rewrite H1).
  destruct (Hmove e2 _ Hpan1) as [H2 Hem2].
  rewrite H2, Honce, Hem1, Hem2, H1.
  cbn [offsetX offsetY scale startPoint isPanning set_view set_startPoint px py].
  split_and!; try done; ring.
Qed.

Lemma pan_follows_pointer_witness :
  isPanning panning = true
  /\ offsetX (fst (state_of
                    (handleMouseMove labelled (pointer 80 100)
                       (fst (state_of (handleMouseMove labelled (pointer 70 40)
                                         panning))))))
     == 0 + (80 - 50).
Proof.
  split; [reflexivity|].
  destruct (pan_follows_pointer labelled (pointer 70 40) (pointer 80 100) panning
              eq_refl) as (Hx & _).
  exact Hx.
Defined.

End GeometryLaws.

(** ** Zoom, hit test, resize, fit *)

Section ViewLaws.

Import Canvas CanvasView Spec Sample Laws Sample2.
Local Open Scope Q_scope.

Lemma clamp_scale_nonzero (x : Q) : ~ clamp_scale x == 0.
Proof.
  intros H. destruct (clamp_scale_range x) as [Hlo _]. rewrite H in Hlo.
  by apply Qle_not_lt in Hlo.
Qed.

(** One wheel event at a pointer that is at [(mx, my)] up to equality of
    numbers. *)
Lemma wheel_keeps_point (p : Props) (e : PointerEvent) (c : Canvas.t) (mx my : Q) :
  ~ scale c == 0 ->
  clientX e - rect_left e == mx ->
  clientY e - rect_top e == my ->
  let c' := fst (state_of (handleWheel p e c)) in
  px (screenToImage c' mx my) == px (screenToImage c mx my)
  /\ py (screenToImage c' mx my) == py (screenToImage c mx my)
  /\ ~ scale c' == 0
  /\ 1 # 10 <= scale c' <= 10.
Proof.
  intros Hscale Hx Hy. cbv zeta. unfold handleWheel.
  match goal with |- context [draw ?p' ?c' ?evs] =>
    destruct (emitted_draw p' c' evs) as [_ Hst] end.
  rewrite Hst. unfold screenToImage.
  cbn [scale offsetX offsetY set_view px py].
  fold (clamp_scale (scale c * (if Qltb 0 (deltaY e) then 9 # 10 else 11 # 10))).
  set (ns := clamp_scale _).
  pose proof (clamp_scale_nonzero
                (scale c * (if Qltb 0 (deltaY e) then 9 # 10 else 11 # 10))) as Hns.
  fold ns in Hns.
  split_and!.
  - rewrite Hx. field. by split.
  - rewrite Hy. field. by split.
  - done.
  - apply clamp_scale_range.
  - apply clamp_scale_range.
Qed.

(** X18 -- zooming keeps the point under the pointer. Starting from a
    non-zero scale, after any number of wheel events at one pointer
    position, in either direction, the image point under that position is
    the one that was there before, and the scale is non-zero (within
    [0.1, 10] once an event has occurred). *)
Theorem zoom_keeps_point_under_pointer
    (p : Props) (es : list PointerEvent) (c : Canvas.t) (mx my : Q) :
  ~ scale c == 0 ->
  (forall e, e ∈ es -> clientX e - rect_left e == mx /\ clientY e - rect_top e == my) ->
  px (screenToImage (wheel_all p es c) mx my) == px (screenToImage c mx my)
  /\ py (screenToImage (wheel_all p es c) mx my) == py (screenToImage c mx my)
  /\ ~ scale (wheel_all p es c) == 0
  /\ (es <> [] -> 1 # 10 <= scale (wheel_all p es c) <= 10).
Proof.
  unfold wheel_all. revert c.
  induction es as [|e es IH]; intros c Hscale Hat; cbn [foldl].
  - split_and!; [reflexivity|reflexivity|done|done].
  - destruct (Hat e) as [Hx Hy]; [apply list_elem_of_here|].
    destruct (wheel_keeps_point p e c mx my Hscale Hx Hy) as (H1 & H2 & H3 & H4).
    destruct (IH (fst (state_of (handleWheel p e c))) H3) as (I1 & I2 & I3 & I4).
    { intros e' He'. apply Hat. by apply list_elem_of_further. }
    split_and!.
    + by rewrite I1.
    + by rewrite I2.
    + done.
    + intros _. destruct es as [|e' es']; [exact H4|]. by apply I4.
Qed.

Lemma zoom_keeps_point_under_pointer_witness :
  (~ scale loaded == 0
   /\ forall e, e ∈ [zoom_in_at_400_300; mkPointerEvent 401 302 5 1 2] ->
                clientX e - rect_left e == 400 /\ clientY e - rect_top e == 300)
  /\ px (screenToImage
           (wheel_all annotating [zoom_in_at_400_300; mkPointerEvent 401 302 5 1 2]
              loaded) 400 300) == 400
  /\ scale (wheel_all annotating [zoom_in_at_400_300; mkPointerEvent 401 302 5 1 2]
              loaded) == 99 # 100.
Proof.
  assert (~ scale loaded == 0) as H0 by (vm_compute; discriminate).
  assert (forall e, e ∈ [zoom_in_at_400_300; mkPointerEvent 401 302 5 1 2] ->
                    clientX e - rect_left e == 400 /\ clientY e - rect_top e == 300)
    as H1.
  { intros e He. apply elem_of_cons in He as [->|He]; [by split|].
    apply list_elem_of_singleton in He as ->. by split. }
  split; [by split|].
  destruct (zoom_keeps_point_under_pointer annotating _ loaded 400 300 H0 H1)
    as (Hx & _).
  split; [|reflexivity]. rewrite Hx. reflexivity.
Defined.

(** The last element of a list that satisfies a test. *)
Lemma find_rev_last {A : Type} (f : A -> bool) (l : list A) :
  match List.find f (rev l) with
  | Some a => exists below above,
                l = below ++ a :: above /\ f a = true
                /\ forall b, b ∈ above -> f b = false
  | None => forall b, b ∈ l -> f b = false
  end.
Proof.
  induction l as [|x l IH] using rev_ind.
  - cbn. intros b Hb. by apply not_elem_of_nil in Hb.
  - rewrite rev_unit. cbn [List.find]. destruct (f x) eqn:Hx.
    + exists l, []. split_and!; [done|done|].
      intros b Hb. by apply not_elem_of_nil in Hb.
    + destruct (List.find f (rev l)) as [a|].
      * destruct IH as (below & above & -> & Ha & Habove).
        exists below, (above ++ [x]). split_and!; [by rewrite <- app_assoc|done|].
        intros b Hb. apply elem_of_app in Hb as [Hb|Hb]; [by apply Habove|].
        apply list_elem_of_singleton in Hb as ->. done.
      * intros b Hb. apply elem_of_app in Hb as [Hb|Hb]; [by apply IH|].
        apply list_elem_of_singleton in Hb as ->. done.
Qed.

(** X19 -- the hit test returns the topmost annotation. With an image
    loaded, [getAnnotationAt] returns the annotation latest in the array
    whose pixel box contains the image point under the pointer (borders
    included): no annotation after it contains the point. It returns
    nothing exactly when no annotation contains the point, and always
    nothing while no image is loaded. *)
Theorem hit_test_returns_topmost
    (p : Props) (c : Canvas.t) (screenX screenY : Q) :
  (forall imgW imgH,
      image c = Some (imgW, imgH) ->
      match getAnnotationAt p c screenX screenY with
      | Some ann =>
          exists below above,
            annotations p = below ++ ann :: above
            /\ covers imgW imgH (screenToImage c screenX screenY) ann = true
            /\ forall b, b ∈ above ->
                  covers imgW imgH (screenToImage c screenX screenY) b = false
      | None =>
          forall b, b ∈ annotations p ->
            covers imgW imgH (screenToImage c screenX screenY) b = false
      end)
  /\ (image c = None -> getAnnotationAt p c screenX screenY = None).
Proof.
  split.
  - intros imgW imgH Himg. unfold getAnnotationAt. rewrite Himg.
    exact (find_rev_last (covers imgW imgH (screenToImage c screenX screenY))
             (annotations p)).
  - intros Himg. unfold getAnnotationAt. by rewrite Himg.
Qed.

Lemma min_extent_again (x1 x2 : Q) :
  min_extent x1 (x1 + (min_extent x1 x2 - x1)) - x1 == min_extent x1 x2 - x1.
Proof.
  assert (10 <= min_extent x1 x2 - x1) as Hmin.
  { unfold min_extent. destruct (Qltb (x2 - x1) 10) eqn:H.
    - assert (x1 + 10 - x1 == 10) as -> by ring. apply Qle_refl.
    - by apply Qltb_ge in H. }
  unfold min_extent at 1.
  destruct (Qltb (x1 + (min_extent x1 x2 - x1) - x1) 10) eqn:H.
  - apply Qltb_lt in H. exfalso. apply (Qlt_not_le _ _ H).
    assert (x1 + (min_extent x1 x2 - x1) - x1 == min_extent x1 x2 - x1) as -> by ring.
    done.
  - ring.
Qed.

(** X20 -- a resize step is idempotent. Moving the pointer to the same
    image point twice with the same handle gives the box of the first
    move: a repeated mouse-move event does not make the drag box drift. *)
Theorem resize_is_idempotent (box : Box) (h : HandleType) (p : Point) :
  box_equiv (resize (resize box h p) h p) (resize box h p).
Proof.
  unfold box_equiv, resize, moved_edges.
  destruct h; cbn [box_x box_y box_w box_h];
    repeat match goal with
           | |- context [if Qltb (?b - ?a) 10 then ?a + 10 else ?b] =>
               change (if Qltb (b - a) 10 then a + 10 else b) with (min_extent a b)
           end;
    split_and!; try reflexivity; apply min_extent_again.
Qed.

(** X21 -- fitting centres the image inside the container. For an image
    and a container of positive sizes, [fitToContainer] sets a positive
    scale at which the image fits in both directions, touching 90% of the
    container in one of them, and offsets that leave equal margins left and
    right and equal margins above and below, none negative. *)
Theorem fit_centres_image
    (clientWidth clientHeight imgW imgH : Q) (c : Canvas.t) :
  image c = Some (imgW, imgH) ->
  0 < imgW -> 0 < imgH -> 0 < clientWidth -> 0 < clientHeight ->
  let c' := fitToContainer clientWidth clientHeight c in
  0 < scale c'
  /\ imgW * scale c' <= clientWidth /\ imgH * scale c' <= clientHeight
  /\ (imgW * scale c' == (9 # 10) * clientWidth
      \/ imgH * scale c' == (9 # 10) * clientHeight)
  /\ offsetX c' == clientWidth - (offsetX c' + imgW * scale c')
  /\ offsetY c' == clientHeight - (offsetY c' + imgH * scale c')
  /\ 0 <= offsetX c' /\ 0 <= offsetY c'.
Proof.
  intros Himg HW HH Hcw Hch. cbv zeta. unfold fitToContainer. rewrite Himg.
  cbn [scale offsetX offsetY set_view].
  set (m := Math_min (clientWidth / imgW) (clientHeight / imgH)).
  assert (~ imgW == 0) as HW0 by (intros E; rewrite E in HW; by apply Qlt_irrefl in HW).
  assert (~ imgH == 0) as HH0 by (intros E; rewrite E in HH; by apply Qlt_irrefl in HH).
  assert (0 < clientWidth / imgW) as Hsx by (by apply Qlt_shift_div_l; [|lra]).
  assert (0 < clientHeight / imgH) as Hsy by (by apply Qlt_shift_div_l; [|lra]).
  assert (imgW * (clientWidth / imgW) == clientWidth) as Hfx by (by field).
  assert (imgH * (clientHeight / imgH) == clientHeight) as Hfy by (by field).
  assert (0 < m) as Hm.
  { unfold m, Math_min. by destruct (Qltb _ _). }
  destruct (Math_min_le (clientWidth / imgW) (clientHeight / imgH)) as [Hmx Hmy].
  fold m in Hmx, Hmy.
  assert (imgW * m <= clientWidth) as Hwm.
  { rewrite <- Hfx. apply Qmult_le_l; done. }
  assert (imgH * m <= clientHeight) as Hhm.
  { rewrite <- Hfy. apply Qmult_le_l; done. }
  assert (0 < imgW * m) as Hwm0 by (by apply Qmult_lt_0_compat).
  assert (0 < imgH * m) as Hhm0 by (by apply Qmult_lt_0_compat).
  assert (imgW * (m * (9 # 10)) == (9 # 10) * (imgW * m)) as Ew by ring.
  assert (imgH * (m * (9 # 10)) == (9 # 10) * (imgH * m)) as Eh by ring.
  assert (imgW * m == clientWidth \/ imgH * m == clientHeight) as Htouch.
  { unfold m, Math_min. destruct (Qltb _ _); [by right|by left]. }
  split_and!.
  - apply Qmult_lt_0_compat; [done|reflexivity].
  - rewrite Ew. lra.
  - rewrite Eh. lra.
  - destruct Htouch as [E|E]; [left; rewrite Ew, E|right; rewrite Eh, E]; reflexivity.
  - field.
  - field.
  - apply Qle_shift_div_l; [reflexivity|]. rewrite Ew. lra.
  - apply Qle_shift_div_l; [reflexivity|]. rewrite Eh. lra.
Qed.

Lemma fit_centres_image_witness :
  (image loaded = Some (1920, 1080)
   /\ 0 < 1920 /\ 0 < 1080 /\ 0 < 960 /\ 0 < 600)
  /\ scale (fitToContainer 960 600 loaded) == 9 # 20
  /\ offsetX (fitToContainer 960 600 loaded) == 48
  /\ offsetY (fitToContainer 960 600 loaded) == 57
  /\ 1920 * scale (fitToContainer 960 600 loaded) <= 960.
Proof.
  split; [by split_and!|].
  destruct (fit_centres_image 960 600 1920 1080 loaded eq_refl)
    as (_ & Hfit & _); try reflexivity.
  split_and!; [reflexivity|reflexivity|reflexivity|exact Hfit].
Defined.

End ViewLaws.

(** ** Keys *)

Section KeyLaws.

Import Store Categories Canvas CanvasView Shortcuts Page Spec Sample Laws Sample2.
Local Open Scope Z_scope.

(** X22 -- the Delete key removes the selected annotation from the store.
    With an annotation selected that the store holds, Delete or Backspace
    makes the canvas emit one delete for its identifier and clear the
    selection; delivered to the store, it shortens the live array by one,
    and if the identifiers there are distinct none with that identifier is
    left. *)
Theorem delete_key_removes_selected
    (p : Props) (e : KeyEvent) (c : Canvas.t) (sel : Annotation)
    (now : Z) (s : Store.t) :
  key e = "Delete"%string \/ key e = "Backspace"%string ->
  selectedAnnotation c = Some sel ->
  sel ∈ Store.annotations s ->
  emitted (handleKeyDown p e c) = [emit_delete (ann_id sel)]
  /\ selectedAnnotation (fst (state_of (handleKeyDown p e c))) = None
  /\ S (length (Store.annotations
                  (foldl (fun acc ev => deliver now ev acc) s
                         (emitted (handleKeyDown p e c)))))
     = length (Store.annotations s)
  /\ (NoDup (ann_id <$> Store.annotations s) ->
      forall b,
        b ∈ Store.annotations
              (foldl (fun acc ev => deliver now ev acc) s
                     (emitted (handleKeyDown p e c))) ->
        ann_id b <> ann_id sel).
Proof.
  intros Hkey Hsel Hin. unfold handleKeyDown.
  assert (String.eqb (key e) "Delete" || String.eqb (key e) "Backspace" = true) as ->.
  { destruct Hkey as [-> | ->]; reflexivity. }
  set (c1 := if String.eqb (code e) "Space" then set_spacePressed true c else c).
  assert (selectedAnnotation c1 = Some sel) as ->
      by (unfold c1; by destruct (String.eqb _ _)).
  match goal with |- context [draw ?p' ?c' ?evs] =>
    destruct (emitted_draw p' c' evs) as [Hem Hst] end.
  rewrite Hem, Hst. cbn [foldl deliver].
  destruct (removeAnnotation_first_match (ann_id sel) s)
    as (k & a & _ & _ & _ & _ & Hlen & Hnd).
  { exists sel. done. }
  split_and!; done.
Qed.

Lemma delete_key_removes_selected_witness :
  (key delete_key = "Delete"%string \/ key delete_key = "Backspace"%string)
  /\ selectedAnnotation selected7 = Some box7
  /\ box7 ∈ Store.annotations first_load
  /\ emitted (handleKeyDown labelled delete_key selected7) = [emit_delete (Some 7)]
  /\ Store.annotations
       (foldl (fun acc ev => deliver 0 ev acc) first_load
              (emitted (handleKeyDown labelled delete_key selected7))) = [].
Proof.
  assert (box7 ∈ Store.annotations first_load) as Hin by apply list_elem_of_here.
  destruct (delete_key_removes_selected labelled delete_key selected7 box7 0
              first_load (or_introl eq_refl) eq_refl Hin) as (Hem & _ & _).
  split_and!; [by left|reflexivity|exact Hin|exact Hem|].
  rewrite Hem. reflexivity.
Defined.

Lemma lower_ascii_idempotent (a : Ascii.ascii) :
  lower_ascii (lower_ascii a) = lower_ascii a.
Proof. destruct a as [[] [] [] [] [] [] [] []]; reflexivity. Qed.

Lemma toLowerCase_idempotent (k : string) :
  toLowerCase (toLowerCase k) = toLowerCase k.
Proof.
  induction k as [|a k IH]; cbn [toLowerCase]; [done|].
  by rewrite lower_ascii_idempotent, IH.
Qed.

(** X23 -- a recorded shortcut answers to the key that recorded it. While
    an action is being edited, a key event other than Escape becomes its
    shortcut, and that same event then matches the action; the other
    actions keep their shortcuts and the edit is over. *)
Theorem recorded_shortcut_matches_its_event
    (e : KeyEvent) (p : Page.t) (action : string) :
  editingShortcut p = Some action ->
  key e <> "Escape"%string ->
  matchShortcut (shortcuts (handleShortcutKeydown e p)) e action = true
  /\ (forall other, other <> action ->
        shortcuts (handleShortcutKeydown e p) !! other = shortcuts p !! other)
  /\ editingShortcut (handleShortcutKeydown e p) = None.
Proof.
  intros Hedit Hesc. unfold handleShortcutKeydown. rewrite Hedit.
  destruct (String.eqb_spec (key e) "Escape") as [|_]; [done|].
  cbn [shortcuts editingShortcut notify set_editingShortcut set_shortcuts].
  split_and!; [|intros other Hne; unfold updateShortcut; by rewrite lookup_insert_ne|done].
  unfold matchShortcut, updateShortcut. rewrite lookup_insert_eq.
  cbn [sc_key sc_ctrl sc_shift merge_config cfg_key cfg_ctrl cfg_shift].
  rewrite !eqb_reflx, !andb_true_r.
  apply String.eqb_eq.
  destruct (String.length (key e) =? 1)%nat; [|done].
  by rewrite toLowerCase_idempotent.
Qed.

Lemma recorded_shortcut_matches_its_event_witness :
  (editingShortcut editing_undo = Some "undo"%string
   /\ key (key_press "Y" true false) <> "Escape"%string)
  /\ matchShortcut (shortcuts (handleShortcutKeydown (key_press "Y" true false)
                                 editing_undo))
       (key_press "Y" true false) "undo" = true
  /\ shortcuts (handleShortcutKeydown (key_press "Y" true false) editing_undo)
       !! "undo"%string = Some (mkShortcut "y" true false "undo").
Proof.
  assert (key (key_press "Y" true false) <> "Escape"%string) as H by discriminate.
  split; [by split|].
  destruct (recorded_shortcut_matches_its_event (key_press "Y" true false)
              editing_undo "undo" eq_refl H) as (Hm & _).
  split; [exact Hm|]. vm_compute. reflexivity.
Defined.

Lemma default_lookup (action : string) (sc : Shortcut) :
  DEFAULT_SHORTCUTS !! action = Some sc ->
  (action = "save"%string /\ sc = mkShortcut "s" true false "save")
  \/ (action = "skip"%string /\ sc = mkShortcut "n" false false "skip")
  \/ (action = "undo"%string /\ sc = mkShortcut "z" true false "undo")
  \/ (action = "redo"%string /\ sc = mkShortcut "z" true true "redo")
  \/ (action = "help"%string /\ sc = mkShortcut "?" false false "help").
Proof.
  unfold DEFAULT_SHORTCUTS. intros H.
  repeat (apply lookup_insert_Some in H as [[<- <-]|[_ H]]; [by auto 10|]).
  by rewrite lookup_empty in H.
Qed.

(** X24 -- the default shortcuts do not overlap: whatever the key event, it
    matches at most one action of the default table. *)
Theorem default_shortcuts_are_exclusive (e : KeyEvent) (a1 a2 : string) :
  matchShortcut DEFAULT_SHORTCUTS e a1 = true ->
  matchShortcut DEFAULT_SHORTCUTS e a2 = true ->
  a1 = a2.
Proof.
  unfold matchShortcut. intros H1 H2.
  destruct (DEFAULT_SHORTCUTS !! a1) as [s1|] eqn:L1; [|done].
  destruct (DEFAULT_SHORTCUTS !! a2) as [s2|] eqn:L2; [|done].
  apply andb_true_iff in H1 as [H1 Hs1]. apply andb_true_iff in H1 as [Hk1 Hc1].
  apply andb_true_iff in H2 as [H2 Hs2]. apply andb_true_iff in H2 as [Hk2 Hc2].
  apply String.eqb_eq in Hk1, Hk2. apply eqb_prop in Hc1, Hc2, Hs1, Hs2.
  apply default_lookup in L1, L2.
  destruct L1 as [[-> ->]|[[-> ->]|[[-> ->]|[[-> ->]|[-> ->]]]]];
    destruct L2 as [[-> ->]|[[-> ->]|[[-> ->]|[[-> ->]|[-> ->]]]]];
    cbn [sc_key sc_ctrl sc_shift] in *; try reflexivity; exfalso;
    try congruence;
    rewrite Hk1 in Hk2; discriminate Hk2.
Qed.

Lemma default_shortcuts_are_exclusive_witness :
  (matchShortcut DEFAULT_SHORTCUTS (key_press "Z" true true) "redo" = true
   /\ matchShortcut DEFAULT_SHORTCUTS (key_press "Z" true true) "redo" = true)
  /\ matchShortcut DEFAULT_SHORTCUTS (key_press "Z" true true) "undo" = false.
Proof.
  assert (matchShortcut DEFAULT_SHORTCUTS (key_press "Z" true true) "redo" = true)
    as H by (vm_compute; reflexivity).
  split; [by split|].
  destruct (matchShortcut DEFAULT_SHORTCUTS (key_press "Z" true true) "undo")
    eqn:Hundo; [|reflexivity].
  discriminate (default_shortcuts_are_exclusive _ _ _ Hundo H).
Defined.

Lemma set_store_same (p : Page.t) : set_store (store p) p = p.
Proof. by destruct p. Qed.

Lemma store_interceptor {A : Type} (r : Reply A) (p : Page.t) :
  store (interceptor r p) = store p
  /\ canvasMode (interceptor r p) = canvasMode p
  /\ shortcuts (interceptor r p) = shortcuts p.
Proof. by destruct r as [[]|]. Qed.

Lemma set_store_interceptor {A : Type} (r : Reply A) (p : Page.t) :
  set_store (store p) (interceptor r p) = interceptor r p.
Proof. destruct r as [[]|]; by destruct p. Qed.

Lemma save_store (net : Net) (skip : bool) (p : Page.t) :
  store (state_of (save net skip p))
  = state_of (saveAnnotations (fun i anns k => response (post net i anns k)) skip
                (store p)).
Proof. unfold save. by destruct (saveAnnotations _ _ _). Qed.

Lemma fetchNext_store (net : Net) (p : Page.t) :
  store (state_of (fetchNext net p))
  = state_of (fetchNextImage (response (batch net)) (response (direct net)) (store p)).
Proof. unfold fetchNext. cbv zeta. by destruct (fetchNextImage _ _ _). Qed.

(** The store functions the page navigates with throw only when their
    request is rejected, and the request is the one for the entry under
    the cursor of the store they leave. *)
Lemma reload_throws_on_request (server : Z -> Response Image) (target : Image)
    (s s' : Store.t) :
  reload server target s = Throws s' ->
  server (img_id target) = Rejected
  /\ processedHistory s' = processedHistory s
  /\ historyPosition s' = historyPosition s.
Proof.
  unfold reload. destruct (server (img_id target)); cbn [finally]; [|done].
  intros [= <-]. done.
Qed.

Lemma navigation_throws_on_request (server : Z -> Response Image) (s s' : Store.t) :
  goToPreviousImage server s = Throws s' \/ goToNextImage server s = Throws s' ->
  exists target,
    at_index (processedHistory s') (historyPosition s') = Some target
    /\ server (img_id target) = Rejected.
Proof.
  intros [H|H].
  - unfold goToPreviousImage in H. destruct (negb _); [done|].
    match type of H with
    | match at_index (processedHistory ?x) _ with _ => _ end = _ => set (s3 := x) in H
    end.
    destruct (at_index (processedHistory s3) (historyPosition s3))
      as [prevImage|] eqn:Ht; [|done].
    apply reload_throws_on_request in H as (Hr & -> & ->). by exists prevImage.
  - unfold goToNextImage in H. destruct (negb _); [done|].
    set (s1 := set_historyPosition _ _) in H.
    destruct (at_index (processedHistory s1) (historyPosition s1))
      as [nextImage|] eqn:Ht; [|done].
    destruct (reload server nextImage s1) as [s2|s2] eqn:Hr; [done|].
    injection H as <-.
    apply reload_throws_on_request in Hr as (Hr & -> & ->). by exists nextImage.
Qed.

(** X25 -- a failed save stops the handler. With a current image and a
    POST that fails, each handler of the page that saves first
    ([handleSave], [handleSkip], [handleSaveAndNext], [handleNext], and
    [handlePrevious] while browsing) ends in the page the response
    interceptor left, with the error notice of the handler added. So the
    store is exactly as it was (nothing is recorded, no image is fetched,
    the cursor does not move), no further request is made and the canvas
    mode does not move; on a failure other than a 401 two error notices are
    raised, the interceptor's and the handler's; on a 401 the token is
    removed, the browser is sent to the login page and the handler still
    raises its notice. *)
Theorem failed_save_stops_every_handler
    (net : Net) (p : Page.t) (image : Image) (unauthorized : bool) :
  currentImage (store p) = Some image ->
  (forall anns skip, post net (img_id image) anns skip = Failed unauthorized) ->
  let stopped := notify error (interceptor (@Failed unit unauthorized) p) in
  handleSave net p = stopped
  /\ handleSkip net p = stopped
  /\ handleSaveAndNext net p = stopped
  /\ handleNext net p = stopped
  /\ (isInHistory (store p) = true -> handlePrevious net p = stopped)
  /\ store stopped = store p
  /\ canvasMode stopped = canvasMode p
  /\ notices stopped
     = notices p ++ (if unauthorized then [error] else [error; error])
  /\ token stopped = (if unauthorized then None else token p)
  /\ href stopped = (if unauthorized then "/login"%string else href p).
Proof.
  intros Hcur Hpost stopped.
  assert (forall skip,
             save net skip p = Throws (interceptor (@Failed unit unauthorized) p))
    as Hsave.
  { intros skip. unfold save, saveAnnotations. rewrite Hcur, !Hpost.
    cbn [response]. by rewrite set_store_interceptor. }
  unfold handleSave, handleSkip, handleSaveAndNext, handleNext, handlePrevious,
    handleSaveAndNext.
  rewrite !Hsave. cbv beta iota. fold stopped.
  split_and!; try done.
  - by destruct (isInHistory (store p)).
  - by intros ->.
  - unfold stopped. by destruct unauthorized.
  - unfold stopped. by destruct unauthorized.
  - unfold stopped. destruct unauthorized; [done|].
    cbn [interceptor notify notices]. by rewrite <- app_assoc.
  - unfold stopped. by destruct unauthorized.
  - unfold stopped. by destruct unauthorized.
Qed.

Lemma failed_save_stops_every_handler_witness :
  (currentImage (store page_browsing)
   = Some (mkImage 2 "stored.jpg" (Some [box7]))
   /\ (forall anns skip, post net_save_fails 2 anns skip = Failed false)
   /\ (forall anns skip, post net_expired 2 anns skip = Failed true))
  /\ notices (handleNext net_save_fails page_browsing) = [error; error]
  /\ store (handlePrevious net_save_fails page_browsing) = store page_browsing
  /\ notices (handleSave net_expired page_browsing) = [error]
  /\ token (handleSave net_expired page_browsing) = None
  /\ href (handleSave net_expired page_browsing) = "/login"%string.
Proof.
  assert (forall anns skip, post net_save_fails 2 anns skip = Failed false) as H
      by reflexivity.
  assert (forall anns skip, post net_expired 2 anns skip = Failed true) as H'
      by reflexivity.
  split; [by split_and!|].
  destruct (failed_save_stops_every_handler net_save_fails page_browsing
              (mkImage 2 "stored.jpg" (Some [box7])) false eq_refl H)
    as (_ & _ & _ & Hnext & Hprev & Hstore & _ & Hnotices & _).
  destruct (failed_save_stops_every_handler net_expired page_browsing
              (mkImage 2 "stored.jpg" (Some [box7])) true eq_refl H')
    as (Hsave & _ & _ & _ & _ & _ & _ & Hnotices' & Htoken & Hhref).
  rewrite Hnext, (Hprev eq_refl), Hsave.
  split_and!; [exact Hnotices|exact Hstore|exact Hnotices'|exact Htoken|exact Hhref].
Defined.

(** *** What loading and saving leave alone *)

Lemma frame_saveHistory {A : Type} (f : Store.t -> A) (s : Store.t) :
  ignores_loading f -> f (saveHistory s) = f s.
Proof.
  intros Hf. rewrite saveHistory_eq. cbv zeta.
  destruct (Hf (set_history (bounded (kept s ++ [Store.annotations s])) s))
    as (_ & _ & _ & -> & _).
  by destruct (Hf s) as (_ & _ & -> & _).
Qed.

Lemma frame_backgroundPrefetch_begin {A : Type} (f : Store.t -> A) (s : Store.t) :
  ignores_loading f -> f (backgroundPrefetch_begin s) = f s.
Proof.
  intros Hf. unfold backgroundPrefetch_begin.
  destruct (isPrefetching s); [done|]. destruct (_ <=? _); [done|].
  destruct (Hf (set_isPrefetching true s)) as (_ & _ & _ & _ & _ & _ & -> & _).
  by destruct (Hf s) as (_ & _ & _ & _ & _ & _ & _ & -> & _).
Qed.

Lemma frame_loaded {A : Type} (f : Store.t -> A) (data : Image) (s : Store.t) :
  ignores_loading f ->
  f (saveHistory (set_annotations (or_empty (img_annotations data))
                    (set_currentImage (Some data) s))) = f s.
Proof.
  intros Hf. rewrite frame_saveHistory by done.
  destruct (Hf (set_currentImage (Some data) s)) as (_ & -> & _).
  by destruct (Hf s) as (-> & _).
Qed.

Lemma frame_fetchNextImage {A : Type} (f : Store.t -> A)
    (batch : Response (list Image)) (direct : Response (option Image))
    (s : Store.t) :
  ignores_loading f -> f (state_of (fetchNextImage batch direct s)) = f s.
Proof.
  intros Hf.
  assert (forall v x, f (set_isLoading v x) = f x) as Hload
      by (intros v x; by destruct (Hf x) as (_ & _ & _ & _ & -> & _)).
  unfold fetchNextImage, getNextFromQueue.
  set (s0 := set_isLoading true s).
  assert (f s0 = f s) as H0 by apply Hload.
  clearbody s0.
  destruct (imageQueue s0) as [|nextImage rest] eqn:Hq.
  - change (len (@nil Image) =? 0) with true. cbn [andb].
    destruct (bool_decide (is_Some (currentImage s0))); cbn [negb].
    + set (s2 := if len (imageQueue s0) <? PREFETCH_THRESHOLD
                 then backgroundPrefetch_begin s0 else s0).
      assert (f s2 = f s) as H2.
      { unfold s2. destruct (_ <? _); [|done].
        by rewrite frame_backgroundPrefetch_begin. }
      clearbody s2.
      destruct direct as [|[data|]]; cbn [finally state_of]; rewrite Hload.
      * done.
      * by rewrite frame_loaded.
      * destruct (Hf (set_currentImage None s2)) as (_ & -> & _).
        by destruct (Hf s2) as (-> & _).
    + unfold initializePrefetch, getNextFromQueue.
      assert (forall x, f (set_prefetchProgress 0
                             (set_isPrefetching true (set_isInitialLoad true x)))
                        = f x) as Hstart.
      { intros x.
        destruct (Hf (set_isPrefetching true (set_isInitialLoad true x)))
          as (_ & _ & _ & _ & _ & _ & -> & _).
        destruct (Hf (set_isInitialLoad true x))
          as (_ & _ & _ & _ & _ & _ & _ & -> & _).
        by destruct (Hf x) as (_ & _ & _ & _ & _ & _ & _ & _ & ->). }
      assert (forall x, f (set_isInitialLoad false (set_isPrefetching false x)) = f x)
        as Hstop.
      { intros x.
        destruct (Hf (set_isPrefetching false x))
          as (_ & _ & _ & _ & _ & _ & _ & _ & ->).
        by destruct (Hf x) as (_ & _ & _ & _ & _ & _ & _ & -> & _). }
      destruct (len (fetchImageBatch batch) =? 0); cbn [snd finally state_of];
        rewrite Hload.
      * by rewrite Hstop, Hstart.
      * set (sq := set_isInitialLoad false _).
        assert (f sq = f s) as Hsq.
        { unfold sq. rewrite Hstop.
          match goal with |- f (set_prefetchProgress 100 ?x) = _ =>
            destruct (Hf x) as (_ & _ & _ & _ & _ & _ & -> & _) end.
          match goal with |- f (set_imageQueue ?v ?x) = _ =>
            destruct (Hf x) as (_ & _ & _ & _ & _ & -> & _) end.
          by rewrite Hstart. }
        clearbody sq.
        destruct (imageQueue sq) as [|n q']; cbn [snd]; [done|].
        rewrite frame_loaded by done.
        by destruct (Hf sq) as (_ & _ & _ & _ & _ & -> & _).
  - replace (len (nextImage :: rest) =? 0) with false
      by (symmetry; apply Z.eqb_neq; unfold len; cbn [length]; lia).
    cbn [andb finally state_of]. rewrite Hload.
    set (s3 := saveHistory _).
    assert (f s3 = f s) as H3.
    { unfold s3. rewrite frame_loaded by done.
      by destruct (Hf s0) as (_ & _ & _ & _ & _ & -> & _). }
    clearbody s3.
    destruct (_ <? _); [by rewrite frame_backgroundPrefetch_begin|done].
Qed.

Lemma ignores_loading_selectedCategory : ignores_loading Store.selectedCategory.
Proof. intros s. split_and!; done. Qed.

Lemma selectedCategory_saveAnnotations post skip (s : Store.t) :
  Store.selectedCategory (state_of (saveAnnotations post skip s))
  = Store.selectedCategory s.
Proof.
  unfold saveAnnotations. destruct (currentImage s); [|done].
  destruct (post _ _ _); [done|]. destruct (isInHistory s); cbn [negb state_of]; [done|].
  unfold recordToProcessedHistory.
  repeat match goal with |- context [if ?b then _ else _] => destruct b end; done.
Qed.

Lemma selectedCategory_restore (s : Store.t) :
  Store.selectedCategory (state_of (restore_snapshot s)) = Store.selectedCategory s.
Proof. unfold restore_snapshot. by destruct (at_index _ _). Qed.

Lemma selectedCategory_save (net : Net) (skip : bool) (p : Page.t) :
  Store.selectedCategory (store (state_of (save net skip p)))
  = Store.selectedCategory (store p).
Proof. rewrite save_store. apply selectedCategory_saveAnnotations. Qed.

Lemma selectedCategory_fetchNext (net : Net) (p : Page.t) :
  Store.selectedCategory (store (state_of (fetchNext net p)))
  = Store.selectedCategory (store p).
Proof.
  rewrite fetchNext_store.
  apply frame_fetchNextImage, ignores_loading_selectedCategory.
Qed.

Lemma selectedCategory_handleSave (net : Net) (p : Page.t) :
  Store.selectedCategory (store (handleSave net p)) = Store.selectedCategory (store p).
Proof.
  unfold handleSave.
  pose proof (selectedCategory_save net false p) as Hs.
  destruct (save net false p) as [p1|p1]; cbn [state_of] in Hs; [|done].
  cbv zeta. unfold loadProgress.
  destruct (negb _).
  - pose proof (selectedCategory_fetchNext net (notify success p1)) as Hf.
    change (store (notify success p1)) with (store p1) in Hf.
    destruct (fetchNext net (notify success p1)) as [p3|p3]; cbn [state_of] in Hf.
    + destruct (store_interceptor (progress net) (set_canvasMode Canvas.pan p3))
        as (-> & _).
      change (store (set_canvasMode Canvas.pan p3)) with (store p3). congruence.
    + change (store (notify error p3)) with (store p3). congruence.
  - by destruct (store_interceptor (progress net) (notify success p1)) as (-> & _).
Qed.

Lemma selectedCategory_handleSkip (net : Net) (p : Page.t) :
  Store.selectedCategory (store (handleSkip net p)) = Store.selectedCategory (store p).
Proof.
  unfold handleSkip.
  pose proof (selectedCategory_save net true p) as Hs.
  destruct (save net true p) as [p1|p1]; cbn [state_of] in Hs; [|done].
  pose proof (selectedCategory_fetchNext net (notify info p1)) as Hf.
  change (store (notify info p1)) with (store p1) in Hf.
  destruct (fetchNext net (notify info p1)) as [p2|p2]; cbn [state_of] in Hf.
  - unfold loadProgress.
    change (store (set_canvasMode Canvas.pan ?q)) with (store q).
    destruct (store_interceptor (progress net) p2) as (-> & _). congruence.
  - change (store (notify error p2)) with (store p2). congruence.
Qed.

(** X26 -- the keyboard changes the selected category only through a
    category shortcut that nothing shadows. If [handleKeydown] changes the
    selected category, the new one is a category of the store whose
    shortcut is the lower-cased key, the canvas is switched to annotate
    mode, and the event matched none of the five action shortcuts and was
    none of the keys "escape", "v" and "h": a category bound to one of
    those can never be picked from the keyboard. *)
Theorem keyboard_selects_by_category_key (net : Net) (e : KeyEvent) (p : Page.t) :
  Store.selectedCategory (store (handleKeydown net e p))
  <> Store.selectedCategory (store p) ->
  exists c,
    Store.selectedCategory (store (handleKeydown net e p)) = Some c
    /\ c ∈ Store.categories (store p)
    /\ shortcut_key c = toLowerCase (key e)
    /\ canvasMode (handleKeydown net e p) = Canvas.annotate
    /\ (forall action, action ∈ actions ->
          matchShortcut (shortcuts p) e action = false)
    /\ toLowerCase (key e) <> "escape"%string
    /\ toLowerCase (key e) <> "v"%string
    /\ toLowerCase (key e) <> "h"%string.
Proof.
  unfold handleKeydown.
  destruct (_ || _); [done|].
  destruct (truthy _); [done|].
  destruct (matchShortcut (shortcuts p) e "save") eqn:M1;
    [by rewrite selectedCategory_handleSave|].
  destruct (matchShortcut (shortcuts p) e "skip") eqn:M2;
    [by rewrite selectedCategory_handleSkip|].
  destruct (matchShortcut (shortcuts p) e "undo") eqn:M3.
  { intros H. exfalso. apply H. cbn [store set_store]. unfold undo.
    destruct (canUndo _); [|done]. by rewrite selectedCategory_restore. }
  destruct (matchShortcut (shortcuts p) e "redo") eqn:M4.
  { intros H. exfalso. apply H. cbn [store set_store]. unfold redo.
    destruct (canRedo _); [|done]. by rewrite selectedCategory_restore. }
  destruct (matchShortcut (shortcuts p) e "help") eqn:M5; [done|].
  destruct (String.eqb_spec (toLowerCase (key e)) "escape") as [|K1]; [done|].
  destruct (String.eqb_spec (toLowerCase (key e)) "v") as [|K2]; [done|].
  destruct (String.eqb_spec (toLowerCase (key e)) "h") as [|K3]; [done|].
  unfold selectCategoryByKey.
  destruct (List.find _ _) as [c|] eqn:Hfind; [|done].
  intros _. apply find_some in Hfind as [Hin Hkey].
  apply String.eqb_eq in Hkey.
  exists c. split_and!; try done.
  - by apply list_elem_of_In.
  - intros action Ha. unfold actions in Ha.
    repeat (apply elem_of_cons in Ha as [->|Ha]; [done|]).
    by apply not_elem_of_nil in Ha.
Qed.

Lemma keyboard_selects_by_category_key_witness :
  Store.selectedCategory (store (handleKeydown net_ok (key_press "B" false false) page0))
  <> Store.selectedCategory (store page0)
  /\ Store.selectedCategory
       (store (handleKeydown net_ok (key_press "B" false false) page0)) = Some bike.
Proof.
  assert (Store.selectedCategory
            (store (handleKeydown net_ok (key_press "B" false false) page0))
          <> Store.selectedCategory (store page0)) as H
      by (vm_compute; discriminate).
  split; [exact H|].
  destruct (keyboard_selects_by_category_key net_ok (key_press "B" false false)
              page0 H) as (c & Hc & _).
  rewrite Hc. vm_compute in Hc. symmetry. exact Hc.
Defined.

(** X27 -- the default undo and redo keys. With the default shortcuts,
    outside text fields and while no category shortcut is being edited, a
    "z" or "Z" pressed with Ctrl or Cmd runs [undo] when Shift is up and
    [redo] when Shift is down, and nothing else on the page changes: the
    "undo" entry, tested first, does not shadow "redo". *)
Theorem default_keys_undo_and_redo (net : Net) (e : KeyEvent) (p : Page.t) :
  shortcuts p = DEFAULT_SHORTCUTS ->
  tagName e <> "INPUT"%string ->
  tagName e <> "TEXTAREA"%string ->
  truthy (editingCategoryShortcut p) = false ->
  toLowerCase (key e) = "z"%string ->
  ctrlKey e || metaKey e = true ->
  handleKeydown net e p
  = set_store (state_of (if shiftKey e then redo (store p) else undo (store p))) p.
Proof.
  intros Hs Ht1 Ht2 He Hk Hc. unfold handleKeydown.
  apply String.eqb_neq in Ht1, Ht2. rewrite Ht1, Ht2, He, Hs. cbn [orb].
  unfold matchShortcut.
  assert (DEFAULT_SHORTCUTS !! "save"%string
          = Some (mkShortcut "s" true false "save")) as -> by reflexivity.
  assert (DEFAULT_SHORTCUTS !! "skip"%string
          = Some (mkShortcut "n" false false "skip")) as -> by reflexivity.
  assert (DEFAULT_SHORTCUTS !! "undo"%string
          = Some (mkShortcut "z" true false "undo")) as -> by reflexivity.
  assert (DEFAULT_SHORTCUTS !! "redo"%string
          = Some (mkShortcut "z" true true "redo")) as -> by reflexivity.
  cbn [sc_key sc_ctrl sc_shift]. rewrite Hk, Hc.
  change (String.eqb "z" (toLowerCase "s")) with false.
  change (String.eqb "z" (toLowerCase "n")) with false.
  change (String.eqb "z" (toLowerCase "z")) with true.
  cbn [andb Bool.eqb].
  by destruct (shiftKey e).
Qed.

Lemma default_keys_undo_and_redo_witness :
  (shortcuts page0 = DEFAULT_SHORTCUTS
   /\ tagName (key_press "Z" true true) <> "INPUT"%string
   /\ tagName (key_press "Z" true true) <> "TEXTAREA"%string
   /\ truthy (editingCategoryShortcut page0) = false
   /\ toLowerCase (key (key_press "Z" true true)) = "z"%string
   /\ ctrlKey (key_press "Z" true true) || metaKey (key_press "Z" true true) = true)
  /\ handleKeydown net_ok (key_press "Z" true true) page0
     = set_store (state_of (redo (store page0))) page0.
Proof.
  split; [split_and!; done|].
  apply (default_keys_undo_and_redo net_ok (key_press "Z" true true) page0);
    done.
Defined.

(** X28 -- loading the categories. A resolved [loadCategories] returns,
    replaces the category list and touches neither the image being edited
    nor the navigation; a list of exactly one category selects it, and
    every box added afterwards carries its identifier (when that is not
    zero) whatever category the box came with; a list of any other length
    leaves the previous selection in place, even when the category selected
    is not in the new list. *)
Theorem single_category_is_preselected (cats : list Category) (s : Store.t) :
  exists s',
    loadCategories (Resolved cats) s = Returns s'
    /\ Store.categories s' = cats
    /\ editing s' = editing s
    /\ navigation s' = navigation s
    /\ (forall c, cats = [c] ->
          Store.selectedCategory s' = Some c
          /\ (cat_id c <> 0 ->
              forall now a, category_id (fst (addAnnotation now a s')) = cat_id c))
    /\ (len cats <> 1 -> Store.selectedCategory s' = Store.selectedCategory s).
Proof.
  unfold loadCategories. cbv zeta.
  change (Store.categories (set_categories cats s)) with cats.
  destruct (Z.eqb_spec (len cats) 1) as [H1|H1].
  - eexists. split; [reflexivity|]. split_and!; try done.
    intros c ->. split; [done|]. intros Hc now a.
    unfold addAnnotation. cbn [fst category_id].
    change (Store.selectedCategory (set_selectedCategory ?v ?x)) with v.
    cbn [head pick_category].
    by apply Z.eqb_neq in Hc as ->.
  - eexists. split; [reflexivity|]. split_and!; try done.
    intros c ->. by destruct H1.
Qed.

Lemma navigation_fetchNext (net : Net) (p : Page.t) :
  navigation (store (state_of (fetchNext net p))) = navigation (store p).
Proof. rewrite fetchNext_store. apply navigation_fetchNextImage. Qed.

(** X29 -- saving while a previous image is browsed. With a current image
    and a POST that succeeds, in browsing mode [handleSave] stays on the
    image: it adds the success notice and reloads the progress, nothing
    more, so the store and the canvas mode are left as they are, and the
    page is the one with the success notice added when the request for the
    progress is answered. [handleSaveAndNext] always ends outside browsing
    mode with the cursor on the head of the processed stack, and when it
    started in browsing mode the stack is the one it started with: the
    entries between the cursor and the head are kept and not shown
    again. *)
Theorem saving_while_browsing (net : Net) (p : Page.t) (image : Image) :
  currentImage (store p) = Some image ->
  post net (img_id image) (map annotationData (Store.annotations (store p))) false
  = Answered tt ->
  (isInHistory (store p) = true ->
   handleSave net p = loadProgress net (notify success p)
   /\ store (handleSave net p) = store p
   /\ canvasMode (handleSave net p) = canvasMode p
   /\ (progress net = Answered tt -> handleSave net p = notify success p))
  /\ isInHistory (store (handleSaveAndNext net p)) = false
  /\ historyPosition (store (handleSaveAndNext net p))
     = len (processedHistory (store (handleSaveAndNext net p))) - 1
  /\ (isInHistory (store p) = true ->
      processedHistory (store (handleSaveAndNext net p))
      = processedHistory (store p)).
Proof.
  intros Hcur Hpost.
  assert (exists s1,
             save net false p = Returns (set_store s1 p)
             /\ (isInHistory (store p) = true -> s1 = store p))
    as (s1 & Hsave & Hs1).
  { unfold save, saveAnnotations. rewrite Hcur, !Hpost. cbn [response interceptor].
    destruct (isInHistory (store p)); cbn [negb]; eexists; (split; [reflexivity|]);
      done. }
  assert (navigation (store (handleSaveAndNext net p))
          = (processedHistory s1, len (processedHistory s1) - 1, false)) as Hnav.
  { unfold handleSaveAndNext. rewrite Hsave. cbv zeta.
    match goal with |- context [fetchNext net ?q] =>
      pose proof (navigation_fetchNext net q) as Hn;
      destruct (fetchNext net q) as [p3|p3]; cbn [state_of] in Hn end.
    - unfold loadProgress.
      change (store (set_canvasMode Canvas.pan ?q)) with (store q).
      destruct (store_interceptor (progress net) p3) as (-> & _).
      by rewrite Hn.
    - change (store (notify error p3)) with (store p3). by rewrite Hn. }
  unfold navigation in Hnav. injection Hnav as Hstack Hpos Hin'.
  split_and!.
  - intros Hin. specialize (Hs1 Hin). subst s1.
    rewrite set_store_same in Hsave.
    assert (handleSave net p = loadProgress net (notify success p)) as Heq.
    { unfold handleSave. rewrite Hsave. cbv zeta.
      change (store (notify success p)) with (store p). by rewrite Hin. }
    rewrite Heq. unfold loadProgress.
    destruct (store_interceptor (progress net) (notify success p)) as (-> & -> & _).
    split_and!; try done. by intros ->.
  - exact Hin'.
  - by rewrite Hpos, Hstack.
  - intros Hin. rewrite Hstack. by rewrite (Hs1 Hin).
Qed.

Lemma saving_while_browsing_witness :
  (currentImage (store page_browsing) = Some (mkImage 2 "stored.jpg" (Some [box7]))
   /\ post net_ok 2
        (map annotationData (Store.annotations (store page_browsing))) false
      = Answered tt)
  /\ handleSave net_ok page_browsing = notify success page_browsing
  /\ isInHistory (store (handleSaveAndNext net_ok page_browsing)) = false.
Proof.
  split; [by split|].
  destruct (saving_while_browsing net_ok page_browsing
              (mkImage 2 "stored.jpg" (Some [box7])) eq_refl eq_refl)
    as (H1 & H2 & _).
  destruct (H1 eq_refl) as (_ & _ & _ & Hok).
  split; [exact (Hok eq_refl)|exact H2].
Defined.

End KeyLaws.
